(** * Porto Alegre daily climate: ingestion and aggregation

    A shallow embedding of the core of [projeto_clima_porto_alegre.py]:
    cell coercion ([parse_data_br], [_to_float]), header resolution
    ([_mapear_colunas]), the row loop of [carregar_dados_csv], the interval
    filter ([dentro_periodo], [filtrar_por_intervalo]) and the aggregators
    ([mes_mais_chuvoso], [medias_minimas_mes_2006_2016]).

    Modelling conventions.
    - A Python [str] is a [string] whose characters are code points below
      256; text with larger code points is outside the model.
    - A Python [int] is a [Z].
    - A Python [float] is an IEEE 754 binary64 value, [spec_float] at
      precision 53 and maximal exponent 1024, with the operations of
      [SpecFloat]: NaN, the infinities and signed zeros are all there.
    - A [dict] whose iteration order is observed is an association list in
      insertion order; a [dict] that is only looked up is a [gmap].
    - A raised exception is a value of a sum type. *)

From Stdlib Require Import ZArith Ascii String SpecFloat.
From stdpp Require Import base option list sorting gmap strings.

Local Open Scope Z_scope.

(** ** Python [str] methods used by the program *)

Module Str.

Definition code (c : ascii) : N := N_of_ascii c.

(** [str.isspace] on one character, for code points below 256. *)
Definition is_space (c : ascii) : bool :=
  let n := code c in
  ((9 <=? n) && (n <=? 13) || (28 <=? n) && (n <=? 32)
   || (n =? 133) || (n =? 160))%N.

Definition is_digit (c : ascii) : bool :=
  let n := code c in ((48 <=? n) && (n <=? 57))%N.

Definition digit_val (c : ascii) : Z := Z.of_N (code c) - 48.

(** [str.lower] on one character, for code points below 256. *)
Definition lower_char (c : ascii) : ascii :=
  let n := code c in
  if ((65 <=? n) && (n <=? 90)
      || (192 <=? n) && (n <=? 222) && negb (n =? 215))%N
  then ascii_of_N (n + 32) else c.

Fixpoint lower (s : string) : string :=
  match s with
  | EmptyString => EmptyString
  | String c s' => String (lower_char c) (lower s')
  end.

Fixpoint lstrip (s : string) : string :=
  match s with
  | EmptyString => EmptyString
  | String c s' => if is_space c then lstrip s' else s
  end.

Fixpoint rstrip (s : string) : string :=
  match s with
  | EmptyString => EmptyString
  | String c s' =>
      match rstrip s' with
      | EmptyString => if is_space c then EmptyString else String c EmptyString
      | r => String c r
      end
  end.

(** [s.strip()] *)
Definition strip (s : string) : string := rstrip (lstrip s).

(** [s.replace(a, b)] for one-character [a] and [b]. *)
Fixpoint replace (a b : ascii) (s : string) : string :=
  match s with
  | EmptyString => EmptyString
  | String c s' =>
      String (if Ascii.eqb c a then b else c) (replace a b s')
  end.

(** [s.startswith(p)] *)
Fixpoint startswith (s p : string) : bool :=
  match p, s with
  | EmptyString, _ => true
  | String _ _, EmptyString => false
  | String cp p', String cs s' => Ascii.eqb cs cp && startswith s' p'
  end.

Fixpoint all_space (s : string) : bool :=
  match s with
  | EmptyString => true
  | String c s' => is_space c && all_space s'
  end.

(** [c in s] *)
Fixpoint has (c : ascii) (s : string) : bool :=
  match s with
  | EmptyString => false
  | String c' s' => Ascii.eqb c' c || has c s'
  end.

Fixpoint no_digit (s : string) : bool :=
  match s with
  | EmptyString => true
  | String c s' => negb (is_digit c) && no_digit s'
  end.

End Str.

(** ** Python [float]: IEEE 754 binary64 *)

Module Float.

Definition prec : Z := 53.
Definition emax : Z := 1024.

Definition float := spec_float.

Definition zero : float := S754_zero false.
Definition add : float -> float -> float := SFadd prec emax.
Definition div : float -> float -> float := SFdiv prec emax.
(** [x > y] *)
Definition gt (x y : float) : bool := SFltb y x.
Definition ge (x y : float) : bool := SFleb y x.
Definition eq (x y : float) : bool := SFeqb x y.

Definition is_nan (x : float) : bool :=
  match x with S754_nan => true | _ => false end.

Definition is_finite (x : float) : bool :=
  match x with S754_zero _ | S754_finite _ _ _ => true | _ => false end.

(** Conversion of a Python [int], as in [float(n)] and in mixed
    arithmetic: rounded to nearest, ties to even. *)
Definition of_int (n : Z) : float := binary_normalize prec emax n 0 false.

(** The correctly rounded value of [m * 10^e] with sign [neg], which is what
    [float] gives for a decimal literal of digits [m] and decimal
    exponent [e]. *)
Definition of_decimal (neg : bool) (m : Z) (e : Z) : float :=
  match m with
  | Zpos p =>
      if 0 <=? e then binary_round prec emax neg (Z.to_pos (Zpos p * 10 ^ e)) 0
      else
        let '(q, e', l) :=
          SFdiv_core_binary prec emax (Zpos p) 0 (10 ^ (- e)) 0 in
        binary_round_aux prec emax neg q e' l
  | _ => S754_zero neg
  end.

(** The builtin [sum] over a list of floats: the start value is the
    integer 0, each element is added in turn in binary64 arithmetic. *)
Definition sum (l : list float) : float := foldl add zero l.

(** *** [float(text)]

    The grammar of CPython's [float] on a string: surrounding whitespace is
    dropped, underscores are accepted between digits, and what is left is
    an optionally signed decimal literal, [inf], [infinity] or [nan] in any
    letter case. [None] stands for [ValueError]. (CPython also caps the
    number of digits and the exponent at about 10^9; texts of that length
    are not modelled.) *)

(** The decimal digits at the front of [s], accumulated on [acc]: the
    value, how many digits were read, and the rest of the text. *)
Fixpoint digits (s : string) (acc : Z) (n : nat) : Z * nat * string :=
  match s with
  | String c s' =>
      if Str.is_digit c then digits s' (10 * acc + Str.digit_val c) (S n)
      else (acc, n, s)
  | EmptyString => (acc, n, s)
  end.

Definition sign (s : string) : bool * string :=
  match s with
  | String c s' =>
      if Ascii.eqb c "-" then (true, s')
      else if Ascii.eqb c "+" then (false, s')
      else (false, s)
  | EmptyString => (false, s)
  end.

Definition is_e (c : ascii) : bool := Ascii.eqb c "e" || Ascii.eqb c "E".

(** The exponent part. A letter [e] that is not followed by at least one
    digit (after an optional sign) is not consumed. *)
Definition exponent (s : string) : Z * string :=
  match s with
  | String c s' =>
      if is_e c then
        let '(eneg, s1) := sign s' in
        let '(v, n, s2) := digits s1 0 0 in
        match n with
        | O => (0, s)
        | S _ => (if eneg then - v else v, s2)
        end
      else (0, s)
  | EmptyString => (0, s)
  end.

(** A decimal literal at the front of [s]; [None] when there is no digit
    in the mantissa. *)
Definition parse_number (s : string) : option (float * string) :=
  let '(neg, s1) := sign s in
  let '(mi, ni, s2) := digits s1 0 0 in
  let '(m, nf, s3) :=
    match s2 with
    | String c s2' => if Ascii.eqb c "." then digits s2' mi 0 else (mi, O, s2)
    | EmptyString => (mi, O, s2)
    end in
  match (ni + nf)%nat with
  | O => None
  | S _ =>
      let '(ex, s4) := exponent s3 in
      Some (of_decimal neg m (ex - Z.of_nat nf), s4)
  end.

(** [s] starts with [t], letter case of [s] ignored; [t] is lower case. *)
Definition imatch (s t : string) : bool := Str.startswith (Str.lower s) t.

Fixpoint drop (n : nat) (s : string) : string :=
  match n, s with
  | S n', String _ s' => drop n' s'
  | _, _ => s
  end.

Definition parse_inf_or_nan (s : string) : option (float * string) :=
  let '(neg, s1) := sign s in
  if imatch s1 "inf" then
    let s2 := drop 3 s1 in
    Some (S754_infinity neg, if imatch s2 "inity" then drop 5 s2 else s2)
  else if imatch s1 "nan" then Some (S754_nan, drop 3 s1)
  else None.

Definition strtod (s : string) : option (float * string) :=
  match parse_number s with
  | Some r => Some r
  | None => parse_inf_or_nan s
  end.

(** Underscores are dropped; each must stand between two digits. [prev] is
    the character before [s]. *)
Definition is_underscore (prev : option ascii) : bool :=
  match prev with
  | Some p => Ascii.eqb p "_"
  | None => false
  end.

Definition is_digit_opt (prev : option ascii) : bool :=
  match prev with
  | Some p => Str.is_digit p
  | None => false
  end.

Fixpoint remove_underscores (prev : option ascii) (s : string)
  : option string :=
  match s with
  | EmptyString => if is_underscore prev then None else Some EmptyString
  | String c s' =>
      if Ascii.eqb c "_" then
        if is_digit_opt prev then remove_underscores (Some c) s' else None
      else if is_underscore prev && negb (Str.is_digit c) then None
      else String c <$> remove_underscores (Some c) s'
  end.

Definition of_string (s : string) : option float :=
  match remove_underscores None (Str.strip s) with
  | Some s' =>
      match strtod s' with
      | Some (x, EmptyString) => Some x
      | _ => None
      end
  | None => None
  end.

End Float.

(** ** Field coercion *)

(** [_to_float(s)]. The argument is [None] when the row has no cell for the
    column; the result is [None] for an absent value. *)
Definition _to_float (s : option string) : option Float.float :=
  match s with
  | None => None
  | Some s =>
      let txt := Str.replace "," "." (Str.strip s) in
      if String.eqb txt "" || String.eqb txt "-"
         || String.eqb (Str.lower txt) "na"
      then None
      else Float.of_string txt
  end.

(** ** Dates: [datetime.date] and [strptime] with the format [%d/%m/%Y] *)

Module Date.

Record date := Build { year : Z; month : Z; day : Z }.

Definition is_leap (y : Z) : bool :=
  (y mod 4 =? 0) && (negb (y mod 100 =? 0) || (y mod 400 =? 0)).

Definition days_in_month (y m : Z) : Z :=
  if m =? 2 then (if is_leap y then 29 else 28)
  else if (m =? 4) || (m =? 6) || (m =? 9) || (m =? 11) then 30
  else 31.

(** The constructor [date(y, m, d)]; [None] stands for [ValueError]. *)
Definition make (y m d : Z) : option date :=
  if (1 <=? y) && (y <=? 9999) && (1 <=? m) && (m <=? 12)
     && (1 <=? d) && (d <=? days_in_month y m)
  then Some (Build y m d) else None.

(** [d1 < d2]: dates compare as the triples (year, month, day). *)
Definition lt (a b : date) : bool :=
  if negb (year a =? year b) then year a <? year b
  else if negb (month a =? month b) then month a <? month b
  else day a <? day b.

(** *** The regular expression of [strptime]

    The format [%d/%m/%Y] is compiled to
    [(3[0-1]|[1-2]\d|0[1-9]|[1-9]| [1-9])/(1[0-2]|0[1-9]|[1-9])/(\d\d\d\d)]
    and matched at the start of the text. A matcher gives every way to
    match a prefix, in the order a backtracking engine tries them: the
    matched text and what follows it. *)

Definition matcher := string -> list (string * string).

Definition between (lo hi : ascii) (c : ascii) : bool :=
  ((Str.code lo <=? Str.code c) && (Str.code c <=? Str.code hi))%N.

Definition one (p : ascii -> bool) : matcher := fun s =>
  match s with
  | String c s' => if p c then [(String c EmptyString, s')] else []
  | EmptyString => []
  end.

Definition two (p1 p2 : ascii -> bool) : matcher := fun s =>
  match s with
  | String c1 (String c2 s') =>
      if p1 c1 && p2 c2
      then [(String c1 (String c2 EmptyString), s')] else []
  | _ => []
  end.

Definition re_d : matcher := fun s =>
  two (between "3" "3") (between "0" "1") s
  ++ two (between "1" "2") Str.is_digit s
  ++ two (between "0" "0") (between "1" "9") s
  ++ one (between "1" "9") s
  ++ two (between " " " ") (between "1" "9") s.

Definition re_m : matcher := fun s =>
  two (between "1" "1") (between "0" "2") s
  ++ two (between "0" "0") (between "1" "9") s
  ++ one (between "1" "9") s.

Definition re_Y : matcher := fun s =>
  '(a, s1) ← two Str.is_digit Str.is_digit s;
  '(b, s2) ← two Str.is_digit Str.is_digit s1;
  [(String.append a b, s2)].

Definition slash (s : string) : list string :=
  match s with
  | String c s' => if Ascii.eqb c "/" then [s'] else []
  | EmptyString => []
  end.

Definition re_date (s : string) : list (string * string * string * string) :=
  '(d, s1) ← re_d s;
  s2 ← slash s1;
  '(m, s3) ← re_m s2;
  s4 ← slash s3;
  '(y, s5) ← re_Y s4;
  [(d, m, y, s5)].

(** [int(text)] on a matched group: blanks around the digits are dropped. *)
Definition int (s : string) : Z := (Float.digits (Str.strip s) 0 0).1.1.

(** [datetime.strptime(s, "%d/%m/%Y").date()]; [None] stands for
    [ValueError]: no match, unconverted text left, or no such day. *)
Definition strptime (s : string) : option date :=
  match re_date s with
  | (d, m, y, EmptyString) :: _ => make (int y) (int m) (int d)
  | _ => None
  end.

End Date.

(** [parse_data_br(txt)] *)
Definition parse_data_br (txt : string) : option Date.date :=
  Date.strptime (Str.strip txt).

(** ** Records *)

(** A [Registro]: the dictionary with the seven standard keys that the
    loader builds for each row. *)
Record Registro := {
  data : Date.date;
  precip : option Float.float;
  maxima : option Float.float;
  minima : option Float.float;
  temp_media : option Float.float;
  um_relativa : option Float.float;
  vel_vento : option Float.float
}.

(** ** Interval filter *)

(** [a <= b] on pairs of integers, as Python compares tuples: the first
    position where they differ decides. *)
Definition tuple_le (a b : Z * Z) : bool :=
  if negb (a.1 =? b.1) then a.1 <=? b.1
  else if negb (a.2 =? b.2) then a.2 <=? b.2
  else true.

Definition dentro_periodo (d : Date.date) (mes_ini ano_ini mes_fim ano_fim : Z)
  : bool :=
  let ini := (ano_ini, mes_ini) in
  let fim := (ano_fim, mes_fim) in
  let cur := (Date.year d, Date.month d) in
  tuple_le ini cur && tuple_le cur fim.

(** [list.sort(key=...)] is a stable sort that compares keys with [<]. An
    element goes in front of the first one whose key is not smaller. *)
Section Sort.
Context {A K : Type} (key : A -> K) (lt : K -> K -> bool).

Fixpoint sort_insert (x : A) (l : list A) : list A :=
  match l with
  | [] => [x]
  | y :: l' =>
      if lt (key y) (key x) then y :: sort_insert x l' else x :: l
  end.

Definition sort_by_key (l : list A) : list A := foldr sort_insert [] l.
End Sort.

Definition filtrar_por_intervalo (registros : list Registro)
    (mes_ini ano_ini mes_fim ano_fim : Z) : list Registro :=
  let out :=
    List.filter (fun r => dentro_periodo (data r) mes_ini ano_ini mes_fim ano_fim)
      registros in
  sort_by_key data Date.lt out.

(** ** Header resolution *)

(** The column on which each standard field is read. For the three last
    fields the empty string means that no column was found. *)
Record Mapa := {
  col_data : string;
  col_precip : string;
  col_maxima : string;
  col_minima : string;
  col_temp_media : string;
  col_um_relativa : string;
  col_vel_vento : string
}.

(** The two [KeyError]s of [_mapear_colunas]: no date column, no
    precipitation column. *)
Inductive KeyError := Falta_data | Falta_precip.

Inductive Erro :=
| FileNotFoundError
| ErroChave (e : KeyError).

(** [h.strip().lower().startswith(pref)] *)
Definition casa (pref h : string) : bool :=
  Str.startswith (Str.lower (Str.strip h)) pref.

(** The inner function [achar] of [_mapear_colunas]: prefixes are tried in
    order, and for each prefix the headers in order. *)
Fixpoint achar (header : list string) (prefixos : list string)
  : option string :=
  match prefixos with
  | [] => None
  | pref :: rest =>
      match List.find (casa pref) header with
      | Some h => Some h
      | None => achar header rest
      end
  end.

(** Truth value of an optional string: [None] and [""] are false. *)
Definition truthy (col : option string) : bool :=
  match col with
  | Some (String _ _) => true
  | _ => false
  end.

(** [col if col else d] *)
Definition or_else (col : option string) (d : string) : string :=
  match col with
  | Some (String c s) => String c s
  | _ => d
  end.

(** "e" with an acute accent, code point 233. *)
Definition e_agudo : string := String (ascii_of_N 233) EmptyString.

Definition prefixos_temp_media : list string :=
  ["temp_media"; "tmed"; "tempmed";
   String.append "temperatura m" (String.append e_agudo "dia"); "media"].

Definition _mapear_colunas (header : list string) : KeyError + Mapa :=
  let c_data := achar header ["data"] in
  if negb (truthy c_data) then inl Falta_data else
  let c_precip := achar header ["precip"; "precipit"] in
  if negb (truthy c_precip) then inl Falta_precip else
  let c_max := achar header ["maxima"; "tmax"; "temp_max"] in
  let c_min := achar header ["minima"; "tmin"; "temp_min"] in
  inr {|
    col_data := or_else c_data "";
    col_precip := or_else c_precip "";
    col_maxima :=
      if truthy c_max then or_else c_max ""
      else or_else (achar header ["max"]) "maxima";
    col_minima :=
      if truthy c_min then or_else c_min ""
      else or_else (achar header ["min"]) "minima";
    col_temp_media := or_else (achar header prefixos_temp_media) "";
    col_um_relativa := or_else (achar header ["um_relativa"; "umidade"; "ur"]) "";
    col_vel_vento :=
      or_else (achar header ["vel"; "vento"; "vel_vento"; "velocidade"]) ""
  |}.

(** ** Record loader *)

(** A row as [csv.DictReader] yields it: a dictionary from header names to
    cells, where the cell of a column the line is too short for is [None]. *)
Definition Linha := gmap string (option string).

(** [lin.get(col, "")] *)
Definition lin_get (lin : Linha) (col : string) : option string :=
  default (Some "") (lin !! col).

(** [_to_float(lin.get(col, "")) if col else None] *)
Definition campo_opcional (lin : Linha) (col : string) : option Float.float :=
  match col with
  | EmptyString => None
  | _ => _to_float (lin_get lin col)
  end.

(** The body of the row loop: [None] when the row is dropped. Indexing the
    row with a missing key, stripping a [None] cell and a text that is not
    a date each raise an exception, and the loop catches them all. *)
Definition carregar_linha (mapa : Mapa) (lin : Linha) : option Registro :=
  match lin !! col_data mapa with
  | Some (Some txt) =>
      match parse_data_br txt with
      | Some d =>
          Some {|
            data := d;
            precip := _to_float (lin_get lin (col_precip mapa));
            maxima := campo_opcional lin (col_maxima mapa);
            minima := campo_opcional lin (col_minima mapa);
            temp_media := campo_opcional lin (col_temp_media mapa);
            um_relativa := campo_opcional lin (col_um_relativa mapa);
            vel_vento := campo_opcional lin (col_vel_vento mapa)
          |}
      | None => None
      end
  | _ => None
  end.

(** What the loader sees of the file: the header line ([None] for an empty
    file) and the rows of the reader. *)
Record Leitor := {
  fieldnames : option (list string);
  linhas : list Linha
}.

(** [carregar_dados_csv]; the argument is [None] when the file does not
    exist. *)
Definition carregar_dados_csv (arq : option Leitor) : Erro + list Registro :=
  match arq with
  | None => inl FileNotFoundError
  | Some leitor =>
      let header := default [] (fieldnames leitor) in
      match _mapear_colunas header with
      | inl e => inl (ErroChave e)
      | inr mapa => inr (omap (carregar_linha mapa) (linhas leitor))
      end
  end.

(** The row dictionary that [csv.DictReader] builds from the header and the
    cells of one line: a later column of the same name overrides an earlier
    one, and columns beyond the end of the line get [None]. *)
Fixpoint DictReader_linha (header : list string) (cells : list string) : Linha :=
  match header with
  | [] => ∅
  | h :: header' =>
      let resto := DictReader_linha header' (tail cells) in
      match resto !! h with
      | Some _ => resto
      | None => <[h := head cells]> resto
      end
  end.

(** ** Dictionaries in insertion order *)

Module Dict.
Section Dict.
Context {K V : Type} `{EqDecision K}.

Definition t := list (K * V).

(** [d.get(k, dflt)] *)
Fixpoint get (k : K) (dflt : V) (d : t) : V :=
  match d with
  | [] => dflt
  | (k', v) :: d' => if decide (k = k') then v else get k dflt d'
  end.

(** [d[k] = v]: a key that is already there keeps its place. *)
Fixpoint set (k : K) (v : V) (d : t) : t :=
  match d with
  | [] => [(k, v)]
  | (k', v') :: d' =>
      if decide (k = k') then (k', v) :: d' else (k', v') :: set k v d'
  end.
End Dict.
End Dict.

(** ** Wettest month *)

(** The builtin [max(items, key=...)]: the running maximum is replaced only
    by an item whose key is strictly greater. [None] stands for the
    [ValueError] on an empty sequence. *)
Section Max.
Context {A : Type} (key : A -> Float.float).

Fixpoint max_from (cur : A) (l : list A) : A :=
  match l with
  | [] => cur
  | x :: l' => max_from (if Float.gt (key x) (key cur) then x else cur) l'
  end.

Definition py_max (l : list A) : option A :=
  match l with
  | [] => None
  | x :: l' => Some (max_from x l')
  end.
End Max.

Definition Chave : Type := Z * Z.

Definition chave_de (r : Registro) : Chave :=
  (Date.year (data r), Date.month (data r)).

(** One turn of the loop that fills [soma_por_mes]. *)
Definition acumular (soma_por_mes : Dict.t (K := Chave) (V := Float.float))
    (r : Registro) : Dict.t :=
  match precip r with
  | None => soma_por_mes
  | Some p =>
      let chave := chave_de r in
      Dict.set chave (Float.add (Dict.get chave Float.zero soma_por_mes) p)
        soma_por_mes
  end.

Definition soma_por_mes (registros : list Registro) : Dict.t :=
  foldl acumular [] registros.

(** [mes_mais_chuvoso]; [None] stands for the [ValueError] raised when no
    record has a precipitation value. *)
Definition mes_mais_chuvoso (registros : list Registro)
  : option (Z * Z * Float.float) :=
  match py_max snd (soma_por_mes registros) with
  | None => None
  | Some ((ano, mes), total) => Some (ano, mes, total)
  end.

(** ** Mean minimum temperature per year, 2006 to 2016 *)

(** [range(2006, 2017)] *)
Definition anos_2006_2016 : list Z := seqZ 2006 11.

(** [sum(lista) / len(lista)] *)
Definition media (lista : list Float.float) : Float.float :=
  Float.div (Float.sum lista) (Float.of_int (Z.of_nat (length lista))).

(** One turn of the loop that fills [vals]. *)
Definition juntar (mes : Z) (vals : gmap Z (list Float.float)) (r : Registro)
  : gmap Z (list Float.float) :=
  let d := data r in
  match vals !! Date.year d with
  | Some lista =>
      if Date.month d =? mes then
        match minima r with
        | Some v => <[Date.year d := lista ++ [v]]> vals
        | None => vals
        end
      else vals
  | None => vals
  end.

Definition vals_iniciais : gmap Z (list Float.float) :=
  list_to_map ((fun ano => (ano, [])) <$> anos_2006_2016).

(** [medias_minimas_mes_2006_2016]; [None] stands for the [ValueError] on a
    month outside 1..12. *)
Definition medias_minimas_mes_2006_2016 (registros : list Registro) (mes : Z)
  : option (gmap Z Float.float) :=
  if negb ((1 <=? mes) && (mes <=? 12)) then None
  else
    let vals := foldl (juntar mes) vals_iniciais registros in
    Some (omap (fun lista =>
                  match lista with
                  | [] => None
                  | _ => Some (media lista)
                  end) vals).

(** ** Overall mean *)

(** The items of the dictionary that [medias_minimas_mes_2006_2016]
    returns, in its iteration order: the function fills it while it goes
    through the years 2006, 2007, ..., 2016. *)
Definition medias_em_ordem (medias : gmap Z Float.float)
  : Dict.t (K := Z) (V := Float.float) :=
  omap (fun ano => (fun m => (ano, m)) <$> medias !! ano) anos_2006_2016.

(** [media_geral]: the mean of the values of the dictionary, in its
    iteration order; [None] for the empty dictionary. *)
Definition media_geral (medias : Dict.t (K := Z) (V := Float.float))
  : option Float.float :=
  match medias with
  | [] => None
  | _ =>
      let vs := medias.*2 in
      Some (Float.div (Float.sum vs) (Float.of_int (Z.of_nat (length vs))))
  end.

(** ** Dates as text: [strftime] with the format [%d/%m/%Y] *)

Module DateText.

Definition digit_char (n : Z) : ascii := ascii_of_N (Z.to_N (48 + n)).

(** A number below 100 on two digits, as [%d] and [%m] print it. *)
Definition two_digits (n : Z) : string :=
  String (digit_char (n / 10)) (String (digit_char (n mod 10)) EmptyString).

(** A text of four digits. *)
Definition four (a b c e : Z) : string :=
  String (digit_char a) (String (digit_char b)
    (String (digit_char c) (String (digit_char e) EmptyString))).

Fixpoint decimal_aux (fuel : nat) (n : Z) (acc : string) : string :=
  match fuel with
  | O => acc
  | S fuel' =>
      let acc' := String (digit_char (n mod 10)) acc in
      if n <? 10 then acc' else decimal_aux fuel' (n / 10) acc'
  end.

(** The decimal digits of a natural number. *)
Definition decimal (n : Z) : string :=
  decimal_aux (S (Z.to_nat (Z.log2 n))) n EmptyString.

(** [d.strftime("%d/%m/%Y")]. The year is printed with its decimal digits;
    for the years below 1000 some platforms add zeros in front. *)
Definition strftime (d : Date.date) : string :=
  String.append (two_digits (Date.day d))
    (String "/"
       (String.append (two_digits (Date.month d))
          (String "/" (decimal (Date.year d))))).

End DateText.

(** ** Reading an integer from the user *)

(** The most digits that [int] takes from a text: the default of
    [sys.get_int_max_str_digits()], which the program does not change. *)
Definition int_max_str_digits : Z := 4300.

(** [int(text)] in base 10: blanks around the text are dropped, a sign may
    come first, underscores may stand between digits. A text of more than
    [int_max_str_digits] digits is refused, leading zeros counted, the sign
    and the underscores not. [None] stands for [ValueError]. *)
Definition py_int (s : string) : option Z :=
  match Float.remove_underscores None (Str.strip s) with
  | Some s' =>
      let '(neg, s1) := Float.sign s' in
      let '(v, n, rest) := Float.digits s1 0 0 in
      match n, rest with
      | S _, EmptyString =>
          if Z.of_nat n <=? int_max_str_digits
          then Some (if neg then - v else v) else None
      | _, _ => None
      end
  | None => None
  end.

(** What [ler_int] prints when it refuses an entry. *)
Inductive Aviso :=
| ValorMinimo (minimo : Z)
| ValorMaximo (maximo : Z)
| EntradaInvalida.

(** [v < minimo] when there is a minimum. *)
Definition abaixo (minimo : option Z) (v : Z) : bool :=
  match minimo with
  | Some m => v <? m
  | None => false
  end.

(** [v > maximo] when there is a maximum. *)
Definition acima (maximo : option Z) (v : Z) : bool :=
  match maximo with
  | Some m => m <? v
  | None => false
  end.

(** [ler_int]: the loop reads the lines that the user types, one per turn,
    until one is an integer within the bounds. The result is what was
    printed, and the integer with the lines not yet read; [None] when the
    input ends before (the [EOFError] of [input], which the loop does not
    catch). *)
Fixpoint ler_int (minimo maximo : option Z) (entradas : list string)
  : list Aviso * option (Z * list string) :=
  match entradas with
  | [] => ([], None)
  | linha :: resto =>
      match py_int (Str.strip linha) with
      | Some v =>
          if abaixo minimo v then
            let '(avisos, r) := ler_int minimo maximo resto in
            (ValorMinimo (default 0 minimo) :: avisos, r)
          else if acima maximo v then
            let '(avisos, r) := ler_int minimo maximo resto in
            (ValorMaximo (default 0 maximo) :: avisos, r)
          else ([], Some (v, resto))
      | None =>
          let '(avisos, r) := ler_int minimo maximo resto in
          (EntradaInvalida :: avisos, r)
      end
  end.

(** ** Vocabulary of the statements *)

(** [a <= b] on pairs, lexicographically. *)
Definition par_le (a b : Z * Z) : Prop :=
  a.1 < b.1 \/ (a.1 = b.1 /\ a.2 <= b.2).

(** A date is in the period from [mes_ini/ano_ini] to [mes_fim/ano_fim]:
    only its year and month are looked at. *)
Definition no_periodo (mes_ini ano_ini mes_fim ano_fim : Z) (r : Registro)
  : Prop :=
  par_le (ano_ini, mes_ini) (Date.year (data r), Date.month (data r))
  /\ par_le (Date.year (data r), Date.month (data r)) (ano_fim, mes_fim).

#[global] Instance no_periodo_dec mes_ini ano_ini mes_fim ano_fim r :
  Decision (no_periodo mes_ini ano_ini mes_fim ano_fim r).
Proof. unfold no_periodo, par_le. apply _. Defined.

(** [a <= b] on dates: the triples (year, month, day), lexicographically. *)
Definition data_le (a b : Date.date) : Prop :=
  Date.year a < Date.year b
  \/ (Date.year a = Date.year b
      /\ (Date.month a < Date.month b
          \/ (Date.month a = Date.month b /\ Date.day a <= Date.day b))).

(** The precipitation values that are present among the records of one
    (year, month), in the order of the records. *)
Definition chuvas (registros : list Registro) (k : Chave) : list Float.float :=
  omap precip (filter (fun r => chave_de r = k) registros).

(** The minimum temperatures that are present among the records of year [y]
    and month [m], in the order of the records. *)
Definition minimas_de (registros : list Registro) (y m : Z) : list Float.float :=
  omap minima
    (filter (fun r => Date.year (data r) = y /\ Date.month (data r) = m)
       registros).

(** The date cell of a row can be read and is a date. *)
Definition data_legivel (mapa : Mapa) (lin : Linha) : Prop :=
  exists txt d, lin !! col_data mapa = Some (Some txt) /\ parse_data_br txt = Some d.

#[global] Instance data_legivel_dec mapa lin : Decision (data_legivel mapa lin).
Proof.
  unfold data_legivel.
  destruct (lin !! col_data mapa) as [[txt|]|] eqn:Hl.
  - destruct (parse_data_br txt) as [d|] eqn:Hd.
    + left. exists txt, d. split; [reflexivity|exact Hd].
    + right. intros (t & d & [= <-] & Hd'). congruence.
  - right. intros (t & d & Ht & _). discriminate.
  - right. intros (t & d & Ht & _). discriminate.
Defined.

(** The standard numeric fields with the column each is read from. *)
Definition numericos : list ((Registro -> option Float.float) * (Mapa -> string)) :=
  [(precip, col_precip); (maxima, col_maxima); (minima, col_minima);
   (temp_media, col_temp_media); (um_relativa, col_um_relativa);
   (vel_vento, col_vel_vento)].

(** A text that reads [nan], with an optional sign, in any letter case. *)
Definition texto_nan (t : string) : bool :=
  String.eqb (Str.lower (Float.sign t).2) "nan".

Definition is_zero (x : Float.float) : bool :=
  match x with S754_zero _ => true | _ => false end.

#[global] Instance date_eq_dec : EqDecision Date.date.
Proof. solve_decision. Defined.

(** A calendar date: a year from 1 to 9999, a month from 1 to 12 and a day
    of that month. *)
Definition data_valida (d : Date.date) : Prop :=
  1 <= Date.year d <= 9999 /\ 1 <= Date.month d <= 12
  /\ 1 <= Date.day d <= Date.days_in_month (Date.year d) (Date.month d).

(** The seven standard fields. *)
Inductive Campo :=
| Cdata | Cprecip | Cmaxima | Cminima | Ctemp_media | Cum_relativa | Cvel_vento.

(** The column of a field in a column map. *)
Definition coluna (c : Campo) (mapa : Mapa) : string :=
  match c with
  | Cdata => col_data mapa
  | Cprecip => col_precip mapa
  | Cmaxima => col_maxima mapa
  | Cminima => col_minima mapa
  | Ctemp_media => col_temp_media mapa
  | Cum_relativa => col_um_relativa mapa
  | Cvel_vento => col_vel_vento mapa
  end.

(** All the prefixes that [_mapear_colunas] tries for a field, the fallback
    [max] or [min] included. *)
Definition prefixos_de (c : Campo) : list string :=
  match c with
  | Cdata => ["data"]
  | Cprecip => ["precip"; "precipit"]
  | Cmaxima => ["maxima"; "tmax"; "temp_max"; "max"]
  | Cminima => ["minima"; "tmin"; "temp_min"; "min"]
  | Ctemp_media => prefixos_temp_media
  | Cum_relativa => ["um_relativa"; "umidade"; "ur"]
  | Cvel_vento => ["vel"; "vento"; "vel_vento"; "velocidade"]
  end.

(** The column name that stands for a field that no header matches. *)
Definition coluna_padrao (c : Campo) : string :=
  match c with
  | Cmaxima => "maxima"
  | Cminima => "minima"
  | _ => ""
  end.

(** The value of a numeric field in a record; the date is not one. *)
Definition valor (c : Campo) (reg : Registro) : option Float.float :=
  match c with
  | Cdata => None
  | Cprecip => precip reg
  | Cmaxima => maxima reg
  | Cminima => minima reg
  | Ctemp_media => temp_media reg
  | Cum_relativa => um_relativa reg
  | Cvel_vento => vel_vento reg
  end.

(** No header starts with a prefix of the field. *)
Definition sem_coluna (c : Campo) (header : list string) : Prop :=
  forall p h, p ∈ prefixos_de c -> h ∈ header -> casa p h = false.

(** An entry that [ler_int] accepts: an integer within the bounds. *)
Definition aceita (minimo maximo : option Z) (linha : string) : Prop :=
  exists v, py_int (Str.strip linha) = Some v
            /\ abaixo minimo v = false /\ acima maximo v = false.

(** The keys of a list, each once, in the order in which they first
    occur. *)
Definition primeiras_ocorrencias {K : Type} `{EqDecision K} (ks : list K)
  : list K :=
  reverse (remove_dups (reverse ks)).

(** *** The grammar of numbers

    The texts that [float] reads, stated on the text itself: a decimal
    literal, with underscores between digits, or one of the words [inf],
    [infinity] and [nan]. *)

(** [s] does not begin with a character that [p] accepts. *)
Definition nao_comeca (p : ascii -> bool) (s : string) : Prop :=
  match s with
  | String c _ => p c = false
  | EmptyString => True
  end.

Definition e_sinal (c : ascii) : bool := Ascii.eqb c "-" || Ascii.eqb c "+".

(** A text of decimal digits only. *)
Fixpoint so_digitos (s : string) : bool :=
  match s with
  | EmptyString => true
  | String c s' => Str.is_digit c && so_digitos s'
  end.

(** The number that a text of digits writes in base ten. *)
Fixpoint valor_digitos (s : string) : Z :=
  match s with
  | EmptyString => 0
  | String c s' =>
      Str.digit_val c * 10 ^ Z.of_nat (String.length s') + valor_digitos s'
  end.

(** The sign in front of a number: none, [+] or [-]. *)
Inductive sinal : string -> bool -> Prop :=
| sinal_nenhum : sinal "" false
| sinal_mais : sinal "+" false
| sinal_menos : sinal "-" true.

(** The fraction of a literal: none, or a point and digits. *)
Inductive fracao : string -> string -> Prop :=
| fracao_nenhuma : fracao "" ""
| fracao_ponto fp : so_digitos fp = true -> fracao (String "." fp) fp.

(** The exponent of a literal: none, or the letter [e], a sign and at least
    one digit. *)
Inductive expoente : string -> Z -> Prop :=
| expoente_nenhum : expoente "" 0
| expoente_e c sg neg ds :
    c = "e"%char \/ c = "E"%char -> sinal sg neg ->
    so_digitos ds = true -> ds <> "" ->
    expoente (String c (sg +:+ ds))
      (if neg then - valor_digitos ds else valor_digitos ds).

(** A decimal literal. *)
Inductive literal : string -> bool -> Z -> Z -> Prop :=
| literal_decimal sg neg ip fr fp ex ev :
    sinal sg neg -> so_digitos ip = true -> fracao fr fp ->
    ip +:+ fp <> "" -> expoente ex ev ->
    literal (sg +:+ ip +:+ fr +:+ ex) neg
      (valor_digitos (ip +:+ fp)) (ev - Z.of_nat (String.length fp)).

(** [com_sublinhados t u]: [t] is [u] with underscores put between
    digits, one at a time. *)
Inductive com_sublinhados : string -> string -> Prop :=
| cs_vazio : com_sublinhados "" ""
| cs_car c t u :
    c <> "_"%char -> com_sublinhados t u ->
    com_sublinhados (String c t) (String c u)
| cs_sub d1 d2 t u :
    Str.is_digit d1 = true -> Str.is_digit d2 = true ->
    com_sublinhados (String d2 t) (String d2 u) ->
    com_sublinhados (String d1 (String "_" (String d2 t)))
      (String d1 (String d2 u)).

Definition texto_inf (t : string) : bool :=
  let w := Str.lower (Float.sign t).2 in
  String.eqb w "inf" || String.eqb w "infinity".

Inductive denota (t : string) : Float.float -> Prop :=
| denota_literal u neg m e :
    com_sublinhados t u -> literal u neg m e ->
    denota t (Float.of_decimal neg m e)
| denota_inf :
    texto_inf t = true -> denota t (S754_infinity (Float.sign t).1)
| denota_nan : texto_nan t = true -> denota t S754_nan.

(** *** Overflow *)

(** The least magnitude that rounds to an infinity in binary64: half way
    between the largest finite number and [2 ^ 1024]. *)
Definition limiar : Z := 2 ^ 1024 - 2 ^ 970.

(** The magnitude [m * 10 ^ e] of a literal reaches [limiar]. *)
Definition transborda (m e : Z) : bool :=
  if 0 <=? e then limiar <=? m * 10 ^ e else limiar * 10 ^ (- e) <=? m.

(** The texts that do not give a finite number, with what they give: NaN
    for [nan], an infinity for [inf] and [infinity], and the infinity of
    its sign for a decimal literal that reaches [limiar]. *)
Inductive nao_finito (t : string) : Float.float -> Prop :=
| nao_finito_nan : texto_nan t = true -> nao_finito t S754_nan
| nao_finito_inf :
    texto_inf t = true -> nao_finito t (S754_infinity (Float.sign t).1)
| nao_finito_transborda u neg m e :
    com_sublinhados t u -> literal u neg m e -> transborda m e = true ->
    nao_finito t (S754_infinity neg).

(** The text that [_to_float] hands to [float]. *)
Definition texto_limpo (s : string) : string :=
  Str.replace "," "." (Str.strip s).

(** What is known of a mantissa [m0] after [k] shifts to the right. *)
Definition desloc (m0 k : Z) (r : shr_record) : Prop :=
  0 <= shr_m r
  /\ shr_m r * 2 ^ k <= m0 < (shr_m r + 1) * 2 ^ k
  /\ (1 <= k -> shr_r r = true -> shr_m r * 2 ^ k + 2 ^ (k - 1) <= m0)
  /\ (1 <= k -> shr_r r = false -> m0 < shr_m r * 2 ^ k + 2 ^ (k - 1)).


(** The text of [n] times the character [c]. *)
Fixpoint repetir (n : nat) (c : ascii) : string :=
  match n with
  | O => EmptyString
  | S n' => String c (repetir n' c)
  end.

(** ** The order of binary64 values

    Every value that is not NaN gets a rank in [Z * Z * Z], and the
    comparisons of [SpecFloat] are the lexicographic comparisons of ranks. *)

Module FloatOrder.

Definition rank (x : Float.float) : Z * Z * Z :=
  match x with
  | S754_nan => (0, 0, 0)
  | S754_zero _ => (0, 0, 0)
  | S754_infinity s => (if s then -2 else 2, 0, 0)
  | S754_finite s m e =>
      if s then (-1, - e, Zneg m) else (1, e, Zpos m)
  end.

Definition lex_cmp (a b : Z * Z * Z) : comparison :=
  match a.1.1 ?= b.1.1 with
  | Eq => match a.1.2 ?= b.1.2 with
          | Eq => a.2 ?= b.2
          | c => c
          end
  | c => c
  end.

Definition lex_lt (a b : Z * Z * Z) : Prop :=
  a.1.1 < b.1.1
  \/ (a.1.1 = b.1.1 /\ (a.1.2 < b.1.2 \/ (a.1.2 = b.1.2 /\ a.2 < b.2))).

End FloatOrder.

(** ** Sample records *)

(** A record with a precipitation cell only. *)
Definition registro_chuva (y m d : Z) (p : option Float.float) : Registro :=
  {| data := Date.Build y m d; precip := p; maxima := None; minima := None;
     temp_media := None; um_relativa := None; vel_vento := None |}.

(** January 2010 with 10.0, no value and 5.5; February 2010 with 3.0. *)
Definition chuvas_2010 : list Registro :=
  [registro_chuva 2010 1 1 (Some (Float.of_int 10));
   registro_chuva 2010 1 2 None;
   registro_chuva 2010 1 3 (Some (Float.of_decimal false 55 (-1)));
   registro_chuva 2010 2 1 (Some (Float.of_int 3))].

(** January 2010 read from the cell [nan]; February 2010 with 3.0. *)
Definition chuvas_nan : list Registro :=
  [registro_chuva 2010 1 1 (_to_float (Some "nan"));
   registro_chuva 2010 2 1 (_to_float (Some "3.0"))].

(** January and February 2010 with 5.0 each. *)
Definition chuvas_empate : list Registro :=
  [registro_chuva 2010 1 1 (Some (Float.of_int 5));
   registro_chuva 2010 2 1 (Some (Float.of_int 5))].

(** March 2011 with 0.0 and with no value. *)
Definition chuvas_zero : list Registro :=
  [registro_chuva 2011 3 1 (Some Float.zero);
   registro_chuva 2011 3 2 None].

(** A record with a minimum-temperature cell only. *)
Definition registro_minima (y m d : Z) (v : option Float.float) : Registro :=
  {| data := Date.Build y m d; precip := None; maxima := None; minima := v;
     temp_media := None; um_relativa := None; vel_vento := None |}.

(** July 2006 with the minima 10.0 and 12.0, July 2007 with no value, and
    July 2005, outside the window, with 8.0. *)
Definition minimas_julho : list Registro :=
  [registro_minima 2006 7 1 (Some (Float.of_int 10));
   registro_minima 2007 7 1 None;
   registro_minima 2005 7 1 (Some (Float.of_int 8));
   registro_minima 2006 7 2 (Some (Float.of_int 12))].

(** The header [data, precip, maxima, minima] and its column map. *)
Definition cabecalho_basico : list string :=
  ["data"; "precip"; "maxima"; "minima"].

Definition mapa_basico : Mapa :=
  {| col_data := "data"; col_precip := "precip"; col_maxima := "maxima";
     col_minima := "minima"; col_temp_media := ""; col_um_relativa := "";
     col_vel_vento := "" |}.

(** A row with the date 31/13/2000, which is not a date. *)
Definition linha_data_invalida : Linha :=
  DictReader_linha cabecalho_basico ["31/13/2000"; "1.0"; "2"; "3"].

(** A row with a date, a malformed precipitation, a maximum written with a
    comma and a blank minimum. *)
Definition linha_mista : Linha :=
  DictReader_linha cabecalho_basico ["01/01/2000"; "x"; "25,0"; ""].

(** A row with a date and the cells [nan], [inf] and [1e999]. *)
Definition linha_nan : Linha :=
  DictReader_linha cabecalho_basico ["02/01/2000"; "nan"; "inf"; "1e999"].

Definition arquivo_basico : Leitor :=
  {| fieldnames := Some cabecalho_basico;
     linhas := [linha_data_invalida; linha_mista] |}.

(** A file with the two mandatory columns only. *)
Definition arquivo_minimo : Leitor :=
  {| fieldnames := Some ["data"; "precip"];
     linhas := [DictReader_linha ["data"; "precip"] ["01/01/2000"; "1,5"]] |}.

Definition arquivo_nan : Leitor :=
  {| fieldnames := Some cabecalho_basico; linhas := [linha_nan] |}.

(** ** Facts on the order of binary64 values *)

Module FloatOrderFacts.
Import FloatOrder.

Lemma compare_rank x y :
  Float.is_nan x = false -> Float.is_nan y = false ->
  SFcompare x y = Some (lex_cmp (rank x) (rank y)).
Proof.
  destruct x as [sx|sx| |sx mx ex], y as [sy|sy| |sy my ey];
    try discriminate; intros _ _; unfold lex_cmp; simpl;
    try (destruct sx); try (destruct sy); simpl; try reflexivity.
  rewrite Z.compare_opp, (Z.compare_antisym ex ey).
  destruct (ex ?= ey); reflexivity.
Qed.

Lemma compare_nan_l y : SFcompare S754_nan y = None.
Proof. reflexivity. Qed.

Lemma compare_nan_r x : SFcompare x S754_nan = None.
Proof. destruct x; reflexivity. Qed.

Lemma lex_cmp_Lt a b : lex_cmp a b = Lt <-> lex_lt a b.
Proof.
  unfold lex_cmp, lex_lt.
  destruct (Z.compare_spec a.1.1 b.1.1), (Z.compare_spec a.1.2 b.1.2),
    (Z.compare_spec a.2 b.2); split; intros; try discriminate;
    try reflexivity; lia.
Qed.

Lemma lex_cmp_Eq a b : lex_cmp a b = Eq <-> a = b.
Proof.
  unfold lex_cmp. destruct a as [[a1 a2] a3], b as [[b1 b2] b3]; simpl.
  destruct (Z.compare_spec a1 b1), (Z.compare_spec a2 b2),
    (Z.compare_spec a3 b3); split; intros H'; try discriminate;
    try (inversion H'; lia); subst; reflexivity.
Qed.

Lemma lex_cmp_Gt a b : lex_cmp a b = Gt <-> lex_lt b a.
Proof.
  unfold lex_cmp, lex_lt.
  destruct (Z.compare_spec a.1.1 b.1.1), (Z.compare_spec a.1.2 b.1.2),
    (Z.compare_spec a.2 b.2); split; intros; try discriminate;
    try reflexivity; lia.
Qed.

Lemma gt_spec x y :
  Float.is_nan x = false -> Float.is_nan y = false ->
  Float.gt x y = true <-> lex_lt (rank y) (rank x).
Proof.
  intros Hx Hy. unfold Float.gt, SFltb. rewrite (compare_rank y x Hy Hx).
  rewrite <- lex_cmp_Lt. destruct (lex_cmp (rank y) (rank x)); split;
    intros; try discriminate; reflexivity.
Qed.

Lemma ge_spec x y :
  Float.is_nan x = false -> Float.is_nan y = false ->
  Float.ge x y = true <-> ~ lex_lt (rank x) (rank y).
Proof.
  intros Hx Hy. unfold Float.ge, SFleb. rewrite (compare_rank y x Hy Hx).
  rewrite <- lex_cmp_Gt. destruct (lex_cmp (rank y) (rank x)); split;
    intros; try discriminate; try reflexivity; try congruence.
Qed.

Lemma eq_spec x y :
  Float.is_nan x = false -> Float.is_nan y = false ->
  Float.eq x y = true <-> rank x = rank y.
Proof.
  intros Hx Hy. unfold Float.eq, SFeqb. rewrite (compare_rank x y Hx Hy).
  rewrite <- lex_cmp_Eq. destruct (lex_cmp (rank x) (rank y)); split;
    intros; try discriminate; reflexivity.
Qed.

Lemma gt_nan_l y : Float.gt S754_nan y = false.
Proof. unfold Float.gt, SFltb. rewrite compare_nan_r. reflexivity. Qed.

Lemma gt_nan_r x : Float.gt x S754_nan = false.
Proof. reflexivity. Qed.

Lemma ge_not_nan x y :
  Float.ge x y = true -> Float.is_nan x = false /\ Float.is_nan y = false.
Proof.
  unfold Float.ge, SFleb. destruct x, y; simpl; try discriminate; auto.
Qed.

Lemma gt_not_nan x y :
  Float.gt x y = true -> Float.is_nan x = false /\ Float.is_nan y = false.
Proof.
  unfold Float.gt, SFltb. destruct x, y; simpl; try discriminate; auto.
Qed.

Lemma eq_not_nan x y :
  Float.eq x y = true -> Float.is_nan x = false /\ Float.is_nan y = false.
Proof.
  unfold Float.eq, SFeqb. destruct x, y; simpl; try discriminate; auto.
Qed.

End FloatOrderFacts.

(** ** Facts on dictionaries in insertion order *)

Module DictFacts.
Section DictFacts.
Context {K V : Type} `{EqDecision K}.
Implicit Types (d : Dict.t (K := K) (V := V)) (k : K) (v : V).

Lemma keys_set k v d :
  (Dict.set k v d).*1 = if decide (k ∈ d.*1) then d.*1 else d.*1 ++ [k].
Proof.
  induction d as [|[k' v'] d IH]; csimpl.
  - reflexivity.
  - destruct (decide (k = k')) as [->|Hne]; csimpl.
    + rewrite decide_True by apply list_elem_of_here. reflexivity.
    + rewrite IH. destruct (decide (k ∈ d.*1)) as [Hin|Hnin].
      * rewrite decide_True by (apply list_elem_of_further, Hin). reflexivity.
      * rewrite decide_False; [reflexivity|].
        rewrite elem_of_cons. intros [?|?]; contradiction.
Qed.

Lemma NoDup_set k v d : NoDup d.*1 -> NoDup (Dict.set k v d).*1.
Proof.
  intros Hd. rewrite keys_set. destruct (decide (k ∈ d.*1)); [exact Hd|].
  apply NoDup_app. split; [exact Hd|]. split.
  - intros x Hx Hx'. apply list_elem_of_singleton in Hx'. subst. contradiction.
  - apply NoDup_singleton.
Qed.

Lemma elem_of_keys k v d : (k, v) ∈ d -> k ∈ d.*1.
Proof. intros H'. apply (list_elem_of_fmap_2 fst) in H'. exact H'. Qed.

Lemma elem_of_set k0 v0 k v d :
  NoDup d.*1 ->
  (k, v) ∈ Dict.set k0 v0 d <->
  (k = k0 /\ v = v0) \/ (k <> k0 /\ (k, v) ∈ d).
Proof.
  induction d as [|[k' v'] d IH]; csimpl; intros Hd.
  - rewrite list_elem_of_singleton. split.
    + intros [= -> ->]. left. done.
    + intros [[-> ->]|[_ Hin]]; [done|]. inversion Hin.
  - apply NoDup_cons in Hd as [Hk' Hd].
    destruct (decide (k0 = k')) as [->|Hne].
    + rewrite !elem_of_cons. split.
      * intros [[= -> ->]|Hin]; [left; done|].
        right. split; [|right; exact Hin].
        intros ->. apply Hk'. eapply elem_of_keys, Hin.
      * intros [[-> ->]|[Hne [[= -> ->]|Hin]]]; [left; done|done|right; done].
    + rewrite !elem_of_cons, (IH Hd). split.
      * intros [[= -> ->]|[[-> ->]|[Hne' Hin]]].
        -- right. split; [congruence|left; done].
        -- left. done.
        -- right. split; [done|right; done].
      * intros [[-> ->]|[Hne' [[= -> ->]|Hin]]].
        -- right. left. done.
        -- left. done.
        -- right. right. done.
Qed.

Lemma get_elem_of k v dflt d :
  NoDup d.*1 -> (k, v) ∈ d -> Dict.get k dflt d = v.
Proof.
  induction d as [|[k' v'] d IH]; csimpl; intros Hd Hin.
  - inversion Hin.
  - apply NoDup_cons in Hd as [Hk' Hd].
    apply elem_of_cons in Hin as [[= -> ->]|Hin].
    + rewrite decide_True by reflexivity. reflexivity.
    + rewrite decide_False; [apply IH; assumption|].
      intros ->. apply Hk'. eapply elem_of_keys, Hin.
Qed.

Lemma get_not_elem_of k dflt d : k ∉ d.*1 -> Dict.get k dflt d = dflt.
Proof.
  induction d as [|[k' v'] d IH]; csimpl; intros Hnin; [reflexivity|].
  apply not_elem_of_cons in Hnin as [Hne Hnin].
  rewrite decide_False by exact Hne. apply IH, Hnin.
Qed.

Lemma elem_of_keys_inv k d : k ∈ d.*1 -> exists v, (k, v) ∈ d.
Proof.
  intros Hin. apply list_elem_of_fmap in Hin as [[k' v] [-> Hin]].
  exists v. exact Hin.
Qed.
End DictFacts.
End DictFacts.

(** ** Facts on [max] *)

Section MaxFacts.
Context {A : Type} (key : A -> Float.float).
Import FloatOrder FloatOrderFacts.

Lemma max_from_elem_of (l : list A) (cur : A) :
  max_from key cur l ∈ cur :: l.
Proof.
  revert cur. induction l as [|x l IH]; intros cur; simpl.
  - apply list_elem_of_here.
  - specialize (IH (if Float.gt (key x) (key cur) then x else cur)).
    apply elem_of_cons in IH as [->|IH].
    + destruct (Float.gt (key x) (key cur)).
      * apply list_elem_of_further, list_elem_of_here.
      * apply list_elem_of_here.
    + do 2 apply list_elem_of_further. exact IH.
Qed.

(** Without NaN among the keys, the result is at least every item. *)
Lemma max_from_ge (l : list A) (cur : A) :
  (forall x, x ∈ cur :: l -> Float.is_nan (key x) = false) ->
  forall x, x ∈ cur :: l -> Float.ge (key (max_from key cur l)) (key x) = true.
Proof.
  revert cur. induction l as [|y l IH]; intros cur Hnan x Hx; simpl.
  - apply list_elem_of_singleton in Hx as ->.
    apply ge_spec; try (apply Hnan, list_elem_of_here).
    unfold lex_lt. lia.
  - assert (Hc : Float.is_nan (key cur) = false)
      by apply Hnan, list_elem_of_here.
    assert (Hy : Float.is_nan (key y) = false)
      by apply Hnan, list_elem_of_further, list_elem_of_here.
    assert (Hxn : Float.is_nan (key x) = false) by apply Hnan, Hx.
    set (cur' := if Float.gt (key y) (key cur) then y else cur).
    assert (Hnan' : forall z, z ∈ cur' :: l -> Float.is_nan (key z) = false).
    { intros z Hz. apply elem_of_cons in Hz as [->|Hz].
      - subst cur'. destruct (Float.gt (key y) (key cur)); assumption.
      - apply Hnan. do 2 apply list_elem_of_further. exact Hz. }
    assert (Hr : Float.is_nan (key (max_from key cur' l)) = false)
      by apply Hnan', max_from_elem_of.
    assert (Hcur' : Float.ge (key (max_from key cur' l)) (key cur') = true)
      by (apply IH; [exact Hnan'|apply list_elem_of_here]).
    assert (Hc' : Float.is_nan (key cur') = false)
      by apply Hnan', list_elem_of_here.
    assert (Hstep : ~ lex_lt (rank (key cur')) (rank (key cur))
                    /\ ~ lex_lt (rank (key cur')) (rank (key y))).
    { subst cur'. destruct (Float.gt (key y) (key cur)) eqn:Hgt.
      - apply gt_spec in Hgt; [|assumption..].
        revert Hgt. unfold lex_lt. lia.
      - assert (Hn : ~ lex_lt (rank (key cur)) (rank (key y))).
        { intros Hlt. apply gt_spec in Hlt; [|assumption..]. congruence. }
        revert Hn. unfold lex_lt. lia. }
    apply ge_spec in Hcur'; [|assumption..].
    apply elem_of_cons in Hx as [->|Hx];
      [|apply elem_of_cons in Hx as [->|Hx]].
    + apply ge_spec; [assumption..|].
      revert Hcur' Hstep. unfold lex_lt. lia.
    + apply ge_spec; [assumption..|].
      revert Hcur' Hstep. unfold lex_lt. lia.
    + apply IH; [exact Hnan'|]. apply list_elem_of_further, Hx.
Qed.

Lemma max_from_keep (l : list A) (x : A) :
  (forall y, y ∈ l -> Float.gt (key y) (key x) = false) ->
  max_from key x l = x.
Proof.
  induction l as [|y l IH]; intros Hl; simpl; [reflexivity|].
  rewrite (Hl y) by apply list_elem_of_here.
  apply IH. intros z Hz. apply Hl, list_elem_of_further, Hz.
Qed.

Lemma max_from_reach (l1 l2 : list A) (cur x : A) :
  (forall y, y ∈ cur :: l1 -> Float.gt (key x) (key y) = true) ->
  max_from key cur (l1 ++ x :: l2) = max_from key x l2.
Proof.
  revert cur. induction l1 as [|y l1 IH]; intros cur Hl; simpl.
  - rewrite (Hl cur) by apply list_elem_of_here. reflexivity.
  - apply IH. intros z Hz. apply elem_of_cons in Hz as [->|Hz].
    + destruct (Float.gt (key y) (key cur)); apply Hl.
      * apply list_elem_of_further, list_elem_of_here.
      * apply list_elem_of_here.
    + apply Hl. do 2 apply list_elem_of_further. exact Hz.
Qed.

(** The first item whose key is at least every key is the result. *)
Lemma py_max_first (l1 l2 : list A) (x : A) :
  (forall y, y ∈ l1 ++ x :: l2 -> Float.ge (key x) (key y) = true) ->
  (forall y, y ∈ l1 -> Float.eq (key y) (key x) = false) ->
  py_max key (l1 ++ x :: l2) = Some x.
Proof.
  intros Hge Hne.
  assert (Hx : Float.is_nan (key x) = false).
  { apply (ge_not_nan (key x) (key x)), Hge.
    apply elem_of_app. right. apply list_elem_of_here. }
  assert (Hl2 : forall y, y ∈ l2 -> Float.gt (key y) (key x) = false).
  { intros y Hy.
    assert (Hxy : Float.ge (key x) (key y) = true).
    { apply Hge, elem_of_app. right. apply list_elem_of_further, Hy. }
    destruct (ge_not_nan _ _ Hxy) as [_ Hyn].
    apply ge_spec in Hxy; [|assumption..].
    destruct (Float.gt (key y) (key x)) eqn:Hgt; [|reflexivity].
    apply gt_spec in Hgt; [|assumption..]. contradiction. }
  assert (Hl1 : forall y, y ∈ l1 -> Float.gt (key x) (key y) = true).
  { intros y Hy.
    assert (Hxy : Float.ge (key x) (key y) = true).
    { apply Hge, elem_of_app. left. exact Hy. }
    destruct (ge_not_nan _ _ Hxy) as [_ Hyn].
    apply ge_spec in Hxy; [|assumption..].
    apply gt_spec; [assumption..|].
    assert (Hneq : rank (key y) <> rank (key x)).
    { intros Heq. apply eq_spec in Heq; [|assumption..].
      rewrite (Hne y Hy) in Heq. discriminate. }
    destruct (rank (key y)) as [[a1 a2] a3], (rank (key x)) as [[b1 b2] b3].
    revert Hxy. unfold lex_lt. simpl.
    assert (a1 <> b1 \/ a2 <> b2 \/ a3 <> b3)
      by (destruct (decide (a1 = b1)), (decide (a2 = b2)),
            (decide (a3 = b3)); subst; auto; congruence).
    lia. }
  destruct l1 as [|c l1]; simpl.
  - f_equal. apply max_from_keep, Hl2.
  - f_equal. rewrite max_from_reach; [apply max_from_keep, Hl2|].
    exact Hl1.
Qed.
End MaxFacts.

(** ** The grouping of [mes_mais_chuvoso] *)

Section SomaPorMes.
Import DictFacts.

Lemma chuvas_snoc rs r k :
  chuvas (rs ++ [r]) k =
  chuvas rs k ++ (if decide (chave_de r = k) then option_list (precip r) else []).
Proof.
  unfold chuvas. rewrite filter_app, omap_app. f_equal.
  rewrite filter_cons, filter_nil.
  destruct (decide (chave_de r = k)); [|reflexivity].
  csimpl. destruct (precip r); reflexivity.
Qed.

Lemma soma_por_mes_snoc rs r :
  soma_por_mes (rs ++ [r]) = acumular (soma_por_mes rs) r.
Proof. unfold soma_por_mes. apply foldl_snoc. Qed.

Lemma sum_snoc l x : Float.sum (l ++ [x]) = Float.add (Float.sum l) x.
Proof. unfold Float.sum. apply foldl_snoc. Qed.

(** The dictionary has one entry for each (year, month) with a present
    precipitation value, and the entry holds the sum of these values in
    the order of the records. *)
Lemma soma_por_mes_spec rs :
  NoDup (soma_por_mes rs).*1
  /\ forall k v, (k, v) ∈ soma_por_mes rs <->
                 chuvas rs k <> [] /\ v = Float.sum (chuvas rs k).
Proof.
  induction rs as [|r rs [IHnd IH]] using rev_ind.
  - split; [apply NoDup_nil; done|]. intros k v. split.
    + intros Hin. inversion Hin.
    + intros [Hne _]. contradiction.
  - rewrite soma_por_mes_snoc. unfold acumular.
    destruct (precip r) as [p|] eqn:Hp.
    + assert (Hget : Dict.get (chave_de r) Float.zero (soma_por_mes rs)
                     = Float.sum (chuvas rs (chave_de r))).
      { destruct (chuvas rs (chave_de r)) as [|c cs] eqn:Hc.
        - apply get_not_elem_of. intros Hin.
          apply elem_of_keys_inv in Hin as [v Hin].
          apply IH in Hin as [Hne _]. congruence.
        - apply get_elem_of; [exact IHnd|]. apply IH.
          rewrite Hc. split; [discriminate|reflexivity]. }
      split; [apply NoDup_set, IHnd|].
      intros k v. rewrite (elem_of_set _ _ _ _ _ IHnd), chuvas_snoc, Hget, IH.
      destruct (decide (chave_de r = k)) as [<-|Hne]; rewrite ?Hp; csimpl.
      * rewrite sum_snoc. split.
        -- intros [[_ ->]|[Hne _]]; [|done].
           split; [|reflexivity]. intros Hnil.
           apply app_eq_nil in Hnil as [_ Hnil]. discriminate.
        -- intros [_ ->]. left. done.
      * rewrite app_nil_r. split.
        -- intros [[-> _]|[_ Hin]]; [done|exact Hin].
        -- intros Hin. right. split; [congruence|exact Hin].
    + split; [exact IHnd|]. intros k v. rewrite chuvas_snoc, IH.
      destruct (decide (chave_de r = k)); rewrite ?Hp; csimpl;
        rewrite app_nil_r; reflexivity.
Qed.

Lemma chuvas_nonempty rs r :
  r ∈ rs -> is_Some (precip r) -> chuvas rs (chave_de r) <> [].
Proof.
  intros Hin [p Hp] Hnil.
  assert (Hel : p ∈ chuvas rs (chave_de r)).
  { unfold chuvas. apply list_elem_of_omap. exists r. split; [|exact Hp].
    apply list_elem_of_filter. done. }
  rewrite Hnil in Hel. inversion Hel.
Qed.

Lemma soma_por_mes_nonempty rs r :
  r ∈ rs -> is_Some (precip r) -> soma_por_mes rs <> [].
Proof.
  intros Hin Hp Hnil.
  pose proof (chuvas_nonempty rs r Hin Hp) as Hne.
  destruct (soma_por_mes_spec rs) as [_ Hspec].
  assert (Hel : (chave_de r, Float.sum (chuvas rs (chave_de r)))
                ∈ soma_por_mes rs) by (apply Hspec; done).
  rewrite Hnil in Hel. inversion Hel.
Qed.

Lemma mes_mais_chuvoso_elem_of rs ano mes total :
  mes_mais_chuvoso rs = Some (ano, mes, total) ->
  ((ano, mes), total) ∈ soma_por_mes rs.
Proof.
  unfold mes_mais_chuvoso, py_max.
  destruct (soma_por_mes rs) as [|kv d]; [discriminate|].
  pose proof (max_from_elem_of snd d kv) as Hin.
  destruct (max_from snd kv d) as [[a m] t]. intros [= -> -> ->]. exact Hin.
Qed.

Lemma sum_zeros l :
  Forall (fun x => is_zero x = true) l -> Float.sum l = Float.zero.
Proof.
  induction l as [|x l IH] using rev_ind; intros Hl; [reflexivity|].
  apply Forall_app in Hl as [Hl Hx]. rewrite sum_snoc, (IH Hl).
  apply Forall_cons in Hx as [Hx _]. destruct x as [[]| | |]; try discriminate;
    reflexivity.
Qed.
End SomaPorMes.

(** ** Rounding never gives NaN *)

Module RoundFacts.

Lemma shr_1_nonneg (mrs : shr_record) : 0 <= shr_m mrs -> 0 <= shr_m (shr_1 mrs).
Proof.
  destruct mrs as [m r s]. simpl.
  destruct m as [|[p|p|]|[p|p|]]; simpl; lia.
Qed.

Lemma iter_pos_nonneg (p : positive) (mrs : shr_record) :
  0 <= shr_m mrs -> 0 <= shr_m (SpecFloat.iter_pos shr_1 p mrs).
Proof.
  revert mrs. induction p as [p IH|p IH|]; intros mrs Hm; simpl.
  - apply IH, IH, shr_1_nonneg, Hm.
  - apply IH, IH, Hm.
  - apply shr_1_nonneg, Hm.
Qed.

Lemma shr_fexp_nonneg (prec emax m e : Z) (l : location) :
  0 <= m -> 0 <= shr_m (shr_fexp prec emax m e l).1.
Proof.
  intros Hm. unfold shr_fexp, shr.
  assert (H0 : 0 <= shr_m (shr_record_of_loc m l))
    by (destruct l as [|[]]; exact Hm).
  destruct (fexp prec emax (Zdigits2 m + e) - e); simpl;
    [exact H0|apply iter_pos_nonneg, H0|exact H0].
Qed.

Lemma round_nearest_even_nonneg (m : Z) (l : location) :
  0 <= m -> 0 <= round_nearest_even m l.
Proof.
  intros Hm. destruct l as [|[]]; simpl; try lia.
  destruct (Z.even m); lia.
Qed.

Lemma binary_round_aux_not_nan (prec emax : Z) (sx : bool) (mx ex : Z)
    (lx : location) :
  0 <= mx -> binary_round_aux prec emax sx mx ex lx <> S754_nan.
Proof.
  intros Hm. unfold binary_round_aux.
  pose proof (shr_fexp_nonneg prec emax mx ex lx Hm) as H1.
  destruct (shr_fexp prec emax mx ex lx) as [mrs' e']. simpl in H1.
  pose proof (shr_fexp_nonneg prec emax
                (round_nearest_even (shr_m mrs') (loc_of_shr_record mrs'))
                e' loc_Exact (round_nearest_even_nonneg _ _ H1)) as H2.
  destruct (shr_fexp prec emax _ e' loc_Exact) as [mrs'' e'']. simpl in H2.
  destruct (shr_m mrs''); [discriminate| |lia].
  destruct (e'' <=? emax - prec); discriminate.
Qed.

Lemma binary_round_not_nan (prec emax : Z) (sx : bool) (mx : positive) (ex : Z) :
  binary_round prec emax sx mx ex <> S754_nan.
Proof.
  unfold binary_round. destruct (shl_align _ _ _) as [mz ez].
  apply binary_round_aux_not_nan. lia.
Qed.

Lemma of_decimal_not_nan (neg : bool) (m e : Z) :
  Float.of_decimal neg m e <> S754_nan.
Proof.
  unfold Float.of_decimal. destruct m as [|p|p]; try discriminate.
  destruct (Z.leb_spec 0 e) as [He|He]; [apply binary_round_not_nan|].
  unfold SFdiv_core_binary.
  set (m' := match _ - _ with Z0 => Z.pos p | Z.pos _ => _ | Z.neg _ => 0 end).
  assert (Hm' : 0 <= m').
  { subst m'. destruct (_ - _); [lia| |lia]. apply Z.shiftl_nonneg. lia. }
  pose proof (Z.div_pos m' (10 ^ (- e))) as Hq.
  unfold Z.div in Hq.
  destruct (Z.div_eucl m' (10 ^ (- e))) as [q r]. simpl in Hq.
  apply binary_round_aux_not_nan. apply Hq; [exact Hm'|].
  apply Z.pow_pos_nonneg; lia.
Qed.

(** Adding a finite value to a value that is not NaN does not give NaN. *)
Lemma add_finite_not_nan (x y : Float.float) :
  Float.is_nan x = false -> Float.is_finite y = true ->
  Float.is_nan (Float.add x y) = false.
Proof.
  intros Hx Hy.
  destruct x as [sx|sx| |sx mx ex], y as [sy|sy| |sy my ey];
    try discriminate; try reflexivity; simpl.
  - destruct sx, sy; reflexivity.
  - unfold binary_normalize.
    destruct (_ + _)%Z; [reflexivity| |];
      match goal with
      | |- Float.is_nan ?b = false =>
          pose proof (binary_round_not_nan Float.prec Float.emax) as Hn;
          destruct b eqn:Hb; try reflexivity; exfalso; eapply Hn; exact Hb
      end.
Qed.

End RoundFacts.

Lemma sum_finite_not_nan (l : list Float.float) :
  Forall (fun x => Float.is_finite x = true) l ->
  Float.is_nan (Float.sum l) = false.
Proof.
  induction l as [|x l IH] using rev_ind; intros Hl; [reflexivity|].
  apply Forall_app in Hl as [Hl Hx]. apply Forall_cons in Hx as [Hx _].
  rewrite sum_snoc. apply RoundFacts.add_finite_not_nan; [apply IH, Hl|exact Hx].
Qed.

(** ** Ties of the maximum *)

Lemma first_match {A : Type} (P : A -> bool) (l : list A) (x : A) :
  x ∈ l -> P x = true ->
  exists l1 y l2, l = l1 ++ y :: l2 /\ P y = true
                  /\ forall z, z ∈ l1 -> P z = false.
Proof.
  induction l as [|a l IH]; intros Hx Hp; [inversion Hx|].
  destruct (P a) eqn:Ha.
  - exists [], a, l. split; [reflexivity|]. split; [exact Ha|].
    intros z Hz. inversion Hz.
  - apply elem_of_cons in Hx as [->|Hx]; [congruence|].
    destruct (IH Hx Hp) as (l1 & y & l2 & -> & Hy & Hl1).
    exists (a :: l1), y, l2. split; [reflexivity|]. split; [exact Hy|].
    intros z Hz. apply elem_of_cons in Hz as [->|Hz]; [exact Ha|apply Hl1, Hz].
Qed.

Lemma eq_ge_trans (y t z : Float.float) :
  Float.eq y t = true -> Float.ge t z = true -> Float.ge y z = true.
Proof.
  intros Hyt Htz.
  destruct (FloatOrderFacts.eq_not_nan _ _ Hyt) as [Hy Ht].
  destruct (FloatOrderFacts.ge_not_nan _ _ Htz) as [_ Hz].
  apply FloatOrderFacts.eq_spec in Hyt; [|assumption..].
  apply FloatOrderFacts.ge_spec in Htz; [|assumption..].
  apply FloatOrderFacts.ge_spec; [assumption..|]. rewrite Hyt. exact Htz.
Qed.

Lemma eq_eq_false (z y t : Float.float) :
  Float.eq y t = true -> Float.eq z t = false -> Float.eq z y = false.
Proof.
  intros Hyt Hzt.
  destruct (FloatOrderFacts.eq_not_nan _ _ Hyt) as [Hy Ht].
  destruct (Float.eq z y) eqn:Hzy; [|reflexivity].
  destruct (FloatOrderFacts.eq_not_nan _ _ Hzy) as [Hz _].
  apply FloatOrderFacts.eq_spec in Hyt, Hzy; [|assumption..].
  assert (Hzt' : Float.eq z t = true)
    by (apply FloatOrderFacts.eq_spec; [assumption..|congruence]).
  congruence.
Qed.

(** Of two groups with equal totals that are the maximum, the one met
    later is never the result. *)
Lemma mes_mais_chuvoso_nunca_o_posterior (registros : list Registro)
    (l1 l2 l3 : list (Chave * Float.float)) (k1 k2 : Chave)
    (t1 t2 : Float.float) :
  soma_por_mes registros = l1 ++ (k1, t1) :: l2 ++ (k2, t2) :: l3 ->
  Float.eq t1 t2 = true ->
  (forall kv, kv ∈ soma_por_mes registros -> Float.ge t2 kv.2 = true) ->
  mes_mais_chuvoso registros <> Some (k2.1, k2.2, t2).
Proof.
  intros Hd Heq Hmax Hres.
  destruct (soma_por_mes_spec registros) as [Hnd _].
  destruct (first_match (fun kv => Float.eq kv.2 t2) (l1 ++ [(k1, t1)])
              (k1, t1)) as (a & y & b & Hab & Hy & Ha).
  { apply elem_of_app. right. apply list_elem_of_here. }
  { exact Heq. }
  assert (Hd' : soma_por_mes registros
                = a ++ y :: (b ++ l2 ++ (k2, t2) :: l3)).
  { rewrite Hd. change ((k1, t1) :: l2 ++ (k2, t2) :: l3)
      with ([(k1, t1)] ++ l2 ++ (k2, t2) :: l3).
    rewrite app_assoc, Hab, <- app_assoc. reflexivity. }
  assert (Hfirst : mes_mais_chuvoso registros = Some (y.1.1, y.1.2, y.2)).
  { unfold mes_mais_chuvoso.
    rewrite Hd', (py_max_first snd a (b ++ l2 ++ (k2, t2) :: l3) y).
    - destruct y as [[ano mes] t]. reflexivity.
    - intros z Hz. rewrite <- Hd' in Hz.
      apply (eq_ge_trans _ t2); [exact Hy|apply Hmax, Hz].
    - intros z Hz. apply (eq_eq_false _ _ t2); [exact Hy|apply Ha, Hz]. }
  rewrite Hfirst in Hres. injection Hres as H1 H2 H3.
  assert (Hyk : y = (k2, t2))
    by (destruct y as [[? ?] ?], k2; simpl in *; congruence).
  rewrite Hd in Hnd.
  change ((k1, t1) :: l2 ++ (k2, t2) :: l3)
    with ([(k1, t1)] ++ l2 ++ (k2, t2) :: l3) in Hnd.
  rewrite app_assoc, fmap_app in Hnd.
  apply NoDup_app in Hnd as (_ & Hdisj & _).
  apply (Hdisj k2).
  - rewrite Hab. apply (list_elem_of_fmap_2' fst _ (k2, t2)); [|reflexivity].
    rewrite <- Hyk. apply elem_of_app. right. apply list_elem_of_here.
  - apply (list_elem_of_fmap_2' fst _ (k2, t2)); [|reflexivity].
    apply elem_of_app. right. apply list_elem_of_here.
Qed.

(** ** Wettest month: the claims *)

(** C2, as amended. For every record list with at least one present
    precipitation value, [mes_mais_chuvoso] returns a triple
    (year, month, total) whose total is the sum of the present precipitation
    values of the records of that (year, month), absent values adding
    nothing; when no group total is NaN, the total is greater than or
    equal to the total of every group; and no group total is NaN when
    every present precipitation value is finite. *)
Theorem C2_mes_mais_chuvoso_total (registros : list Registro) :
  (exists r, r ∈ registros /\ is_Some (precip r)) ->
  exists ano mes total,
    mes_mais_chuvoso registros = Some (ano, mes, total)
    /\ chuvas registros (ano, mes) <> []
    /\ total = Float.sum (chuvas registros (ano, mes))
    /\ ((forall k, chuvas registros k <> [] ->
                   Float.is_nan (Float.sum (chuvas registros k)) = false) ->
        forall k, chuvas registros k <> [] ->
                  Float.ge total (Float.sum (chuvas registros k)) = true)
    /\ ((forall r p, r ∈ registros -> precip r = Some p ->
                     Float.is_finite p = true) ->
        forall k, Float.is_nan (Float.sum (chuvas registros k)) = false).
Proof.
  intros (r & Hin & Hp).
  pose proof (soma_por_mes_nonempty registros r Hin Hp) as Hne.
  destruct (soma_por_mes_spec registros) as [_ Hspec].
  destruct (mes_mais_chuvoso registros) as [[[ano mes] total]|] eqn:Hres.
  - exists ano, mes, total. split; [reflexivity|].
    pose proof (mes_mais_chuvoso_elem_of _ _ _ _ Hres) as Hel.
    apply Hspec in Hel as [Hg Ht]. split; [exact Hg|]. split; [exact Ht|].
    split.
    2: { intros Hfin k. apply sum_finite_not_nan, Forall_forall.
         intros p Hel'. apply list_elem_of_omap in Hel' as (r' & Hr' & Hp').
         apply list_elem_of_filter in Hr' as [_ Hr'].
         apply (Hfin r' p Hr' Hp'). }
    intros Hnan k Hk.
    unfold mes_mais_chuvoso, py_max in Hres.
    destruct (soma_por_mes registros) as [|kv d] eqn:Hd; [done|].
    assert (Hkeys : forall x, x ∈ kv :: d -> Float.is_nan x.2 = false).
    { intros [k' v'] Hx. apply Hspec in Hx as [Hk' ->]. apply Hnan, Hk'. }
    assert (Hk' : (k, Float.sum (chuvas registros k)) ∈ kv :: d)
      by (apply Hspec; done).
    pose proof (max_from_ge snd d kv Hkeys _ Hk') as Hge.
    destruct (max_from snd kv d) as [[a m] t]. simpl in Hge.
    injection Hres as -> -> ->. exact Hge.
  - unfold mes_mais_chuvoso, py_max in Hres.
    destruct (soma_por_mes registros) as [|kv d]; [done|].
    destruct (max_from snd kv d) as [[a m] t]. discriminate.
Qed.

(** Scenario B: January 2010 with 10.0, no value and 5.5 against February
    2010 with 3.0 gives (2010, 1, 15.5). *)
Lemma C2_mes_mais_chuvoso_total_witness :
  mes_mais_chuvoso chuvas_2010
    = Some (2010, 1, Float.of_decimal false 155 (-1))
  /\ exists ano mes total,
      mes_mais_chuvoso chuvas_2010 = Some (ano, mes, total)
      /\ chuvas chuvas_2010 (ano, mes) <> []
      /\ total = Float.sum (chuvas chuvas_2010 (ano, mes))
      /\ ((forall k, chuvas chuvas_2010 k <> [] ->
                     Float.is_nan (Float.sum (chuvas chuvas_2010 k)) = false) ->
          forall k, chuvas chuvas_2010 k <> [] ->
                    Float.ge total (Float.sum (chuvas chuvas_2010 k)) = true)
      /\ ((forall r p, r ∈ chuvas_2010 -> precip r = Some p ->
                       Float.is_finite p = true) ->
          forall k, Float.is_nan (Float.sum (chuvas chuvas_2010 k)) = false).
Proof.
  split; [vm_compute; reflexivity|].
  apply (C2_mes_mais_chuvoso_total chuvas_2010).
  exists (registro_chuva 2010 1 1 (Some (Float.of_int 10))).
  split; [apply list_elem_of_here|]. eexists. reflexivity.
Defined.

(** C2 as stated fails: with January 2010 read from the cell [nan] and
    February 2010 at 3.0, the result is January with a NaN total, which is
    not greater than or equal to the 3.0 of February. *)
Lemma C2_counterexample_nan :
  (exists r, r ∈ chuvas_nan /\ is_Some (precip r))
  /\ mes_mais_chuvoso chuvas_nan = Some (2010, 1, S754_nan)
  /\ chuvas chuvas_nan (2010, 2) = [Float.of_int 3]
  /\ Float.ge S754_nan (Float.sum (chuvas chuvas_nan (2010, 2))) = false.
Proof.
  split.
  { exists (registro_chuva 2010 2 1 (_to_float (Some "3.0"))).
    split; [apply list_elem_of_further, list_elem_of_here|].
    eexists. vm_compute. reflexivity. }
  split; [vm_compute; reflexivity|].
  split; vm_compute; reflexivity.
Qed.

(** C3, as amended. When several (year, month) groups share the maximal
    total, [mes_mais_chuvoso] returns the one that comes first in the
    iteration order of the grouping: the first group whose total is at
    least every total is the result. *)
Theorem C3_empate_primeiro (registros : list Registro)
    (antes depois : list (Chave * Float.float)) (k : Chave) (t : Float.float) :
  soma_por_mes registros = antes ++ (k, t) :: depois ->
  (forall kv, kv ∈ soma_por_mes registros -> Float.ge t kv.2 = true) ->
  (forall kv, kv ∈ antes -> Float.eq kv.2 t = false) ->
  mes_mais_chuvoso registros = Some (k.1, k.2, t).
Proof.
  intros Hd Hge Hne. unfold mes_mais_chuvoso.
  rewrite Hd in Hge |- *.
  rewrite (py_max_first snd antes depois (k, t) Hge Hne).
  destruct k as [ano mes]. reflexivity.
Qed.

(** January and February 2010 with 5.0 each: January, which comes first,
    is returned. *)
Lemma C3_empate_primeiro_witness :
  soma_por_mes chuvas_empate
    = [] ++ ((2010, 1), Float.of_int 5) :: [((2010, 2), Float.of_int 5)]
  /\ mes_mais_chuvoso chuvas_empate = Some (2010, 1, Float.of_int 5).
Proof.
  split; [vm_compute; reflexivity|].
  apply (C3_empate_primeiro chuvas_empate []
           [((2010, 2), Float.of_int 5)] (2010, 1) (Float.of_int 5)).
  - vm_compute. reflexivity.
  - intros kv Hkv.
    assert (Hd : soma_por_mes chuvas_empate
                 = [((2010, 1), Float.of_int 5); ((2010, 2), Float.of_int 5)])
      by (vm_compute; reflexivity).
    rewrite Hd in Hkv.
    apply elem_of_cons in Hkv as [->|Hkv]; [vm_compute; reflexivity|].
    apply elem_of_cons in Hkv as [->|Hkv]; [vm_compute; reflexivity|].
    inversion Hkv.
  - intros kv Hkv. inversion Hkv.
Defined.

(** C3 as stated fails: January and February 2010 both total 5.0, the
    maximum; February is the group met last, and January is returned. And
    no record list has two groups with the same maximal total of which the
    later one is returned. *)
Lemma C3_counterexample_empate :
  soma_por_mes chuvas_empate
    = [((2010, 1), Float.of_int 5); ((2010, 2), Float.of_int 5)]
  /\ Float.eq (Float.of_int 5) (Float.of_int 5) = true
  /\ mes_mais_chuvoso chuvas_empate = Some (2010, 1, Float.of_int 5)
  /\ mes_mais_chuvoso chuvas_empate <> Some (2010, 2, Float.of_int 5)
  /\ ~ exists registros l1 k1 t1 l2 k2 t2 l3,
        soma_por_mes registros = l1 ++ (k1, t1) :: l2 ++ (k2, t2) :: l3
        /\ Float.eq t1 t2 = true
        /\ (forall kv, kv ∈ soma_por_mes registros ->
                       Float.ge t2 kv.2 = true)
        /\ mes_mais_chuvoso registros = Some (k2.1, k2.2, t2).
Proof.
  split; [vm_compute; reflexivity|].
  split; [vm_compute; reflexivity|].
  split; [vm_compute; reflexivity|].
  split; [vm_compute; discriminate|].
  intros (rs & l1 & k1 & t1 & l2 & k2 & t2 & l3 & Hd & Heq & Hmax & Hres).
  exact (mes_mais_chuvoso_nunca_o_posterior rs l1 l2 l3 k1 k2 t1 t2
           Hd Heq Hmax Hres).
Qed.

(** C10. A precipitation of 0.0 is an observation: a (year, month) with a
    present value whose present values are all zero is in the grouping with
    total 0.0, and when this holds of every record with a value,
    [mes_mais_chuvoso] succeeds and returns the total 0.0. *)
Theorem C10_zero_conta (registros : list Registro) (k : Chave) :
  (exists r, r ∈ registros /\ chave_de r = k /\ is_Some (precip r)) ->
  (forall r p, r ∈ registros -> chave_de r = k -> precip r = Some p ->
               is_zero p = true) ->
  (k, Float.zero) ∈ soma_por_mes registros
  /\ ((forall r p, r ∈ registros -> precip r = Some p -> is_zero p = true) ->
      exists ano mes,
        mes_mais_chuvoso registros = Some (ano, mes, Float.zero)).
Proof.
  intros (r & Hin & Hk & Hp) Hz.
  destruct (soma_por_mes_spec registros) as [_ Hspec].
  assert (Hzeros : forall k', (forall r p, r ∈ registros -> chave_de r = k' ->
                                 precip r = Some p -> is_zero p = true) ->
                   Float.sum (chuvas registros k') = Float.zero).
  { intros k' Hk'. apply sum_zeros. apply Forall_forall. intros p Hel.
    apply list_elem_of_omap in Hel as (r' & Hr' & Hp').
    apply list_elem_of_filter in Hr' as [Hc Hr']. eapply Hk'; eassumption. }
  split.
  - apply Hspec. split.
    + subst k. apply chuvas_nonempty; assumption.
    + symmetry. apply Hzeros, Hz.
  - intros Hall.
    pose proof (soma_por_mes_nonempty registros r Hin Hp) as Hne.
    destruct (mes_mais_chuvoso registros) as [[[ano mes] total]|] eqn:Hres.
    + exists ano, mes. do 2 f_equal.
      apply mes_mais_chuvoso_elem_of, Hspec in Hres as [_ ->].
      apply Hzeros. intros r' p Hr' _. apply Hall, Hr'.
    + unfold mes_mais_chuvoso, py_max in Hres.
      destruct (soma_por_mes registros) as [|kv d]; [done|].
      destruct (max_from snd kv d) as [[a m] t]. discriminate.
Qed.

(** March 2011 with the values 0.0 and none: the month is in the grouping
    with total 0.0 and is the wettest month, total 0.0. *)
Lemma C10_zero_conta_witness :
  ((2011, 3), Float.zero) ∈ soma_por_mes chuvas_zero
  /\ mes_mais_chuvoso chuvas_zero = Some (2011, 3, Float.zero).
Proof.
  assert (Hex : exists r, r ∈ chuvas_zero /\ chave_de r = (2011, 3)
                          /\ is_Some (precip r)).
  { exists (registro_chuva 2011 3 1 (Some Float.zero)).
    split; [apply list_elem_of_here|]. split; [reflexivity|].
    eexists. reflexivity. }
  assert (Hz : forall r p, r ∈ chuvas_zero -> precip r = Some p ->
                           is_zero p = true).
  { intros r p Hr Hp. unfold chuvas_zero in Hr.
    apply elem_of_cons in Hr as [->|Hr]; [injection Hp as <-; reflexivity|].
    apply elem_of_cons in Hr as [->|Hr]; [discriminate|]. inversion Hr. }
  destruct (C10_zero_conta chuvas_zero (2011, 3) Hex
              (fun r p Hr _ Hp => Hz r p Hr Hp)) as [Hin Hmax].
  split; [exact Hin|]. vm_compute. reflexivity.
Defined.

(** ** Facts on the stable sort *)

Section SortFacts.
Context {A K : Type} (key : A -> K) (lt : K -> K -> bool).
Context (le : K -> K -> Prop).
Hypothesis le_trans : forall a b c, le a b -> le b c -> le a c.
Hypothesis lt_false : forall a b, lt a b = false -> le b a.
Hypothesis lt_true : forall a b, lt a b = true -> le a b.

Let le_key (a b : A) : Prop := le (key a) (key b).

Lemma sort_insert_perm (x : A) (l : list A) :
  sort_insert key lt x l ≡ₚ x :: l.
Proof.
  induction l as [|y l IH]; simpl; [reflexivity|].
  destruct (lt (key y) (key x)); [|reflexivity].
  rewrite IH. apply Permutation_swap.
Qed.

Lemma sort_by_key_perm (l : list A) : sort_by_key key lt l ≡ₚ l.
Proof.
  induction l as [|x l IH]; simpl; [reflexivity|].
  rewrite sort_insert_perm, IH. reflexivity.
Qed.

Lemma sort_insert_sorted (x : A) (l : list A) :
  StronglySorted le_key l -> StronglySorted le_key (sort_insert key lt x l).
Proof.
  induction l as [|y l IH]; simpl; intros Hs.
  - apply SSorted_cons; [apply SSorted_nil|apply Forall_nil; done].
  - apply StronglySorted_inv in Hs as [Hl Hy].
    destruct (lt (key y) (key x)) eqn:Hlt.
    + apply SSorted_cons; [apply IH, Hl|].
      rewrite sort_insert_perm. apply Forall_cons. split; [|exact Hy].
      apply lt_true, Hlt.
    + apply SSorted_cons; [apply SSorted_cons; assumption|].
      apply Forall_cons. split; [apply lt_false, Hlt|].
      eapply Forall_impl; [exact Hy|]. intros z Hz.
      eapply le_trans; [apply lt_false, Hlt|exact Hz].
Qed.

Lemma sort_by_key_sorted (l : list A) :
  StronglySorted le_key (sort_by_key key lt l).
Proof.
  induction l as [|x l IH]; simpl; [apply SSorted_nil|].
  apply sort_insert_sorted, IH.
Qed.
End SortFacts.

(** ** Interval filter: the claim *)

Lemma tuple_le_spec (a b : Z * Z) : tuple_le a b = true <-> par_le a b.
Proof.
  unfold tuple_le, par_le.
  destruct (Z.eqb_spec a.1 b.1), (Z.eqb_spec a.2 b.2); simpl;
    rewrite ?Z.leb_le; lia.
Qed.

Lemma dentro_periodo_spec (r : Registro) (mes_ini ano_ini mes_fim ano_fim : Z) :
  dentro_periodo (data r) mes_ini ano_ini mes_fim ano_fim = true
  <-> no_periodo mes_ini ano_ini mes_fim ano_fim r.
Proof.
  unfold dentro_periodo, no_periodo.
  rewrite andb_true_iff, !tuple_le_spec. reflexivity.
Qed.

Lemma data_le_trans (a b c : Date.date) :
  data_le a b -> data_le b c -> data_le a c.
Proof. unfold data_le. lia. Qed.

Lemma date_lt_false (a b : Date.date) : Date.lt a b = false -> data_le b a.
Proof.
  unfold Date.lt, data_le.
  destruct (Z.eqb_spec (Date.year a) (Date.year b)),
    (Z.eqb_spec (Date.month a) (Date.month b)); simpl;
    rewrite Z.ltb_ge; lia.
Qed.

Lemma date_lt_true (a b : Date.date) : Date.lt a b = true -> data_le a b.
Proof.
  unfold Date.lt, data_le.
  destruct (Z.eqb_spec (Date.year a) (Date.year b)),
    (Z.eqb_spec (Date.month a) (Date.month b)); simpl;
    rewrite Z.ltb_lt; lia.
Qed.

(** C1. The interval filter returns exactly the records whose (year, month)
    lies between (ano_ini, mes_ini) and (ano_fim, mes_fim) in the
    lexicographic order of pairs, each as often as it occurs in the input,
    and the output is in ascending order of date whatever the order of the
    input. *)
Theorem C1_filtrar_por_intervalo (registros : list Registro)
    (mes_ini ano_ini mes_fim ano_fim : Z) :
  filtrar_por_intervalo registros mes_ini ano_ini mes_fim ano_fim
    ≡ₚ filter (no_periodo mes_ini ano_ini mes_fim ano_fim) registros
  /\ (forall r,
        r ∈ filtrar_por_intervalo registros mes_ini ano_ini mes_fim ano_fim
        <-> r ∈ registros /\ no_periodo mes_ini ano_ini mes_fim ano_fim r)
  /\ StronglySorted (fun a b => data_le (data a) (data b))
       (filtrar_por_intervalo registros mes_ini ano_ini mes_fim ano_fim).
Proof.
  assert (Hperm :
    filtrar_por_intervalo registros mes_ini ano_ini mes_fim ano_fim
      ≡ₚ filter (no_periodo mes_ini ano_ini mes_fim ano_fim) registros).
  { unfold filtrar_por_intervalo. rewrite sort_by_key_perm.
    induction registros as [|r rs IH]; [reflexivity|].
    rewrite filter_cons. simpl.
    destruct (dentro_periodo (data r) mes_ini ano_ini mes_fim ano_fim) eqn:Hd.
    - apply dentro_periodo_spec in Hd.
      rewrite decide_True by exact Hd. rewrite IH. reflexivity.
    - rewrite decide_False; [exact IH|].
      intros Hn. apply dentro_periodo_spec in Hn. congruence. }
  split; [exact Hperm|]. split.
  - intros r. rewrite Hperm, list_elem_of_filter. tauto.
  - unfold filtrar_por_intervalo.
    apply (sort_by_key_sorted data Date.lt data_le);
      [apply data_le_trans|apply date_lt_false|apply date_lt_true].
Qed.

(** ** Yearly means of the minimum temperature: the claim *)

Lemma vals_iniciais_lookup (y : Z) :
  vals_iniciais !! y = if decide (2006 <= y <= 2016) then Some [] else None.
Proof.
  destruct (decide (2006 <= y <= 2016)) as [Hy|Hy].
  - assert (Hcases : y = 2006 \/ y = 2007 \/ y = 2008 \/ y = 2009 \/ y = 2010
                     \/ y = 2011 \/ y = 2012 \/ y = 2013 \/ y = 2014
                     \/ y = 2015 \/ y = 2016) by lia.
    repeat (destruct Hcases as [->|Hcases]; [vm_compute; reflexivity|]).
    subst y. vm_compute. reflexivity.
  - apply not_elem_of_list_to_map_1. unfold vals_iniciais.
    rewrite <- list_fmap_compose. intros Hin.
    apply list_elem_of_fmap in Hin as (z & -> & Hz).
    apply elem_of_seqZ in Hz. simpl in Hy. lia.
Qed.

Lemma minimas_de_snoc (rs : list Registro) (r : Registro) (y m : Z) :
  minimas_de (rs ++ [r]) y m =
  minimas_de rs y m
  ++ (if decide (Date.year (data r) = y /\ Date.month (data r) = m)
      then option_list (minima r) else []).
Proof.
  unfold minimas_de. rewrite filter_app, omap_app. f_equal.
  rewrite filter_cons, filter_nil.
  destruct (decide (Date.year (data r) = y /\ Date.month (data r) = m));
    [|reflexivity].
  csimpl. destruct (minima r); reflexivity.
Qed.

(** After the loop, [vals] holds for each year of the window the present
    minima of the month, in the order of the records. *)
Lemma vals_lookup (rs : list Registro) (mes y : Z) :
  foldl (juntar mes) vals_iniciais rs !! y =
  if decide (2006 <= y <= 2016) then Some (minimas_de rs y mes) else None.
Proof.
  induction rs as [|r rs IH] using rev_ind.
  - simpl. rewrite vals_iniciais_lookup.
    destruct (decide (2006 <= y <= 2016)); reflexivity.
  - rewrite foldl_snoc, minimas_de_snoc. unfold juntar at 1.
    set (vals := foldl (juntar mes) vals_iniciais rs) in *.
    destruct (vals !! Date.year (data r)) as [lista|] eqn:Hl.
    + destruct (Z.eqb_spec (Date.month (data r)) mes) as [Hm|Hm].
      * destruct (minima r) as [v|] eqn:Hv.
        -- destruct (decide (Date.year (data r) = y)) as [Hy|Hy].
           ++ rewrite Hy, lookup_insert_eq.
              rewrite Hy, IH in Hl.
              destruct (decide (2006 <= y <= 2016)); [|discriminate].
              injection Hl as <-.
              rewrite (decide_True (P := _ = y /\ _)) by done. reflexivity.
           ++ rewrite lookup_insert_ne by exact Hy. rewrite IH.
              rewrite (decide_False (P := Date.year (data r) = y /\ _)) by tauto.
              rewrite app_nil_r. reflexivity.
        -- rewrite IH.
           destruct (decide (Date.year (data r) = y /\ _)); simpl;
             rewrite app_nil_r; reflexivity.
      * rewrite IH. rewrite (decide_False (P := Date.year (data r) = y /\ _)) by tauto.
        rewrite app_nil_r. reflexivity.
    + rewrite IH.
      destruct (decide (Date.year (data r) = y /\ Date.month (data r) = mes))
        as [[Hy Hm]|Hn]; [|rewrite app_nil_r; reflexivity].
      rewrite Hy, IH in Hl.
      destruct (decide (2006 <= y <= 2016)); [discriminate|reflexivity].
Qed.

Lemma minimas_de_nonempty (rs : list Registro) (y m : Z) :
  minimas_de rs y m <> [] <->
  exists r, r ∈ rs /\ Date.year (data r) = y /\ Date.month (data r) = m
            /\ is_Some (minima r).
Proof.
  unfold minimas_de. split.
  - intros Hne.
    destruct (omap minima (filter _ rs)) as [|v l] eqn:Hl; [done|].
    assert (Hv : v ∈ omap minima
                   (filter (fun r => Date.year (data r) = y
                                     /\ Date.month (data r) = m) rs))
      by (rewrite Hl; apply list_elem_of_here).
    apply list_elem_of_omap in Hv as (r & Hr & Hv).
    apply list_elem_of_filter in Hr as [[Hy Hm] Hr].
    exists r. rewrite Hv. eauto.
  - intros (r & Hr & Hy & Hm & [v Hv]) Hnil.
    assert (Hel : v ∈ omap minima
                    (filter (fun r => Date.year (data r) = y
                                      /\ Date.month (data r) = m) rs)).
    { apply list_elem_of_omap. exists r. split; [|exact Hv].
      apply list_elem_of_filter. done. }
    rewrite Hnil in Hel. inversion Hel.
Qed.

(** C5. For a month in 1..12 the result has a key [y] exactly when [y] is
    in 2006..2016 and some record of year [y] and that month has a minimum
    temperature, and the value at [y] is the mean, sum over count, of these
    minimum temperatures. *)
Theorem C5_medias_minimas (registros : list Registro) (mes : Z) :
  1 <= mes <= 12 ->
  exists medias,
    medias_minimas_mes_2006_2016 registros mes = Some medias
    /\ (forall y,
          is_Some (medias !! y) <->
          2006 <= y <= 2016
          /\ exists r, r ∈ registros /\ Date.year (data r) = y
                       /\ Date.month (data r) = mes /\ is_Some (minima r))
    /\ (forall y v,
          medias !! y = Some v ->
          v = Float.div (Float.sum (minimas_de registros y mes))
                (Float.of_int (Z.of_nat (length (minimas_de registros y mes))))).
Proof.
  intros Hmes. unfold medias_minimas_mes_2006_2016.
  assert (Hb : negb ((1 <=? mes) && (mes <=? 12)) = false).
  { apply negb_false_iff, andb_true_iff. rewrite !Z.leb_le. exact Hmes. }
  rewrite Hb. eexists. split; [reflexivity|].
  split.
  - intros y. rewrite lookup_omap, vals_lookup, <- minimas_de_nonempty.
    destruct (decide (2006 <= y <= 2016)) as [Hy|Hy]; simpl.
    + destruct (minimas_de registros y mes) as [|v l]; split.
      * intros [? ?]. discriminate.
      * intros [_ Hne]. done.
      * intros _. split; [exact Hy|discriminate].
      * intros _. eexists. reflexivity.
    + split; [intros [? ?]; discriminate|tauto].
  - intros y v. rewrite lookup_omap, vals_lookup.
    destruct (decide (2006 <= y <= 2016)); simpl; [|discriminate].
    destruct (minimas_de registros y mes) as [|v0 l]; [discriminate|].
    intros [= <-]. reflexivity.
Qed.

(** Scenario C: the minima 10.0 and 12.0 of July 2006 give the mean 11.0
    at 2006; 2007 (no value) and 2005 (outside the window) are not keys. *)
Lemma C5_medias_minimas_witness :
  medias_minimas_mes_2006_2016 minimas_julho 7
    = Some {[ 2006 := Float.of_int 11 ]}
  /\ exists medias,
      medias_minimas_mes_2006_2016 minimas_julho 7 = Some medias
      /\ (forall y,
            is_Some (medias !! y) <->
            2006 <= y <= 2016
            /\ exists r, r ∈ minimas_julho /\ Date.year (data r) = y
                         /\ Date.month (data r) = 7 /\ is_Some (minima r))
      /\ (forall y v,
            medias !! y = Some v ->
            v = Float.div (Float.sum (minimas_de minimas_julho y 7))
                  (Float.of_int
                     (Z.of_nat (length (minimas_de minimas_julho y 7))))).
Proof.
  split; [vm_compute; reflexivity|].
  apply (C5_medias_minimas minimas_julho 7). lia.
Defined.

(** ** Header resolution: the claim *)

Lemma find_no_match {A : Type} (f : A -> bool) (l : list A) :
  (forall x, x ∈ l -> f x = false) -> List.find f l = None.
Proof.
  induction l as [|y l IH]; intros Hl; simpl; [reflexivity|].
  rewrite (Hl y) by apply list_elem_of_here.
  apply IH. intros x Hx. apply Hl, list_elem_of_further, Hx.
Qed.

Lemma find_match {A : Type} (f : A -> bool) (l : list A) (x : A) :
  x ∈ l -> f x = true ->
  exists y, List.find f l = Some y /\ f y = true /\ y ∈ l.
Proof.
  induction l as [|z l IH]; intros Hx Hf; [inversion Hx|]. simpl.
  destruct (f z) eqn:Hz.
  - exists z. split; [reflexivity|]. split; [exact Hz|apply list_elem_of_here].
  - apply elem_of_cons in Hx as [->|Hx]; [congruence|].
    destruct (IH Hx Hf) as (y & Hy & Hfy & Hin).
    exists y. split; [exact Hy|]. split; [exact Hfy|].
    apply list_elem_of_further, Hin.
Qed.

Lemma achar_no_match (header prefixos : list string) :
  (forall pref h, pref ∈ prefixos -> h ∈ header -> casa pref h = false) ->
  achar header prefixos = None.
Proof.
  induction prefixos as [|pref rest IH]; intros Hno; simpl; [reflexivity|].
  rewrite find_no_match.
  - apply IH. intros p h Hp Hh. apply Hno; [apply list_elem_of_further, Hp|exact Hh].
  - intros h Hh. apply Hno; [apply list_elem_of_here|exact Hh].
Qed.

Lemma achar_match (header prefixos : list string) (pref h : string) :
  pref ∈ prefixos -> h ∈ header -> casa pref h = true ->
  exists h' pref',
    achar header prefixos = Some h' /\ pref' ∈ prefixos /\ casa pref' h' = true.
Proof.
  induction prefixos as [|p rest IH]; intros Hp Hh Hc; [inversion Hp|]. simpl.
  destruct (List.find (casa p) header) as [h0|] eqn:Hfind.
  - apply find_some in Hfind as [_ Hc0].
    exists h0, p. split; [reflexivity|]. split; [apply list_elem_of_here|exact Hc0].
  - apply elem_of_cons in Hp as [->|Hp].
    + destruct (find_match (casa p) header h Hh Hc) as (y & Hy & _).
      congruence.
    + destruct (IH Hp Hh Hc) as (h' & pref' & Ha & Hin & Hc').
      exists h', pref'. split; [exact Ha|].
      split; [apply list_elem_of_further, Hin|exact Hc'].
Qed.

(** A header that starts with a non-empty prefix is not the empty string. *)
Lemma casa_truthy (pref h : string) :
  pref <> EmptyString -> casa pref h = true -> truthy (Some h) = true.
Proof.
  intros Hp Hc. destruct h as [|c h]; [|reflexivity].
  destruct pref as [|cp pref]; [done|]. discriminate.
Qed.

Lemma prefixos_nao_vazios (pref : string) :
  pref ∈ ["data"; "precip"; "precipit"] -> pref <> EmptyString.
Proof.
  intros Hin.
  repeat (apply elem_of_cons in Hin as [->|Hin]; [discriminate|]).
  inversion Hin.
Qed.

(** C8. When no header starts with [data] the resolution fails with the
    error of the date column; when one does and none starts with [precip]
    or [precipit] it fails with the error of the precipitation column; when
    both columns are found it succeeds, whatever the other headers are; and
    a failure of the resolution is the result of the loader. *)
Theorem C8_colunas_obrigatorias (header : list string) :
  ((forall h, h ∈ header -> casa "data" h = false) ->
   _mapear_colunas header = inl Falta_data)
  /\ ((exists h, h ∈ header /\ casa "data" h = true) ->
      (forall h, h ∈ header ->
                 casa "precip" h = false /\ casa "precipit" h = false) ->
      _mapear_colunas header = inl Falta_precip)
  /\ ((exists h, h ∈ header /\ casa "data" h = true) ->
      (exists h, h ∈ header
                 /\ (casa "precip" h = true \/ casa "precipit" h = true)) ->
      exists mapa, _mapear_colunas header = inr mapa)
  /\ (forall rows e,
        _mapear_colunas header = inl e ->
        carregar_dados_csv
          (Some {| fieldnames := Some header; linhas := rows |})
        = inl (ErroChave e)).
Proof.
  assert (Hdata : (exists h, h ∈ header /\ casa "data" h = true) ->
                  truthy (achar header ["data"]) = true).
  { intros (h & Hh & Hc).
    destruct (achar_match header ["data"] "data" h) as (h' & p & -> & Hp & Hc');
      [apply list_elem_of_here|exact Hh|exact Hc|].
    apply (casa_truthy p); [|exact Hc'].
    apply prefixos_nao_vazios. apply list_elem_of_singleton in Hp as ->.
    apply list_elem_of_here. }
  split; [|split; [|split]].
  - intros Hno. unfold _mapear_colunas.
    rewrite achar_no_match; [reflexivity|].
    intros p h Hp Hh. apply list_elem_of_singleton in Hp as ->. apply Hno, Hh.
  - intros Hd Hno. unfold _mapear_colunas. rewrite (Hdata Hd). cbn [negb].
    rewrite (achar_no_match header ["precip"; "precipit"]); [reflexivity|].
    intros p h Hp Hh. destruct (Hno h Hh) as [H1 H2].
    apply elem_of_cons in Hp as [->|Hp]; [exact H1|].
    apply list_elem_of_singleton in Hp as ->. exact H2.
  - intros Hd (h & Hh & Hc). unfold _mapear_colunas. rewrite (Hdata Hd). cbn [negb].
    assert (Hp : truthy (achar header ["precip"; "precipit"]) = true).
    { assert (Hex : exists p, p ∈ ["precip"; "precipit"] /\ casa p h = true).
      { destruct Hc as [Hc|Hc]; eexists; (split; [|exact Hc]).
        - apply list_elem_of_here.
        - apply list_elem_of_further, list_elem_of_here. }
      destruct Hex as (p & Hp & Hcp).
      destruct (achar_match header ["precip"; "precipit"] p h Hp Hh Hcp)
        as (h' & p' & -> & Hp' & Hc').
      apply (casa_truthy p'); [|exact Hc'].
      apply prefixos_nao_vazios, list_elem_of_further, Hp'. }
    rewrite Hp. cbn [negb]. eexists. reflexivity.
  - intros rows e He. unfold carregar_dados_csv. simpl. rewrite He. reflexivity.
Qed.

(** No header at all and a header without precipitation column fail, each
    with its own error, which is the result of the loader; date and
    precipitation alone are enough to succeed. *)
Lemma C8_colunas_obrigatorias_witness :
  _mapear_colunas ["maxima"; "minima"] = inl Falta_data
  /\ _mapear_colunas [" Data "; "maxima"] = inl Falta_precip
  /\ (exists mapa, _mapear_colunas ["DATA"; "Precipitacao"] = inr mapa)
  /\ carregar_dados_csv
       (Some {| fieldnames := Some [" Data "; "maxima"]; linhas := [] |})
     = inl (ErroChave Falta_precip).
Proof.
  split; [|split; [|split]].
  - apply (C8_colunas_obrigatorias ["maxima"; "minima"]).
    intros h Hh.
    repeat (apply elem_of_cons in Hh as [->|Hh]; [reflexivity|]).
    inversion Hh.
  - apply (C8_colunas_obrigatorias [" Data "; "maxima"]).
    + exists " Data ". split; [apply list_elem_of_here|reflexivity].
    + intros h Hh.
      repeat (apply elem_of_cons in Hh as [->|Hh]; [split; reflexivity|]).
      inversion Hh.
  - apply (C8_colunas_obrigatorias ["DATA"; "Precipitacao"]).
    + exists "DATA". split; [apply list_elem_of_here|reflexivity].
    + exists "Precipitacao".
      split; [apply list_elem_of_further, list_elem_of_here|].
      left. reflexivity.
  - apply (C8_colunas_obrigatorias [" Data "; "maxima"]). reflexivity.
Defined.

(** ** Record loader: the claims *)

Lemma carregar_linha_legivel (mapa : Mapa) (lin : Linha) :
  data_legivel mapa lin <-> is_Some (carregar_linha mapa lin).
Proof.
  unfold data_legivel, carregar_linha. split.
  - intros (txt & d & -> & ->). eexists. reflexivity.
  - intros [reg Hreg].
    destruct (lin !! col_data mapa) as [[txt|]|]; try discriminate.
    destruct (parse_data_br txt) as [d|] eqn:Hd; [|discriminate].
    exists txt, d. done.
Qed.

Lemma carregar_linha_data (mapa : Mapa) (lin : Linha) (reg : Registro) :
  carregar_linha mapa lin = Some reg ->
  exists txt, lin !! col_data mapa = Some (Some txt)
              /\ parse_data_br txt = Some (data reg).
Proof.
  unfold carregar_linha.
  destruct (lin !! col_data mapa) as [[txt|]|]; try discriminate.
  destruct (parse_data_br txt) as [d|] eqn:Hd; [|discriminate].
  intros [= <-]. exists txt. done.
Qed.

(** C7. When the header resolves, the loader returns a list of records and
    raises nothing, whatever the date cells are: the rows whose date cell is
    missing or is not a date are skipped, and the records are, in the order
    of the source, those of the rows whose date cell is a date. *)
Theorem C7_linhas_sem_data (leitor : Leitor) (mapa : Mapa) :
  _mapear_colunas (default [] (fieldnames leitor)) = inr mapa ->
  exists regs,
    carregar_dados_csv (Some leitor) = inr regs
    /\ Forall2
         (fun lin reg =>
            carregar_linha mapa lin = Some reg
            /\ exists txt, lin !! col_data mapa = Some (Some txt)
                           /\ parse_data_br txt = Some (data reg))
         (filter (data_legivel mapa) (linhas leitor)) regs.
Proof.
  intros Hmapa. unfold carregar_dados_csv. rewrite Hmapa.
  eexists. split; [reflexivity|].
  induction (linhas leitor) as [|lin rows IH]; [apply Forall2_nil; done|].
  rewrite filter_cons. csimpl.
  destruct (carregar_linha mapa lin) as [reg|] eqn:Hreg.
  - rewrite decide_True
      by (apply carregar_linha_legivel; rewrite Hreg; eexists; reflexivity).
    apply Forall2_cons. split; [|exact IH].
    split; [exact Hreg|]. apply carregar_linha_data, Hreg.
  - rewrite decide_False; [exact IH|].
    intros Hleg. apply carregar_linha_legivel in Hleg as [reg Hreg'].
    congruence.
Qed.

(** Scenario E: of the rows dated 31/13/2000 and 01/01/2000 the first is
    dropped and the loader returns the record of the second. *)
Lemma C7_linhas_sem_data_witness :
  filter (data_legivel mapa_basico) (linhas arquivo_basico) = [linha_mista]
  /\ exists regs,
      carregar_dados_csv (Some arquivo_basico) = inr regs
      /\ Forall2
           (fun lin reg =>
              carregar_linha mapa_basico lin = Some reg
              /\ exists txt, lin !! col_data mapa_basico = Some (Some txt)
                             /\ parse_data_br txt = Some (data reg))
           (filter (data_legivel mapa_basico) (linhas arquivo_basico)) regs.
Proof.
  split; [vm_compute; reflexivity|].
  apply (C7_linhas_sem_data arquivo_basico mapa_basico).
  vm_compute. reflexivity.
Defined.

(** C9. A row whose date cell is a date gives a record, whatever its numeric
    cells are; each numeric field of the record is the coercion of the cell
    of its own column, so that a cell that fails leaves its field absent
    and no other; and two rows that agree on the cell of a column give the
    same value to the field read from it. *)
Theorem C9_campos_independentes (mapa : Mapa) (lin : Linha)
    (txt : string) (d : Date.date) :
  lin !! col_data mapa = Some (Some txt) ->
  parse_data_br txt = Some d ->
  exists reg,
    carregar_linha mapa lin = Some reg
    /\ data reg = d
    /\ precip reg = _to_float (lin_get lin (col_precip mapa))
    /\ maxima reg = campo_opcional lin (col_maxima mapa)
    /\ minima reg = campo_opcional lin (col_minima mapa)
    /\ temp_media reg = campo_opcional lin (col_temp_media mapa)
    /\ um_relativa reg = campo_opcional lin (col_um_relativa mapa)
    /\ vel_vento reg = campo_opcional lin (col_vel_vento mapa)
    /\ forall lin' reg',
         carregar_linha mapa lin' = Some reg' ->
         Forall (fun fc => lin !! fc.2 mapa = lin' !! fc.2 mapa ->
                           fc.1 reg = fc.1 reg') numericos.
Proof.
  intros Hl Hd. unfold carregar_linha. rewrite Hl, Hd.
  eexists. split; [reflexivity|]. simpl.
  do 7 (split; [reflexivity|]).
  intros lin' reg' Hreg'.
  destruct (lin' !! col_data mapa) as [[txt'|]|]; try discriminate.
  destruct (parse_data_br txt') as [d'|]; [|discriminate].
  injection Hreg' as <-. unfold numericos, campo_opcional, lin_get.
  repeat (apply Forall_cons; split; [simpl; intros ->; reflexivity|]).
  apply Forall_nil. done.
Qed.

(** A row dated 01/01/2000 with the precipitation [x], the maximum [25,0]
    and a blank minimum: the record has the maximum 25.0 and no other
    numeric value. *)
Lemma C9_campos_independentes_witness :
  carregar_linha mapa_basico linha_mista
    = Some {| data := Date.Build 2000 1 1; precip := None;
              maxima := Some (Float.of_int 25); minima := None;
              temp_media := None; um_relativa := None; vel_vento := None |}
  /\ exists reg,
      carregar_linha mapa_basico linha_mista = Some reg
      /\ data reg = Date.Build 2000 1 1
      /\ precip reg = _to_float (lin_get linha_mista (col_precip mapa_basico))
      /\ maxima reg = campo_opcional linha_mista (col_maxima mapa_basico)
      /\ minima reg = campo_opcional linha_mista (col_minima mapa_basico)
      /\ temp_media reg = campo_opcional linha_mista (col_temp_media mapa_basico)
      /\ um_relativa reg
         = campo_opcional linha_mista (col_um_relativa mapa_basico)
      /\ vel_vento reg = campo_opcional linha_mista (col_vel_vento mapa_basico)
      /\ forall lin' reg',
           carregar_linha mapa_basico lin' = Some reg' ->
           Forall (fun fc => linha_mista !! fc.2 mapa_basico
                             = lin' !! fc.2 mapa_basico ->
                             fc.1 reg = fc.1 reg') numericos.
Proof.
  split; [vm_compute; reflexivity|].
  apply (C9_campos_independentes mapa_basico linha_mista "01/01/2000").
  - vm_compute. reflexivity.
  - vm_compute. reflexivity.
Defined.

(** ** Facts on [strip] and [replace] *)

Module StrFacts.
Import Str.

Lemma lstrip_all_space (w : string) : all_space w = true -> lstrip w = EmptyString.
Proof.
  induction w as [|c w IH]; simpl; [reflexivity|].
  intros Hw. apply andb_true_iff in Hw as [Hc Hw]. rewrite Hc. apply IH, Hw.
Qed.

Lemma rstrip_all_space (w : string) : all_space w = true -> rstrip w = EmptyString.
Proof.
  induction w as [|c w IH]; simpl; [reflexivity|].
  intros Hw. apply andb_true_iff in Hw as [Hc Hw].
  rewrite (IH Hw), Hc. reflexivity.
Qed.

Lemma lstrip_app (t w : string) :
  lstrip (String.append t w)
  = if all_space t then lstrip w else String.append (lstrip t) w.
Proof.
  induction t as [|c t IH]; simpl; [reflexivity|].
  destruct (is_space c); simpl; [exact IH|reflexivity].
Qed.

Lemma rstrip_app_space (t w : string) :
  all_space w = true -> rstrip (String.append t w) = rstrip t.
Proof.
  intros Hw. induction t as [|c t IH]; simpl.
  - apply rstrip_all_space, Hw.
  - rewrite IH. reflexivity.
Qed.

(** Blanks around a text do not change what [strip] gives. *)
Lemma strip_app_space (ws1 s ws2 : string) :
  all_space ws1 = true -> all_space ws2 = true ->
  strip (String.append ws1 (String.append s ws2)) = strip s.
Proof.
  intros H1 H2. unfold strip. rewrite lstrip_app, H1, lstrip_app.
  destruct (all_space s) eqn:Hs.
  - rewrite (lstrip_all_space _ H2), (lstrip_all_space _ Hs). reflexivity.
  - apply rstrip_app_space, H2.
Qed.

Lemma rstrip_rstrip (t : string) : rstrip (rstrip t) = rstrip t.
Proof.
  induction t as [|c t IH]; simpl; [reflexivity|].
  destruct (rstrip t) as [|c' r] eqn:Hr.
  - destruct (is_space c) eqn:Hc; simpl; [reflexivity|]. rewrite Hc. reflexivity.
  - change (rstrip (String c (String c' r)))
      with (match rstrip (String c' r) with
            | EmptyString =>
                if is_space c then EmptyString else String c EmptyString
            | String c0 r0 => String c (String c0 r0)
            end).
    rewrite IH. reflexivity.
Qed.

(** A text that does not start with a blank keeps its first character under
    [rstrip]. *)
Lemma lstrip_rstrip (t : string) :
  lstrip t = t -> lstrip (rstrip t) = rstrip t.
Proof.
  destruct t as [|c t]; [reflexivity|]. simpl.
  destruct (is_space c) eqn:Hc.
  - intros Hl. exfalso.
    assert (Hlen : forall u,
               (String.length (lstrip u) <= String.length u)%nat).
    { induction u as [|d u IHu]; simpl; [lia|].
      destruct (is_space d); simpl; lia. }
    specialize (Hlen t). rewrite Hl in Hlen. simpl in Hlen. lia.
  - intros _. destruct (rstrip t); simpl; rewrite Hc; reflexivity.
Qed.

Lemma lstrip_lstrip (s : string) : lstrip (lstrip s) = lstrip s.
Proof.
  induction s as [|c s IH]; simpl; [reflexivity|].
  destruct (is_space c) eqn:Hc; [exact IH|]. simpl. rewrite Hc. reflexivity.
Qed.

Lemma strip_strip (s : string) : strip (strip s) = strip s.
Proof.
  unfold strip. rewrite (lstrip_rstrip _ (lstrip_lstrip s)).
  apply rstrip_rstrip.
Qed.

Section Replace.
Variables a b : ascii.
Hypothesis Ha : is_space a = false.
Hypothesis Hb : is_space b = false.

Lemma is_space_replace (c : ascii) :
  is_space (if Ascii.eqb c a then b else c) = is_space c.
Proof.
  destruct (Ascii.eqb_spec c a) as [->|_]; [|reflexivity].
  rewrite Ha, Hb. reflexivity.
Qed.

Lemma lstrip_replace (s : string) :
  lstrip (replace a b s) = replace a b (lstrip s).
Proof.
  induction s as [|c s IH]; simpl; [reflexivity|].
  rewrite is_space_replace. destruct (is_space c); [exact IH|reflexivity].
Qed.

Lemma rstrip_replace (s : string) :
  rstrip (replace a b s) = replace a b (rstrip s).
Proof.
  induction s as [|c s IH]; simpl; [reflexivity|].
  rewrite IH, is_space_replace.
  destruct (rstrip s); simpl; [destruct (is_space c)|]; reflexivity.
Qed.

Lemma strip_replace (s : string) :
  strip (replace a b s) = replace a b (strip s).
Proof. unfold strip. rewrite lstrip_replace. apply rstrip_replace. Qed.

Lemma replace_replace (s : string) :
  a <> b -> replace a b (replace a b s) = replace a b s.
Proof.
  intros Hab. induction s as [|c s IH]; simpl; [reflexivity|].
  rewrite IH. f_equal.
  destruct (Ascii.eqb_spec c a) as [->|Hc].
  - destruct (Ascii.eqb_spec b a) as [Heq|_]; [congruence|reflexivity].
  - destruct (Ascii.eqb_spec c a); [contradiction|reflexivity].
Qed.
End Replace.

End StrFacts.

(** ** Numeric coercion: blanks, the comma and the absent values *)

Lemma is_space_comma : Str.is_space "," = false.
Proof. reflexivity. Qed.

Lemma is_space_period : Str.is_space "." = false.
Proof. reflexivity. Qed.

(** [_to_float] looks at the text only through [strip]. *)
Lemma _to_float_strip (s s' : string) :
  Str.strip s = Str.strip s' -> _to_float (Some s) = _to_float (Some s').
Proof. intros Heq. unfold _to_float. rewrite Heq. reflexivity. Qed.

Lemma _to_float_replace (s : string) :
  _to_float (Some (Str.replace "," "." s)) = _to_float (Some s).
Proof.
  unfold _to_float.
  rewrite (StrFacts.strip_replace _ _ is_space_comma is_space_period).
  rewrite StrFacts.replace_replace by discriminate. reflexivity.
Qed.

Lemma lower_na_sem_virgula (u : string) :
  Str.lower u = "na" -> Str.replace "," "." u = u.
Proof.
  destruct u as [|c1 [|c2 [|c3 u]]]; try discriminate.
  simpl. intros [= H1 H2].
  destruct (Ascii.eqb_spec c1 ",") as [->|_]; [discriminate|].
  destruct (Ascii.eqb_spec c2 ",") as [->|_]; [discriminate|].
  reflexivity.
Qed.

(** ** Facts on the grammar of [float] *)

Module ParseFacts.
Import Float.

Lemma parse_number_not_nan (s r : string) (x : float) :
  parse_number s = Some (x, r) -> x <> S754_nan.
Proof.
  unfold parse_number. destruct (sign s) as [neg s1].
  destruct (digits s1 0 0) as [[mi ni] s2].
  destruct (match s2 with
            | EmptyString => (mi, O, s2)
            | String c s2' =>
                if Ascii.eqb c "." then digits s2' mi 0 else (mi, O, s2)
            end) as [[m nf] s3].
  destruct (ni + nf)%nat; [discriminate|].
  destruct (exponent s3) as [ex s4]. intros [= <- _].
  apply RoundFacts.of_decimal_not_nan.
Qed.

Lemma remove_underscores_after (t s' : string) :
  remove_underscores (Some "_"%char) t = Some s' ->
  exists c r, s' = String c r /\ Str.is_digit c = true.
Proof.
  destruct t as [|c t]; simpl; [discriminate|].
  destruct (Ascii.eqb c "_"); [discriminate|].
  destruct (Str.is_digit c) eqn:Hc; simpl; [|discriminate].
  destruct (remove_underscores (Some c) t) as [r|]; [|discriminate].
  intros [= <-]. exists c, r. done.
Qed.

(** When the text left has no digit, no underscore was removed. *)
Lemma remove_underscores_no_digit (t s' : string) (prev : option ascii) :
  is_underscore prev = false ->
  remove_underscores prev t = Some s' ->
  Str.no_digit s' = true -> t = s'.
Proof.
  revert s' prev. induction t as [|c t IH]; intros s' prev Hprev; simpl.
  - rewrite Hprev. intros [= <-] _. reflexivity.
  - destruct (Ascii.eqb_spec c "_") as [->|Hc].
    + destruct (is_digit_opt prev); [|discriminate].
      intros Hr Hnd. apply remove_underscores_after in Hr as (d & r & -> & Hd).
      simpl in Hnd. rewrite Hd in Hnd. discriminate.
    + rewrite Hprev. simpl.
      destruct (remove_underscores (Some c) t) as [r|] eqn:Hr; [|discriminate].
      intros [= <-] Hnd. simpl in Hnd. apply andb_true_iff in Hnd as [_ Hnd].
      f_equal. apply (IH r (Some c)); [|exact Hr|exact Hnd].
      simpl. destruct (Ascii.eqb_spec c "_"); [contradiction|reflexivity].
Qed.

Lemma lower_char_n (c : ascii) :
  Str.lower_char c = "n"%char -> c = "n"%char \/ c = "N"%char.
Proof.
  destruct c as [[] [] [] [] [] [] [] []]; vm_compute; intros Hc;
    try discriminate Hc; auto.
Qed.

Lemma lower_char_a (c : ascii) :
  Str.lower_char c = "a"%char -> c = "a"%char \/ c = "A"%char.
Proof.
  destruct c as [[] [] [] [] [] [] [] []]; vm_compute; intros Hc;
    try discriminate Hc; auto.
Qed.

Lemma lower_nan_cases (u : string) :
  Str.lower u = "nan" ->
  u = "nan" \/ u = "naN" \/ u = "nAn" \/ u = "nAN"
  \/ u = "Nan" \/ u = "NaN" \/ u = "NAn" \/ u = "NAN".
Proof.
  destruct u as [|c1 [|c2 [|c3 [|c4 u]]]]; try discriminate.
  simpl. intros [= H1 H2 H3].
  apply lower_char_n in H1 as [->| ->], H3 as [->| ->];
    apply lower_char_a in H2 as [->| ->]; tauto.
Qed.

(** The texts that read [nan]: an optional sign and the three letters. *)
Lemma texto_nan_cases (t : string) :
  texto_nan t = true ->
  exists sg u, t = String.append sg u
               /\ (sg = "" \/ sg = "-" \/ sg = "+")
               /\ Str.lower u = "nan".
Proof.
  unfold texto_nan. intros Ht. apply String.eqb_eq in Ht.
  destruct t as [|c t]; [discriminate|].
  unfold sign in Ht.
  destruct (Ascii.eqb_spec c "-") as [->|Hm].
  - exists "-", t. auto.
  - destruct (Ascii.eqb_spec c "+") as [->|Hp].
    + exists "+", t. auto.
    + exists "", (String c t). auto.
Qed.

Lemma texto_nan_plain (t : string) :
  texto_nan t = true ->
  Str.has "." t = false /\ Str.no_digit t = true /\ Str.has "," t = false.
Proof.
  intros Ht. apply texto_nan_cases in Ht as (sg & u & -> & Hsg & Hu).
  apply lower_nan_cases in Hu.
  destruct Hsg as [->|[->| ->]];
    repeat (destruct Hu as [->|Hu]; [vm_compute; auto|]);
    subst u; vm_compute; auto.
Qed.

Lemma replace_without (a b : ascii) (u : string) :
  Str.has b (Str.replace a b u) = false -> Str.replace a b u = u.
Proof.
  induction u as [|c u IH]; simpl; [reflexivity|].
  intros Hh. apply orb_false_iff in Hh as [Hc Hh]. rewrite (IH Hh). f_equal.
  destruct (Ascii.eqb_spec c a) as [->|_]; [|reflexivity].
  rewrite Ascii.eqb_refl in Hc. discriminate.
Qed.

(** What [parse_inf_or_nan] reads as NaN up to the end of the text. *)
Lemma parse_inf_or_nan_nan (s : string) :
  parse_inf_or_nan s = Some (S754_nan, EmptyString) -> texto_nan s = true.
Proof.
  unfold parse_inf_or_nan, texto_nan. destruct (sign s) as [neg s1]. simpl.
  destruct (imatch s1 "inf"); [discriminate|].
  destruct (imatch s1 "nan") eqn:Hm; [|discriminate].
  intros [= Hd]. unfold imatch in Hm.
  destruct s1 as [|c1 [|c2 [|c3 r]]]; simpl in Hm;
    rewrite ?andb_false_r in Hm; try discriminate.
  simpl in Hd. subst r. simpl.
  apply andb_true_iff in Hm as [H1 Hm]. apply andb_true_iff in Hm as [H2 Hm].
  apply andb_true_iff in Hm as [H3 _].
  apply Ascii.eqb_eq in H1, H2, H3. rewrite H1, H2, H3. reflexivity.
Qed.

End ParseFacts.

(** ** [float] and the grammar of numbers *)

Module GrammarFacts.
Import Float.

Lemma str_app_nil_l (s : string) : "" +:+ s = s.
Proof. reflexivity. Qed.

Lemma str_app_cons (c : ascii) (s t : string) :
  String c s +:+ t = String c (s +:+ t).
Proof. reflexivity. Qed.

Lemma str_app_nil_r (s : string) : s +:+ "" = s.
Proof.
  induction s as [|c s IH]; [reflexivity|]. rewrite str_app_cons, IH. reflexivity.
Qed.

Lemma str_app_assoc (a b c : string) : (a +:+ b) +:+ c = a +:+ b +:+ c.
Proof.
  induction a as [|x a IH]; [reflexivity|].
  rewrite !str_app_cons, IH. reflexivity.
Qed.

Lemma str_length_app (a b : string) :
  String.length (a +:+ b) = (String.length a + String.length b)%nat.
Proof.
  induction a as [|x a IH]; [reflexivity|].
  rewrite str_app_cons. simpl. rewrite IH. reflexivity.
Qed.

Lemma valor_app (a b : string) :
  valor_digitos (a +:+ b)
  = valor_digitos a * 10 ^ Z.of_nat (String.length b) + valor_digitos b.
Proof.
  induction a as [|x a IH]; [rewrite str_app_nil_l; simpl; lia|].
  rewrite str_app_cons. cbn [valor_digitos String.length].
  rewrite IH, str_length_app, Nat2Z.inj_add, Z.pow_add_r by lia. lia.
Qed.

(** A digit is none of the other characters of the grammar. *)
Lemma digit_other (c : ascii) :
  Str.is_digit c = true ->
  e_sinal c = false /\ Ascii.eqb c "." = false /\ is_e c = false
  /\ Ascii.eqb c "_" = false /\ Str.lower_char c = c.
Proof.
  destruct c as [[] [] [] [] [] [] [] []]; vm_compute; intros Hc;
    try discriminate Hc; auto.
Qed.

Lemma digits_app (ds rest : string) (acc : Z) (n : nat) :
  so_digitos ds = true -> nao_comeca Str.is_digit rest ->
  digits (ds +:+ rest) acc n
  = (acc * 10 ^ Z.of_nat (String.length ds) + valor_digitos ds,
     (n + String.length ds)%nat, rest).
Proof.
  revert acc n. induction ds as [|c ds IH]; intros acc n Hd Hr.
  - rewrite str_app_nil_l. cbn [String.length valor_digitos].
    replace (acc * 10 ^ Z.of_nat 0 + 0) with acc by (simpl; lia).
    replace (n + 0)%nat with n by lia.
    destruct rest as [|c r]; [reflexivity|]. simpl in Hr |- *.
    rewrite Hr. reflexivity.
  - simpl in Hd. apply andb_true_iff in Hd as [Hc Hd].
    rewrite str_app_cons. cbn [digits]. rewrite Hc, (IH _ _ Hd Hr).
    cbn [String.length valor_digitos].
    rewrite Nat2Z.inj_succ, Z.pow_succ_r by lia.
    f_equal. f_equal; [ring|lia].
Qed.

Lemma digits_inv (s : string) (acc : Z) (n : nat) (v : Z) (n' : nat)
    (rest : string) :
  digits s acc n = (v, n', rest) ->
  exists ds,
    s = ds +:+ rest /\ so_digitos ds = true
    /\ nao_comeca Str.is_digit rest
    /\ v = acc * 10 ^ Z.of_nat (String.length ds) + valor_digitos ds
    /\ n' = (n + String.length ds)%nat.
Proof.
  revert acc n. induction s as [|c s IH]; intros acc n; cbn [digits].
  - intros [= <- <- <-]. exists "". simpl. repeat split; lia.
  - destruct (Str.is_digit c) eqn:Hc.
    + intros H. apply IH in H as (ds & -> & Hds & Hr & -> & ->).
      exists (String c ds). rewrite str_app_cons. cbn [so_digitos]. rewrite Hc.
      repeat split; try assumption.
      * cbn [String.length valor_digitos].
        rewrite Nat2Z.inj_succ, Z.pow_succ_r by lia. lia.
      * simpl. lia.
    + intros [= <- <- <-]. exists "". simpl. rewrite Hc.
      repeat split; lia.
Qed.

Lemma sign_inv (s : string) (neg : bool) (s1 : string) :
  sign s = (neg, s1) -> exists sg, s = sg +:+ s1 /\ sinal sg neg.
Proof.
  unfold sign. destruct s as [|c s].
  - intros [= <- <-]. exists "". split; [reflexivity|constructor].
  - destruct (Ascii.eqb_spec c "-") as [->|_].
    + intros [= <- <-]. exists "-". split; [reflexivity|constructor].
    + destruct (Ascii.eqb_spec c "+") as [->|_]; intros [= <- <-].
      * exists "+". split; [reflexivity|constructor].
      * exists "". split; [reflexivity|constructor].
Qed.

Lemma sign_sinal (sg : string) (neg : bool) (rest : string) :
  sinal sg neg -> nao_comeca e_sinal rest ->
  sign (sg +:+ rest) = (neg, rest).
Proof.
  intros [] Hr; [|reflexivity|reflexivity].
  rewrite str_app_nil_l. destruct rest as [|c r]; [reflexivity|].
  simpl in Hr. unfold e_sinal in Hr. apply orb_false_iff in Hr as [H1 H2].
  unfold sign. rewrite H1, H2. reflexivity.
Qed.

Lemma nao_comeca_digitos (p : ascii -> bool) (ds rest : string) :
  (forall c, Str.is_digit c = true -> p c = false) ->
  so_digitos ds = true -> ds <> "" -> nao_comeca p (ds +:+ rest).
Proof.
  intros Hp Hds Hne. destruct ds as [|c ds]; [done|].
  simpl in Hds. apply andb_true_iff in Hds as [Hc _].
  rewrite str_app_cons. simpl. apply Hp, Hc.
Qed.

Lemma is_e_spec (c : ascii) :
  is_e c = true <-> c = "e"%char \/ c = "E"%char.
Proof.
  unfold is_e. rewrite orb_true_iff, !Ascii.eqb_eq. reflexivity.
Qed.

Lemma exponent_inv (s : string) (ev : Z) :
  exponent s = (ev, "") -> expoente s ev.
Proof.
  unfold exponent. destruct s as [|c s]; [intros [= <-]; constructor|].
  destruct (is_e c) eqn:He; [|discriminate].
  destruct (sign s) as [eneg s1] eqn:Hs.
  destruct (digits s1 0 0) as [[v n] s2] eqn:Hd.
  destruct n as [|n]; [discriminate|]. intros [= <- ->].
  apply sign_inv in Hs as (sg & -> & Hsg).
  apply digits_inv in Hd as (ds & -> & Hds & _ & -> & Hn).
  rewrite str_app_nil_r.
  replace (0 * 10 ^ Z.of_nat (String.length ds) + valor_digitos ds)
    with (valor_digitos ds) by lia.
  constructor; [apply is_e_spec, He|exact Hsg|exact Hds|].
  intros ->. discriminate.
Qed.

Lemma exponent_expoente (ex : string) (ev : Z) :
  expoente ex ev -> exponent ex = (ev, "").
Proof.
  intros [|c sg neg ds Hc Hsg Hds Hne]; [reflexivity|].
  unfold exponent. apply is_e_spec in Hc. rewrite Hc.
  assert (Hsd : nao_comeca e_sinal ds).
  { rewrite <- (str_app_nil_r ds).
    apply nao_comeca_digitos; [|exact Hds|exact Hne].
    intros d Hd. apply digit_other, Hd. }
  rewrite (sign_sinal sg neg ds Hsg Hsd).
  rewrite <- (str_app_nil_r ds) at 1.
  rewrite (digits_app ds "" 0 0 Hds I).
  destruct ds as [|d ds]; [done|]. cbn [String.length Nat.add].
  reflexivity.
Qed.

Lemma literal_parse_number (u : string) (neg : bool) (m e : Z) :
  literal u neg m e -> parse_number u = Some (of_decimal neg m e, "").
Proof.
  intros [sg neg' ip fr fp ex ev Hsg Hip Hfr Hne Hex].
  assert (Hexd : nao_comeca Str.is_digit ex /\ nao_comeca e_sinal ex
                 /\ nao_comeca (fun c => Ascii.eqb c ".") ex).
  { destruct Hex as [|c sg' neg'' ds [-> | ->] _ _ _]; simpl; auto. }
  destruct Hexd as (Hexd & Hexs & Hexp).
  assert (Hfrd : nao_comeca Str.is_digit (fr +:+ ex)
                 /\ (ip = "" -> nao_comeca e_sinal (ip +:+ fr +:+ ex))).
  { destruct Hfr as [|fp Hfp].
    - rewrite str_app_nil_l. split; [exact Hexd|]. intros ->. done.
    - rewrite str_app_cons. split; [reflexivity|]. intros ->. reflexivity. }
  destruct Hfrd as [Hfrd Hfrs].
  assert (Hips : nao_comeca e_sinal (ip +:+ fr +:+ ex)).
  { destruct ip as [|c ip']; [apply Hfrs; reflexivity|].
    apply nao_comeca_digitos; [|exact Hip|discriminate].
    intros d Hd. apply digit_other, Hd. }
  unfold parse_number.
  rewrite (sign_sinal sg neg' _ Hsg Hips).
  rewrite (digits_app ip (fr +:+ ex) 0 0 Hip Hfrd).
  apply exponent_expoente in Hex.
  destruct Hfr as [|fp Hfp].
  - rewrite str_app_nil_l, str_app_nil_r in *.
    assert (Hm : match ex with
                 | "" => (0 * 10 ^ Z.of_nat (String.length ip)
                          + valor_digitos ip, 0%nat, ex)
                 | String c s2' =>
                     if Ascii.eqb c "."
                     then digits s2' (0 * 10 ^ Z.of_nat (String.length ip)
                                      + valor_digitos ip) 0
                     else (0 * 10 ^ Z.of_nat (String.length ip)
                           + valor_digitos ip, 0%nat, ex)
                 end
                 = (valor_digitos ip, 0%nat, ex)).
    { destruct ex as [|c r]; [f_equal; f_equal; lia|].
      simpl in Hexp. rewrite Hexp. f_equal; f_equal; lia. }
    rewrite Hm. destruct ip as [|c ip]; [done|].
    cbn [String.length Nat.add]. rewrite Hex.
    cbv beta match zeta. reflexivity.
  - rewrite str_app_cons. rewrite Ascii.eqb_refl.
    rewrite (digits_app fp ex _ 0 Hfp Hexd).
    assert (Hn : (0 + String.length ip + (0 + String.length fp))%nat
                 = S (pred (String.length (ip +:+ fp)))).
    { rewrite str_length_app. destruct ip, fp; simpl; try lia. done. }
    rewrite Hn, Hex. cbv beta match zeta.
    rewrite valor_app. repeat f_equal; lia.
Qed.

Lemma parse_number_literal (u : string) (x : float) :
  parse_number u = Some (x, "") ->
  exists neg m e, literal u neg m e /\ x = of_decimal neg m e.
Proof.
  unfold parse_number.
  destruct (sign u) as [neg s1] eqn:Hs.
  destruct (digits s1 0 0) as [[mi ni] s2] eqn:Hd.
  apply sign_inv in Hs as (sg & -> & Hsg).
  apply digits_inv in Hd as (ip & -> & Hip & _ & -> & ->).
  replace (0 * 10 ^ Z.of_nat (String.length ip) + valor_digitos ip)
    with (valor_digitos ip) by lia.
  destruct s2 as [|c s2'].
  - destruct (0 + String.length ip + 0)%nat eqn:Hn; [discriminate|].
    simpl. intros [= <-].
    exists neg, (valor_digitos (ip +:+ "")), (0 - Z.of_nat (String.length "")).
    split.
    + apply (literal_decimal sg neg ip "" "" "" 0); try constructor;
        try assumption.
      rewrite str_app_nil_r. intros ->. discriminate.
    + rewrite str_app_nil_r. reflexivity.
  - destruct (Ascii.eqb_spec c ".") as [->|Hc].
    + destruct (digits s2' (valor_digitos ip) 0) as [[m nf] s3] eqn:Hd2.
      apply digits_inv in Hd2 as (fp & -> & Hfp & _ & -> & ->).
      destruct (0 + String.length ip + (0 + String.length fp))%nat eqn:Hn;
        [discriminate|].
      destruct (exponent s3) as [ev s4] eqn:Hex. intros [= <- ->].
      apply exponent_inv in Hex.
      exists neg, (valor_digitos (ip +:+ fp)),
        (ev - Z.of_nat (String.length fp)).
      split.
      * apply (literal_decimal sg neg ip (String "." fp) fp s3 ev);
          try assumption; [constructor; exact Hfp|].
        intros Heq. apply (f_equal String.length) in Heq.
        rewrite str_length_app in Heq. simpl in Heq. lia.
      * rewrite valor_app. f_equal; lia.
    + destruct (0 + String.length ip + 0)%nat eqn:Hn; [discriminate|].
      destruct (exponent (String c s2')) as [ev s4] eqn:Hex.
      intros [= <- ->]. apply exponent_inv in Hex.
      exists neg, (valor_digitos (ip +:+ "")),
        (ev - Z.of_nat (String.length "")).
      split.
      * apply (literal_decimal sg neg ip "" "" (String c s2') ev);
          try constructor; try assumption.
        rewrite str_app_nil_r. intros ->. discriminate.
      * rewrite str_app_nil_r. reflexivity.
Qed.


(** *** Underscores *)

Lemma cs_head (c : ascii) (t u : string) :
  com_sublinhados (String c t) u ->
  c <> "_"%char /\ exists u', u = String c u'.
Proof.
  inversion 1; subst.
  - split; [assumption|eauto].
  - split; [|eauto]. intros ->. discriminate.
Qed.

Lemma is_underscore_Some (c : ascii) :
  is_underscore (Some c) = Ascii.eqb c "_".
Proof. reflexivity. Qed.

(** After an underscore, a digit is read as at the start of the text. *)
Lemma remove_underscores_digit (d : ascii) (t : string) :
  Str.is_digit d = true ->
  remove_underscores (Some "_"%char) (String d t)
  = remove_underscores None (String d t).
Proof.
  intros Hd. destruct (digit_other d Hd) as (_ & _ & _ & Hu & _).
  cbn [remove_underscores is_underscore]. rewrite Hu, Hd. reflexivity.
Qed.

Lemma cs_remove_underscores (t u : string) :
  com_sublinhados t u ->
  forall prev, is_underscore prev = false ->
               remove_underscores prev t = Some u.
Proof.
  induction 1 as [|c t u Hc _ IH|d1 d2 t u Hd1 Hd2 _ IH]; intros prev Hp.
  - simpl. rewrite Hp. reflexivity.
  - cbn [remove_underscores].
    destruct (Ascii.eqb_spec c "_") as [|_]; [contradiction|].
    rewrite Hp. cbn [andb]. rewrite IH; [reflexivity|].
    rewrite is_underscore_Some. apply Ascii.eqb_neq, Hc.
  - destruct (digit_other d1 Hd1) as (_ & _ & _ & Hu1 & _).
    destruct (digit_other d2 Hd2) as (_ & _ & _ & Hu2 & _).
    specialize (IH None eq_refl).
    cbn [remove_underscores] in IH |- *.
    rewrite Hu1, Hp, Hu2 in *. cbn [andb is_underscore] in IH |- *.
    cbn [is_digit_opt]. rewrite Hd1, Ascii.eqb_refl, Hd2. cbn [negb andb].
    destruct (remove_underscores (Some d2) t) as [r|]; [|discriminate].
    injection IH as <-. reflexivity.
Qed.

Lemma remove_underscores_cs (t u : string) (prev : option ascii) :
  is_underscore prev = false ->
  remove_underscores prev t = Some u ->
  match t with
  | String c t1 =>
      if Ascii.eqb c "_"
      then is_digit_opt prev = true /\ com_sublinhados t1 u
           /\ exists d t2, t1 = String d t2 /\ Str.is_digit d = true
      else com_sublinhados t u
  | EmptyString => com_sublinhados t u
  end.
Proof.
  revert u prev. induction t as [|c t IH]; intros u prev Hp.
  - simpl. rewrite Hp. intros [= <-]. constructor.
  - cbn [remove_underscores]. destruct (Ascii.eqb_spec c "_") as [->|Hc].
    + destruct (is_digit_opt prev); [|discriminate]. intros Hr.
      split; [reflexivity|].
      destruct t as [|d t2]; [discriminate|].
      assert (Hd : d <> "_"%char /\ Str.is_digit d = true).
      { cbn [remove_underscores] in Hr.
        destruct (Ascii.eqb_spec d "_") as [->|Hd]; [discriminate|].
        split; [exact Hd|]. cbn [is_underscore] in Hr.
        rewrite Ascii.eqb_refl in Hr.
        destruct (Str.is_digit d); [reflexivity|discriminate]. }
      destruct Hd as [Hd Hdd]. split; [|eauto].
      rewrite (remove_underscores_digit d t2 Hdd) in Hr.
      specialize (IH u None eq_refl Hr). simpl in IH.
      destruct (Ascii.eqb_spec d "_"); [contradiction|]. exact IH.
    + rewrite Hp. cbn [andb].
      destruct (remove_underscores (Some c) t) as [u'|] eqn:Hr;
        [|discriminate].
      intros [= <-].
      assert (Hpc : is_underscore (Some c) = false)
        by (rewrite is_underscore_Some; apply Ascii.eqb_neq, Hc).
      specialize (IH u' (Some c) Hpc Hr).
      destruct t as [|c1 t1]; [apply cs_car; assumption|].
      destruct (Ascii.eqb_spec c1 "_") as [->|Hc1];
        [|apply cs_car; assumption].
      destruct IH as (Hdc & Hcs & d & t2 & -> & Hd).
      destruct (cs_head _ _ _ Hcs) as (_ & u'' & ->).
      apply cs_sub; assumption.
Qed.


(** *** The words [inf], [infinity] and [nan] *)

Lemma lower_char_keeps (c : ascii) :
  Str.is_digit (Str.lower_char c) = Str.is_digit c
  /\ Ascii.eqb (Str.lower_char c) "_" = Ascii.eqb c "_"
  /\ Ascii.eqb (Str.lower_char c) "." = Ascii.eqb c ".".
Proof.
  destruct c as [[] [] [] [] [] [] [] []]; vm_compute; auto.
Qed.

Lemma no_digit_lower (s : string) :
  Str.no_digit (Str.lower s) = Str.no_digit s.
Proof.
  induction s as [|c s IH]; [reflexivity|]. simpl.
  destruct (lower_char_keeps c) as (-> & _). rewrite IH. reflexivity.
Qed.

Lemma has_underscore_lower (s : string) :
  Str.has "_" (Str.lower s) = Str.has "_" s.
Proof.
  induction s as [|c s IH]; [reflexivity|]. simpl.
  destruct (lower_char_keeps c) as (_ & -> & _). rewrite IH. reflexivity.
Qed.

(** What [sign] leaves has the digits and the underscores of the text. *)
Lemma sign_keeps (t : string) :
  Str.no_digit t = Str.no_digit (sign t).2
  /\ Str.has "_" t = Str.has "_" (sign t).2.
Proof.
  destruct t as [|c t]; [auto|]. unfold sign.
  destruct (Ascii.eqb_spec c "-") as [->|_]; [auto|].
  destruct (Ascii.eqb_spec c "+") as [->|_]; auto.
Qed.

(** A text whose letters, after the sign, are those of a word without
    digits, points or underscores. *)
Lemma palavra_simples (t w : string) :
  Str.lower (sign t).2 = w -> w <> "" ->
  Str.no_digit w = true -> Str.has "_" w = false -> Str.has "." w = false ->
  parse_number t = None /\ Str.no_digit t = true /\ Str.has "_" t = false.
Proof.
  intros Hw Hne Hnd Hnu Hnp.
  destruct (sign_keeps t) as [-> ->].
  rewrite <- no_digit_lower, <- has_underscore_lower, Hw.
  split; [|auto]. unfold parse_number.
  destruct (sign t) as [neg s1]. simpl in Hw.
  destruct s1 as [|c r]; [subst w; done|]. simpl in Hw. subst w.
  simpl in Hnd, Hnp. apply andb_true_iff in Hnd as [Hd _].
  apply orb_false_iff in Hnp as [Hp _].
  destruct (lower_char_keeps c) as (Hk1 & _ & Hk3).
  rewrite Hk1 in Hd. rewrite Hk3 in Hp. apply negb_true_iff in Hd.
  cbn [digits]. rewrite Hd, Hp. reflexivity.
Qed.

Lemma remove_underscores_none (t : string) (prev : option ascii) :
  Str.has "_" t = false -> is_underscore prev = false ->
  remove_underscores prev t = Some t.
Proof.
  revert prev. induction t as [|c t IH]; intros prev Hh Hp; simpl.
  - rewrite Hp. reflexivity.
  - simpl in Hh. apply orb_false_iff in Hh as [Hc Hh].
    rewrite Hc, Hp. simpl. rewrite IH; [reflexivity|exact Hh|].
    rewrite is_underscore_Some. exact Hc.
Qed.

Lemma texto_inf_cases (t : string) :
  texto_inf t = true <->
  Str.lower (sign t).2 = "inf" \/ Str.lower (sign t).2 = "infinity".
Proof.
  unfold texto_inf. cbv zeta. rewrite orb_true_iff, !String.eqb_eq.
  reflexivity.
Qed.

Lemma texto_nan_iff (t : string) :
  texto_nan t = true <-> Str.lower (sign t).2 = "nan".
Proof. unfold texto_nan. apply String.eqb_eq. Qed.

Lemma lower_length (s : string) :
  String.length (Str.lower s) = String.length s.
Proof. induction s as [|c s IH]; simpl; [|rewrite IH]; reflexivity. Qed.

Lemma texto_inf_parse (t : string) :
  texto_inf t = true ->
  parse_inf_or_nan t = Some (S754_infinity (sign t).1, "").
Proof.
  intros Ht. apply texto_inf_cases in Ht. unfold parse_inf_or_nan.
  destruct (sign t) as [neg s1]. simpl in Ht |- *. unfold imatch.
  destruct Ht as [Ht|Ht].
  - rewrite Ht.
    destruct s1 as [|c1 [|c2 [|c3 [|c4 r]]]]; try discriminate Ht.
    reflexivity.
  - rewrite Ht.
    destruct s1 as [|c1 [|c2 [|c3 [|c4 [|c5 [|c6 [|c7 [|c8 [|c9 r]]]]]]]]];
      try discriminate Ht.
    cbn [drop Str.startswith Ascii.eqb Bool.eqb andb].
    simpl in Ht. injection Ht as _ _ _ H4 H5 H6 H7 H8.
    simpl. rewrite H4, H5, H6, H7, H8. reflexivity.
Qed.

Lemma texto_nan_parse (t : string) :
  texto_nan t = true -> parse_inf_or_nan t = Some (S754_nan, "").
Proof.
  intros Ht. apply texto_nan_iff in Ht. unfold parse_inf_or_nan.
  destruct (sign t) as [neg s1]. simpl in Ht. unfold imatch. rewrite Ht.
  destruct s1 as [|c1 [|c2 [|c3 [|c4 r]]]]; try discriminate Ht.
  reflexivity.
Qed.

Lemma parse_inf_or_nan_inv (s : string) (x : float) :
  parse_inf_or_nan s = Some (x, "") ->
  (texto_inf s = true /\ x = S754_infinity (sign s).1)
  \/ (texto_nan s = true /\ x = S754_nan).
Proof.
  intros Hp. destruct x as [sx|sx| |sx mx ex].
  - unfold parse_inf_or_nan in Hp. destruct (sign s) as [neg s1].
    destruct (imatch s1 "inf"); [discriminate|].
    destruct (imatch s1 "nan"); discriminate.
  - left. unfold parse_inf_or_nan in Hp. rewrite texto_inf_cases.
    destruct (sign s) as [neg s1]. simpl.
    destruct (imatch s1 "inf") eqn:Hm;
      [|destruct (imatch s1 "nan"); discriminate].
    injection Hp as <- Hd. split; [|reflexivity].
    unfold imatch in Hm.
    destruct s1 as [|c1 [|c2 [|c3 r]]]; simpl in Hm;
      rewrite ?andb_false_r in Hm; try discriminate.
    apply andb_true_iff in Hm as [H1 Hm]. apply andb_true_iff in Hm as [H2 Hm].
    apply andb_true_iff in Hm as [H3 _].
    apply Ascii.eqb_eq in H1, H2, H3. simpl. rewrite H1, H2, H3.
    simpl in Hd. destruct (imatch r "inity") eqn:Hm2.
    + right. unfold imatch in Hm2.
      destruct r as [|r1 [|r2 [|r3 [|r4 [|r5 r]]]]]; simpl in Hm2;
        rewrite ?andb_false_r in Hm2; try discriminate.
      simpl in Hd. subst r.
      repeat (apply andb_true_iff in Hm2 as [?H Hm2]).
      repeat match goal with
             | H : Ascii.eqb _ _ = true |- _ => apply Ascii.eqb_eq in H
             end.
      simpl. congruence.
    + left. subst r. reflexivity.
  - right. split; [|reflexivity]. apply ParseFacts.parse_inf_or_nan_nan, Hp.
  - unfold parse_inf_or_nan in Hp. destruct (sign s) as [neg s1].
    destruct (imatch s1 "inf"); [discriminate|].
    destruct (imatch s1 "nan"); discriminate.
Qed.

Lemma texto_inf_simples (t : string) :
  texto_inf t = true ->
  parse_number t = None /\ Str.no_digit t = true /\ Str.has "_" t = false.
Proof.
  intros Ht. apply texto_inf_cases in Ht as [Ht|Ht];
    apply (palavra_simples t _ Ht); done.
Qed.

Lemma texto_nan_simples (t : string) :
  texto_nan t = true ->
  parse_number t = None /\ Str.no_digit t = true /\ Str.has "_" t = false.
Proof.
  intros Ht. apply texto_nan_iff in Ht. apply (palavra_simples t _ Ht); done.
Qed.

(** *** [float] and the grammar *)

Lemma strtod_inv (u : string) (x : float) :
  strtod u = Some (x, "") ->
  (exists neg m e, literal u neg m e /\ x = of_decimal neg m e)
  \/ (texto_inf u = true /\ x = S754_infinity (sign u).1)
  \/ (texto_nan u = true /\ x = S754_nan).
Proof.
  unfold strtod. destruct (parse_number u) as [r|] eqn:Hp.
  - intros [= ->]. left. apply parse_number_literal, Hp.
  - intros Hi. right. apply parse_inf_or_nan_inv, Hi.
Qed.

Lemma of_string_denota (t : string) (x : float) :
  Str.strip t = t -> (of_string t = Some x <-> denota t x).
Proof.
  intros Hstrip. unfold of_string. rewrite Hstrip. split.
  - destruct (remove_underscores None t) as [u|] eqn:Hr; [|discriminate].
    destruct (strtod u) as [[x' r]|] eqn:Hs; [|discriminate].
    destruct r; [|discriminate]. intros [= ->].
    apply strtod_inv in Hs as [(neg & m & e & Hl & ->)|[[Hi ->]|[Hn ->]]].
    + apply (denota_literal t u); [|exact Hl].
      apply (remove_underscores_cs t u None eq_refl) in Hr.
      destruct t as [|c t1]; [exact Hr|].
      destruct (Ascii.eqb c "_"); [|exact Hr].
      destruct Hr as [Hr _]. discriminate.
    + destruct (texto_inf_simples u Hi) as (_ & Hnd & _).
      apply ParseFacts.remove_underscores_no_digit in Hr;
        [|reflexivity|exact Hnd].
      subst u. apply denota_inf, Hi.
    + destruct (texto_nan_simples u Hn) as (_ & Hnd & _).
      apply ParseFacts.remove_underscores_no_digit in Hr;
        [|reflexivity|exact Hnd].
      subst u. apply denota_nan, Hn.
  - intros [u neg m e Hcs Hl|Hi|Hn].
    + rewrite (cs_remove_underscores t u Hcs None eq_refl).
      unfold strtod. rewrite (literal_parse_number u neg m e Hl). reflexivity.
    + destruct (texto_inf_simples t Hi) as (Hp & _ & Hu).
      rewrite (remove_underscores_none t None Hu eq_refl).
      unfold strtod. rewrite Hp, (texto_inf_parse t Hi). reflexivity.
    + destruct (texto_nan_simples t Hn) as (Hp & _ & Hu).
      rewrite (remove_underscores_none t None Hu eq_refl).
      unfold strtod. rewrite Hp, (texto_nan_parse t Hn). reflexivity.
Qed.

End GrammarFacts.

Lemma _to_float_of_string (s : string) :
  _to_float (Some s) = Float.of_string (Str.replace "," "." (Str.strip s)).
Proof.
  unfold _to_float. generalize (Str.replace "," "." (Str.strip s)). intros t.
  destruct (String.eqb_spec t "") as [->|_]; [reflexivity|].
  destruct (String.eqb_spec t "-") as [->|_]; [reflexivity|].
  destruct (String.eqb_spec (Str.lower t) "na") as [Hna|_]; [|reflexivity].
  simpl. destruct t as [|c1 [|c2 [|c3 t]]]; try discriminate Hna.
  simpl in Hna. injection Hna as H1 H2.
  apply ParseFacts.lower_char_n in H1 as [->| ->];
    apply ParseFacts.lower_char_a in H2 as [->| ->]; reflexivity.
Qed.

Lemma strip_texto (s : string) :
  Str.strip (Str.replace "," "." (Str.strip s))
  = Str.replace "," "." (Str.strip s).
Proof.
  rewrite (StrFacts.strip_replace _ _ is_space_comma is_space_period).
  rewrite StrFacts.strip_strip. reflexivity.
Qed.

Lemma _to_float_denota (s : string) (x : Float.float) :
  _to_float (Some s) = Some x
  <-> denota (Str.replace "," "." (Str.strip s)) x.
Proof.
  rewrite _to_float_of_string.
  apply GrammarFacts.of_string_denota, strip_texto.
Qed.

(** ** Overflow of a decimal literal *)

Module OverflowFacts.
Import Float.

Lemma digits2_pos_bounds (p : positive) :
  2 ^ (Zpos (digits2_pos p) - 1) <= Zpos p < 2 ^ Zpos (digits2_pos p).
Proof.
  induction p as [p IH|p IH|]; cbn [digits2_pos].
  - rewrite Pos2Z.inj_succ.
    replace (Z.succ (Zpos (digits2_pos p)) - 1)
      with (Z.succ (Zpos (digits2_pos p) - 1)) by lia.
    rewrite !Z.pow_succ_r by lia. lia.
  - rewrite Pos2Z.inj_succ.
    replace (Z.succ (Zpos (digits2_pos p)) - 1)
      with (Z.succ (Zpos (digits2_pos p) - 1)) by lia.
    rewrite !Z.pow_succ_r by lia. lia.
  - simpl. lia.
Qed.

(** A number below [2 ^ k] has at most [k] binary digits. *)
Lemma Zdigits2_le (m k : Z) :
  0 <= m < 2 ^ k -> 0 <= k -> Zdigits2 m <= k.
Proof.
  intros [Hm Hk] Hk0. destruct m as [|p|p]; simpl; [lia| |lia].
  pose proof (digits2_pos_bounds p) as [Hlo _].
  destruct (Z.le_gt_cases (Zpos (digits2_pos p)) k) as [|Hgt]; [assumption|].
  exfalso.
  assert (2 ^ k <= 2 ^ (Zpos (digits2_pos p) - 1))
    by (apply Z.pow_le_mono_r; lia).
  lia.
Qed.

Lemma Zdigits2_lt (m : Z) : 0 <= m -> m < 2 ^ Zdigits2 m.
Proof.
  intros Hm. destruct m as [|p|p]; simpl; [lia| |lia].
  apply digits2_pos_bounds.
Qed.

Lemma iter_pos_inv {A : Type} (f : A -> A) (Q : Z -> A -> Prop) :
  (forall k x, 0 <= k -> Q k x -> Q (k + 1) (f x)) ->
  forall p k x, 0 <= k -> Q k x -> Q (k + Zpos p) (SpecFloat.iter_pos f p x).
Proof.
  intros Hstep. induction p as [p IH|p IH|]; intros k x Hk HQ; simpl.
  - replace (k + Zpos p~1) with (k + 1 + Zpos p + Zpos p) by lia.
    apply IH; [lia|]. apply IH; [lia|]. apply Hstep; assumption.
  - replace (k + Zpos p~0) with (k + Zpos p + Zpos p) by lia.
    apply IH; [lia|]. apply IH; assumption.
  - apply Hstep; assumption.
Qed.

Lemma desloc_shr_1 (m0 k : Z) (r : shr_record) :
  0 <= k -> desloc m0 k r -> desloc m0 (k + 1) (shr_1 r).
Proof.
  intros Hk (Hm & Hb & _). destruct r as [m r s]. simpl in Hm, Hb.
  unfold desloc. replace (k + 1 - 1) with k by lia.
  rewrite Z.pow_add_r, Z.pow_1_r by lia.
  assert (Hp : 0 < 2 ^ k) by (apply Z.pow_pos_nonneg; lia).
  set (P := 2 ^ k) in *. clearbody P.
  destruct m as [|[p|p|]|p]; simpl; lia.
Qed.

Lemma shr_m_of_loc (q : Z) (l : location) :
  shr_m (shr_record_of_loc q l) = q.
Proof. destruct l as [|[]]; reflexivity. Qed.

Lemma shr_fexp_spec (q e : Z) (l : location) (r : shr_record) (e1 : Z) :
  0 <= q ->
  shr_fexp prec emax q e l = (r, e1) ->
  e1 = Z.max e (fexp prec emax (Zdigits2 q + e))
  /\ desloc q (e1 - e) r.
Proof.
  intros Hq. unfold shr_fexp, shr.
  assert (H0 : desloc q 0 (shr_record_of_loc q l)).
  { unfold desloc. rewrite shr_m_of_loc. simpl. lia. }
  destruct (fexp prec emax (Zdigits2 q + e) - e) as [|p|p] eqn:Hn;
    intros [= <- <-].
  - split; [lia|]. replace (e - e) with 0 by lia. exact H0.
  - split; [lia|]. replace (e + Zpos p - e) with (0 + Zpos p) by lia.
    apply (iter_pos_inv shr_1 (desloc q)); [|lia|exact H0].
    intros k x. apply desloc_shr_1.
  - split; [lia|]. replace (e - e) with 0 by lia. exact H0.
Qed.

Lemma round_nearest_even_bounds (m : Z) (r : shr_record) :
  shr_m r = m ->
  m <= round_nearest_even m (loc_of_shr_record r) <= m + 1
  /\ (shr_r r = false -> round_nearest_even m (loc_of_shr_record r) = m).
Proof.
  intros <-. destruct r as [m [] []]; simpl;
    try destruct (Z.even m); (split; [lia|]); first [done|discriminate].
Qed.

Lemma limiar_eq : limiar = (2 ^ 54 - 1) * 2 ^ 970.
Proof. reflexivity. Qed.

(** Rounding to binary64 a mantissa [q] at an exponent [e <= 0] whose
    value is below [limiar] gives a finite number. *)
Lemma binary_round_aux_finite (sx : bool) (q e : Z) (l : location) :
  0 <= q -> e <= 0 -> q < limiar * 2 ^ (- e) ->
  is_finite (binary_round_aux prec emax sx q e l) = true.
Proof.
  intros Hq He Hlim. unfold binary_round_aux.
  destruct (shr_fexp prec emax q e l) as [r1 e1] eqn:H1.
  apply shr_fexp_spec in H1 as [He1 (Hm1 & Hb1 & Hr1 & _)]; [|exact Hq].
  set (m1 := shr_m r1) in *.
  destruct (round_nearest_even_bounds m1 r1 eq_refl) as [Hm2 Hm2'].
  set (m2 := round_nearest_even m1 (loc_of_shr_record r1)) in *.
  destruct (shr_fexp prec emax m2 e1 loc_Exact) as [r2 e2] eqn:H2.
  apply shr_fexp_spec in H2 as [He2 (Hm3 & _)]; [|lia].
  destruct (shr_m r2) as [|m|m]; [reflexivity| |lia].
  destruct (Z.leb_spec e2 (emax - prec)) as [_|Hgt]; [reflexivity|].
  exfalso. unfold emax, prec in Hgt. revert Hgt. apply Z.le_ngt.
  change (e2 <= 971).
  (* the number of digits of q *)
  set (d := Zdigits2 q) in *.
  assert (Hd0 : 0 <= d).
  { subst d. destruct q; simpl; lia. }
  assert (Hqd : q < 2 ^ d) by (apply Zdigits2_lt, Hq).
  assert (HD : d + e <= 1024).
  { assert (d <= 1024 - e); [|lia].
    apply Zdigits2_le; [|lia]. split; [exact Hq|].
    eapply Z.lt_le_trans; [exact Hlim|].
    replace (1024 - e) with (1024 + - e) by lia.
    rewrite Z.pow_add_r by lia.
    apply Z.mul_le_mono_nonneg_r; [apply Z.pow_nonneg; lia|].
    unfold limiar. assert (0 < 2 ^ 970) by (apply Z.pow_pos_nonneg; lia).
    lia. }
  unfold fexp, emin, prec, emax in He1, He2.
  (* the first mantissa fits in 53 bits *)
  assert (Hm1b : m1 < 2 ^ 53).
  { destruct (Z.lt_ge_cases m1 (2 ^ 53)) as [|Hge]; [assumption|]. exfalso.
    assert (Hle : 2 ^ (53 + (e1 - e)) <= q).
    { rewrite Z.pow_add_r by lia.
      eapply Z.le_trans; [|apply Hb1].
      apply Z.mul_le_mono_nonneg_r; [apply Z.pow_nonneg; lia|exact Hge]. }
    assert (Hlt : 2 ^ (53 + (e1 - e)) < 2 ^ d) by lia.
    apply Z.pow_lt_mono_r_iff in Hlt; lia. }
  assert (Hm2b : m2 < 2 ^ 53 \/ (m2 = 2 ^ 53 /\ e1 <= 970)).
  { destruct (Z.le_gt_cases e1 970) as [Hle|Hgt]; [lia|]. left.
    assert (H971 : e1 = 971) by lia.
    destruct (shr_r r1) eqn:Hr.
    - assert (Hh : m1 * 2 ^ (e1 - e) + 2 ^ (e1 - e - 1) <= q)
        by (apply Hr1; [lia|reflexivity]).
      rewrite H971 in Hh.
      rewrite limiar_eq in Hlim.
      replace (971 - e) with (1 + (970 + - e)) in Hh by lia.
      replace (1 + (970 + - e) - 1) with (970 + - e) in Hh by lia.
      rewrite (Z.pow_add_r 2 1) in Hh by lia.
      rewrite Z.pow_add_r in Hh by lia.
      rewrite <- Z.mul_assoc in Hlim.
      assert (Hp : 0 < 2 ^ 970 * 2 ^ (- e)).
      { apply Z.mul_pos_pos; apply Z.pow_pos_nonneg; lia. }
      set (P := 2 ^ 970 * 2 ^ (- e)) in *. clearbody P.
      change (2 ^ 1) with 2 in Hh.
      assert (m1 * 2 + 1 < 2 ^ 54 - 1) by nia.
      change (2 ^ 54) with (2 * 2 ^ 53) in *. lia.
    - rewrite (Hm2' eq_refl). exact Hm1b. }
  assert (Hd2 : Zdigits2 m2 + e1 <= 1024).
  { destruct Hm2b as [Hlt|[-> Hle]].
    - assert (Zdigits2 m2 <= 53) by (apply Zdigits2_le; lia). lia.
    - change (Zdigits2 (2 ^ 53)) with 54. lia. }
  lia.
Qed.

Lemma iter_xO (d m : positive) :
  Zpos (Pos.iter xO m d) = Zpos m * 2 ^ Zpos d.
Proof.
  revert m. induction d as [|d IH] using Pos.peano_ind; intros m.
  - simpl. lia.
  - rewrite Pos.iter_succ, Pos2Z.inj_xO, IH, Pos2Z.inj_succ.
    rewrite Z.pow_succ_r by lia. lia.
Qed.

Lemma binary_round_finite (sx : bool) (m : positive) :
  Zpos m < limiar ->
  is_finite (binary_round prec emax sx m 0) = true.
Proof.
  intros Hm. unfold binary_round, shl_align.
  destruct (fexp prec emax (Zpos (digits2_pos m) + 0) - 0) as [|p|p] eqn:Hf.
  - apply binary_round_aux_finite; [lia|lia|]. simpl. lia.
  - apply binary_round_aux_finite; [lia|lia|]. simpl. lia.
  - apply binary_round_aux_finite; [lia|lia|].
    rewrite iter_xO.
    replace (- fexp prec emax (Zpos (digits2_pos m) + 0)) with (Zpos p) by lia.
    apply Z.mul_lt_mono_pos_r; [apply Z.pow_pos_nonneg; lia|exact Hm].
Qed.

(** A literal that does not reach [limiar] is read as a finite number. *)
Lemma of_decimal_finite (neg : bool) (m e : Z) :
  transborda m e = false -> is_finite (of_decimal neg m e) = true.
Proof.
  unfold transborda, of_decimal. intros Hlim.
  destruct m as [|p|p]; [reflexivity| |reflexivity].
  destruct (Z.leb_spec 0 e) as [He|He]; apply Z.leb_gt in Hlim.
  - apply binary_round_finite.
    assert (0 < Zpos p * 10 ^ e)
      by (apply Z.mul_pos_pos; [lia|apply Z.pow_pos_nonneg; lia]).
    rewrite Z2Pos.id by assumption. exact Hlim.
  - assert (Hten : 0 < 10 ^ (- e)) by (apply Z.pow_pos_nonneg; lia).
    set (t := 10 ^ (- e)) in *.
    unfold SFdiv_core_binary.
    set (e' := Z.min _ _).
    assert (He' : e' <= 0) by (subst e'; lia).
    replace (0 - 0 - e') with (- e') by lia.
    set (m' := match - e' with
               | 0 => Zpos p | Zpos _ => Z.shiftl (Zpos p) (- e')
               | Zneg _ => 0 end).
    assert (Hm' : m' = Zpos p * 2 ^ (- e')).
    { subst m'. destruct (- e') as [|s|s] eqn:Hs; [simpl; lia| |lia].
      rewrite Z.shiftl_mul_pow2 by lia. reflexivity. }
    pose proof (Z_div_mod m' t ltac:(lia)) as Hdiv.
    unfold Z.div_eucl in Hdiv |- *. fold (Z.div_eucl m' t) in Hdiv |- *.
    destruct (Z.div_eucl m' t) as [q r]. destruct Hdiv as [Hqr Hr].
    assert (Hp2 : 0 < 2 ^ (- e')) by (apply Z.pow_pos_nonneg; lia).
    apply binary_round_aux_finite; [nia|exact He'|].
    set (P := 2 ^ (- e')) in *. clearbody P t. nia.
Qed.

Lemma binary_round_aux_sign (sx s : bool) (q e : Z) (l : location) :
  binary_round_aux prec emax sx q e l = S754_infinity s -> s = sx.
Proof.
  unfold binary_round_aux.
  destruct (shr_fexp prec emax q e l) as [r1 e1].
  destruct (shr_fexp prec emax _ e1 loc_Exact) as [r2 e2].
  destruct (shr_m r2); try discriminate.
  destruct (e2 <=? emax - prec); [discriminate|]. intros [= <-]. reflexivity.
Qed.

(** An infinity read from a literal has the sign of the literal. *)
Lemma of_decimal_sign (neg s : bool) (m e : Z) :
  of_decimal neg m e = S754_infinity s -> s = neg.
Proof.
  unfold of_decimal. destruct m as [|p|p]; try discriminate.
  destruct (0 <=? e).
  - unfold binary_round. destruct (shl_align _ _ _) as [mz ez].
    apply binary_round_aux_sign.
  - destruct (SFdiv_core_binary _ _ _ _ _ _) as [[q e'] l].
    apply binary_round_aux_sign.
Qed.

Lemma round_nearest_even_up (r : shr_record) :
  shr_r r = true -> Z.odd (shr_m r) = true ->
  round_nearest_even (shr_m r) (loc_of_shr_record r) = shr_m r + 1.
Proof.
  destruct r as [m [] []]; simpl; try discriminate; intros _ Ho;
    [reflexivity|].
  rewrite <- Z.negb_odd, Ho. reflexivity.
Qed.

Lemma Zdigits2_ge (m k : Z) : 0 <= k -> 2 ^ k <= m -> k + 1 <= Zdigits2 m.
Proof.
  intros Hk Hm.
  assert (Hpos : 0 < 2 ^ k) by (apply Z.pow_pos_nonneg; lia).
  pose proof (Zdigits2_lt m ltac:(lia)) as Hlt.
  assert (Hd : 0 <= Zdigits2 m) by (destruct m; simpl; lia).
  assert (Hp : 2 ^ k < 2 ^ Zdigits2 m) by lia.
  apply Z.pow_lt_mono_r_iff in Hp; lia.
Qed.

Lemma Zdigits2_pow (m : Z) : 0 < m -> 2 ^ (Zdigits2 m - 1) <= m.
Proof.
  destruct m as [|p|p]; try lia. intros _. apply digits2_pos_bounds.
Qed.

(** Rounding to binary64 a mantissa [q] at an exponent [e <= 0] whose
    value reaches [limiar] gives an infinity. *)
Lemma binary_round_aux_infinity (sx : bool) (q e : Z) (l : location) :
  e <= 0 -> limiar * 2 ^ (- e) <= q ->
  binary_round_aux prec emax sx q e l = S754_infinity sx.
Proof.
  intros He Hlim.
  assert (Ha : 0 < 2 ^ (- e)) by (apply Z.pow_pos_nonneg; lia).
  assert (Hq : 0 < q).
  { eapply Z.lt_le_trans; [|exact Hlim].
    apply Z.mul_pos_pos; [reflexivity|exact Ha]. }
  unfold binary_round_aux.
  destruct (shr_fexp prec emax q e l) as [r1 e1] eqn:H1.
  apply shr_fexp_spec in H1 as [He1 (Hm1 & Hb1 & Hr1 & Hr1')]; [|lia].
  destruct (round_nearest_even_bounds (shr_m r1) r1 eq_refl)
    as [Hm2 _].
  pose proof (round_nearest_even_up r1) as Hup.
  set (m1 := shr_m r1) in *.
  set (m2 := round_nearest_even m1 (loc_of_shr_record r1)) in *.
  destruct (shr_fexp prec emax m2 e1 loc_Exact) as [r2 e2] eqn:H2.
  apply shr_fexp_spec in H2 as [He2 (Hm3 & Hb2 & _)]; [|lia].
  set (d := Zdigits2 q) in *.
  assert (Hd : 1024 - e <= d).
  { replace (1024 - e) with (1023 + - e + 1) by lia.
    apply Zdigits2_ge; [lia|].
    eapply Z.le_trans; [|exact Hlim].
    rewrite Z.pow_add_r by lia.
    apply Z.mul_le_mono_nonneg_r; [lia|]. unfold limiar.
    change (2 ^ 1024) with (2 * 2 ^ 1023).
    assert (2 ^ 970 <= 2 ^ 1023) by (apply Z.pow_le_mono_r; lia). lia. }
  pose proof (Zdigits2_lt q ltac:(lia)) as Hqd. fold d in Hqd.
  pose proof (Zdigits2_pow q Hq) as Hqd'. fold d in Hqd'.
  unfold fexp, emin, prec, emax in He1, He2.
  assert (He1' : e1 = d + e - 53) by lia.
  assert (Hn : e1 - e = d - 53) by lia.
  rewrite Hn in *.
  assert (Hpn : 0 < 2 ^ (d - 53)) by (apply Z.pow_pos_nonneg; lia).
  assert (Hsplit : 2 ^ d = 2 ^ 53 * 2 ^ (d - 53) /\
                   2 ^ (d - 1) = 2 ^ 52 * 2 ^ (d - 53)).
  { rewrite <- !Z.pow_add_r by lia. split; f_equal; lia. }
  destruct Hsplit as [Hs1 Hs2]. rewrite Hs1 in Hqd. rewrite Hs2 in Hqd'.
  assert (Hm1b : 2 ^ 52 <= m1 < 2 ^ 53).
  { set (P := 2 ^ (d - 53)) in *. clearbody P. split; nia. }
  assert (Hm2b : m2 <= 2 ^ 53) by lia.
  assert (Hd2 : Zdigits2 m2 <= 54) by (apply Zdigits2_le; lia).
  assert (He2' : 972 <= e2 /\ e2 - e1 <= 1).
  { destruct (Z.le_gt_cases 972 e1) as [Hge|Hlt]; [lia|].
    assert (H971 : e1 = 971) by lia.
    assert (Hd1024 : d - 53 = 970 + - e + 1) by lia.
    rewrite Hd1024 in *.
    replace (970 + - e + 1 - 1) with (970 + - e) in * by lia.
    rewrite (Z.pow_add_r 2 (970 + - e) 1) in * by lia.
    change (2 ^ 1) with 2 in *.
    rewrite limiar_eq in Hlim.
    rewrite (Z.pow_add_r 2 970) in * by lia.
    rewrite <- Z.mul_assoc in Hlim.
    assert (HP : 0 < 2 ^ 970 * 2 ^ (- e)).
    { apply Z.mul_pos_pos; [reflexivity|exact Ha]. }
    set (P := 2 ^ 970 * 2 ^ (- e)) in *. clearbody P.
    change (2 ^ 54) with (2 * 2 ^ 53) in Hlim.
    assert (Hm1e : m1 = 2 ^ 53 - 1) by nia.
    assert (Hr : shr_r r1 = true).
    { destruct (shr_r r1); [reflexivity|].
      specialize (Hr1' ltac:(lia) eq_refl). nia. }
    assert (Hm2e : m2 = 2 ^ 53).
    { subst m2. rewrite Hup; [lia|exact Hr|]. rewrite Hm1e. reflexivity. }
    rewrite Hm2e in He2. change (Zdigits2 (2 ^ 53)) with 54 in He2. lia. }
  destruct He2' as [He2a He2b].
  assert (Hm3' : 0 < shr_m r2).
  { assert (Hk : e2 - e1 = 0 \/ e2 - e1 = 1) by lia.
    change (2 ^ 52) with 4503599627370496 in Hm1b.
    destruct Hk as [Hk|Hk]; rewrite Hk in Hb2; simpl in Hb2; lia. }
  destruct (shr_m r2) as [|m|m]; try lia.
  destruct (Z.leb_spec e2 (emax - prec)) as [Hle|_]; [|reflexivity].
  unfold emax, prec in Hle. lia.
Qed.

Lemma binary_round_infinity (sx : bool) (m : positive) :
  limiar <= Zpos m ->
  binary_round prec emax sx m 0 = S754_infinity sx.
Proof.
  intros Hm. unfold binary_round, shl_align.
  assert (Hd : 1024 <= Zdigits2 (Zpos m)).
  { change 1024 with (1023 + 1). apply Zdigits2_ge; [lia|].
    eapply Z.le_trans; [|exact Hm]. unfold limiar.
    change (2 ^ 1024) with (2 * 2 ^ 1023).
    assert (2 ^ 970 <= 2 ^ 1023) by (apply Z.pow_le_mono_r; lia). lia. }
  simpl in Hd.
  destruct (fexp prec emax (Zpos (digits2_pos m) + 0) - 0) as [|p|p] eqn:Hf.
  - apply binary_round_aux_infinity; [lia|]. simpl. lia.
  - apply binary_round_aux_infinity; [lia|]. simpl. lia.
  - unfold fexp, emin, prec, emax in Hf. lia.
Qed.

(** A literal that reaches [limiar] is read as the infinity of its sign. *)
Lemma of_decimal_infinity (neg : bool) (m e : Z) :
  transborda m e = true -> of_decimal neg m e = S754_infinity neg.
Proof.
  unfold transborda, of_decimal. intros Hlim.
  assert (Hl : 0 < limiar) by reflexivity.
  destruct (Z.leb_spec 0 e) as [He|He]; apply Z.leb_le in Hlim.
  - assert (Hten : 0 < 10 ^ e) by (apply Z.pow_pos_nonneg; lia).
    destruct m as [|p|p]; [lia| |nia].
    apply binary_round_infinity. rewrite Z2Pos.id by nia. exact Hlim.
  - assert (Hten : 0 < 10 ^ (- e)) by (apply Z.pow_pos_nonneg; lia).
    destruct m as [|p|p]; [nia| |nia].
    set (t := 10 ^ (- e)) in *.
    unfold SFdiv_core_binary.
    set (e' := Z.min _ _).
    assert (He' : e' <= 0) by (subst e'; lia).
    replace (0 - 0 - e') with (- e') by lia.
    set (m' := match - e' with
               | 0 => Zpos p | Zpos _ => Z.shiftl (Zpos p) (- e')
               | Zneg _ => 0 end).
    assert (Hm' : m' = Zpos p * 2 ^ (- e')).
    { subst m'. destruct (- e') as [|s|s] eqn:Hs; [simpl; lia| |lia].
      rewrite Z.shiftl_mul_pow2 by lia. reflexivity. }
    pose proof (Z_div_mod m' t ltac:(lia)) as Hdiv.
    unfold Z.div_eucl in Hdiv |- *. fold (Z.div_eucl m' t) in Hdiv |- *.
    destruct (Z.div_eucl m' t) as [q r]. destruct Hdiv as [Hqr Hr].
    assert (Hp2 : 0 < 2 ^ (- e')) by (apply Z.pow_pos_nonneg; lia).
    apply binary_round_aux_infinity; [exact He'|].
    set (P := 2 ^ (- e')) in *. clearbody P t.
    assert (limiar * P * t <= q * t + r) by nia.
    nia.
Qed.

End OverflowFacts.

(** ** Numeric coercion and the grammar of numbers: the claim *)

(** C6, as amended. [_to_float] ignores blanks around the text and reads a
    comma as a decimal point, so that [3,5] and [3.5] give the same number;
    it gives no value for the empty text, for a dash and for [na] in any
    letter case. For any other text it gives a value exactly when the
    text, blanks dropped and commas read as points, is a decimal literal
    (a sign, digits with a point, an exponent, underscores between digits)
    or one of the words [inf], [infinity] and [nan] with a sign, in any
    letter case; for every other text it gives no value. The function is
    total: no text makes it fail. *)
Theorem C6_to_float (s ws1 ws2 : string) :
  Str.all_space ws1 = true -> Str.all_space ws2 = true ->
  _to_float (Some (String.append ws1 (String.append s ws2)))
    = _to_float (Some s)
  /\ _to_float (Some (Str.replace "," "." s)) = _to_float (Some s)
  /\ _to_float (Some "3,5") = _to_float (Some "3.5")
  /\ _to_float (Some "3.5") = Some (Float.of_decimal false 35 (-1))
  /\ _to_float (Some "") = None
  /\ _to_float (Some "-") = None
  /\ (Str.lower (Str.strip s) = "na" -> _to_float (Some s) = None)
  /\ (forall x, _to_float (Some s) = Some x <-> denota (texto_limpo s) x)
  /\ (_to_float (Some s) = None <-> forall x, ~ denota (texto_limpo s) x).
Proof.
  intros H1 H2.
  split; [apply _to_float_strip, StrFacts.strip_app_space; assumption|].
  split; [apply _to_float_replace|].
  do 4 (split; [vm_compute; reflexivity|]).
  split; [|split].
  - intros Hna. unfold _to_float.
    rewrite (lower_na_sem_virgula _ Hna), Hna.
    rewrite orb_true_r. reflexivity.
  - intros x. apply _to_float_denota.
  - split.
    + intros Hnone x Hx. apply _to_float_denota in Hx. congruence.
    + intros Hno. destruct (_to_float (Some s)) as [x|] eqn:Hx; [|reflexivity].
      apply _to_float_denota in Hx. destruct (Hno x Hx).
Qed.

(** The text [3,5] between blanks reads as [3,5], which is 3.5; [NA] gives
    no value, and the text [abc] is not in the grammar. *)
Lemma C6_to_float_witness :
  _to_float (Some "  3,5 ") = _to_float (Some "3,5")
  /\ _to_float (Some "3,5") = Some (Float.of_decimal false 35 (-1))
  /\ _to_float (Some " NA") = None
  /\ (forall x, ~ denota "abc" x)
  /\ denota "3.5" (Float.of_decimal false 35 (-1)).
Proof.
  split; [|split; [|split; [|split]]].
  - destruct (C6_to_float "3,5" "  " " " eq_refl eq_refl) as (Htrim & _).
    exact Htrim.
  - destruct (C6_to_float "3,5" "  " " " eq_refl eq_refl)
      as (_ & _ & H35 & Hv & _).
    rewrite H35. exact Hv.
  - destruct (C6_to_float " NA" "" "" eq_refl eq_refl)
      as (_ & _ & _ & _ & _ & _ & Hna & _).
    apply Hna. reflexivity.
  - destruct (C6_to_float "abc" "" "" eq_refl eq_refl)
      as (_ & _ & _ & _ & _ & _ & _ & _ & Hno).
    apply (proj1 Hno). vm_compute. reflexivity.
  - destruct (C6_to_float "3,5" "" "" eq_refl eq_refl)
      as (_ & _ & _ & _ & _ & _ & _ & Hsome & _).
    apply (proj1 (Hsome _)). vm_compute. reflexivity.
Defined.

(** C6 as stated fails: the texts [nan], [inf] and [infinity], which are
    not numbers, are not absent, and neither is a text with an underscore
    between its digits. *)
Lemma C6_counterexample_palavras :
  _to_float (Some "nan") = Some S754_nan
  /\ _to_float (Some "inf") = Some (S754_infinity false)
  /\ _to_float (Some " -Infinity") = Some (S754_infinity true)
  /\ _to_float (Some "1_0") = Some (Float.of_int 10).
Proof. repeat split; vm_compute; reflexivity. Qed.

(** ** The numeric fields and NaN: the claim *)

Lemma _to_float_nan_texto (s : string) :
  _to_float (Some s) = Some S754_nan -> texto_nan (Str.strip s) = true.
Proof.
  unfold _to_float. set (u := Str.strip s).
  destruct (_ || _); [discriminate|].
  unfold Float.of_string.
  rewrite (StrFacts.strip_replace _ _ is_space_comma is_space_period).
  subst u. rewrite StrFacts.strip_strip. set (u := Str.strip s).
  destruct (Float.remove_underscores None (Str.replace "," "." u))
    as [s'|] eqn:Hru; [|discriminate].
  unfold Float.strtod.
  destruct (Float.parse_number s') as [[x r]|] eqn:Hpn.
  - destruct r; [|discriminate]. intros [= ->].
    exfalso. eapply ParseFacts.parse_number_not_nan; [exact Hpn|reflexivity].
  - destruct (Float.parse_inf_or_nan s') as [[x r]|] eqn:Hpi; [|discriminate].
    destruct r; [|discriminate]. intros [= ->].
    apply ParseFacts.parse_inf_or_nan_nan in Hpi.
    destruct (ParseFacts.texto_nan_plain _ Hpi) as (Hdot & Hnd & _).
    apply ParseFacts.remove_underscores_no_digit in Hru;
      [|reflexivity|exact Hnd].
    rewrite <- Hru in Hdot, Hpi.
    rewrite (ParseFacts.replace_without _ _ _ Hdot) in Hpi. exact Hpi.
Qed.

Lemma texto_nan__to_float (s : string) :
  texto_nan (Str.strip s) = true -> _to_float (Some s) = Some S754_nan.
Proof.
  intros Ht. unfold _to_float.
  apply ParseFacts.texto_nan_cases in Ht as (sg & u & -> & Hsg & Hu).
  apply ParseFacts.lower_nan_cases in Hu.
  destruct Hsg as [->|[->| ->]];
    repeat (destruct Hu as [->|Hu]; [vm_compute; reflexivity|]);
    subst u; vm_compute; reflexivity.
Qed.

(** What [_to_float] gives is finite, but for the texts of [nao_finito]. *)
Lemma _to_float_finito (s : string) (x : Float.float) :
  _to_float (Some s) = Some x ->
  Float.is_finite x = true \/ nao_finito (texto_limpo s) x.
Proof.
  intros Hx. apply _to_float_denota in Hx. fold (texto_limpo s) in Hx.
  destruct Hx as [u neg m e Hcs Hl|Hi|Hn].
  - destruct (transborda m e) eqn:Ht.
    + destruct (Float.of_decimal neg m e) as [sx|sx| |sx mx ex] eqn:Hv;
        [left; reflexivity| | |left; reflexivity].
      * right. apply OverflowFacts.of_decimal_sign in Hv as ->.
        apply (nao_finito_transborda _ u neg m e); assumption.
      * destruct (RoundFacts.of_decimal_not_nan neg m e Hv).
    + left. apply OverflowFacts.of_decimal_finite, Ht.
  - right. apply nao_finito_inf, Hi.
  - right. apply nao_finito_nan, Hn.
Qed.

(** The texts of [nao_finito] are read, and what they give is not
    finite. *)
Lemma nao_finito__to_float (s : string) (x : Float.float) :
  nao_finito (texto_limpo s) x ->
  _to_float (Some s) = Some x /\ Float.is_finite x = false.
Proof.
  intros [Hn|Hi|u neg m e Hcs Hl Ht].
  - split; [|reflexivity]. apply _to_float_denota, denota_nan, Hn.
  - split; [|reflexivity]. apply _to_float_denota, denota_inf, Hi.
  - split; [|reflexivity].
    rewrite <- (OverflowFacts.of_decimal_infinity neg m e Ht).
    apply _to_float_denota. apply (denota_literal _ u); assumption.
Qed.

(** C4, as amended. Each numeric field of a loaded record is absent or a
    binary64 value, and the value is finite but in three cases: the cell,
    blanks dropped and commas read as points, reads [nan] with an optional
    sign in any letter case, and the field is NaN; it reads [inf] or
    [infinity] likewise, and the field is that infinity; or it is a decimal
    literal whose magnitude is [2 ^ 1024 - 2 ^ 970] or more, and the field
    is the infinity of its sign. Each of these texts does give that
    value. The coercion gives NaN exactly for the texts that read [nan],
    and a numeric field of a loaded record is NaN only when the cell of its
    column is such a text. *)
Theorem C4_finito_salvo_nan_inf (s : string) :
  (_to_float (Some s) = Some S754_nan <-> texto_nan (Str.strip s) = true)
  /\ (forall mapa lin reg,
       carregar_linha mapa lin = Some reg ->
       Forall (fun fc =>
                 fc.1 reg = Some S754_nan ->
                 exists txt, lin !! fc.2 mapa = Some (Some txt)
                             /\ texto_nan (Str.strip txt) = true)
         numericos)
  /\ (forall x, _to_float (Some s) = Some x ->
                Float.is_finite x = true \/ nao_finito (texto_limpo s) x)
  /\ (forall x, nao_finito (texto_limpo s) x ->
                _to_float (Some s) = Some x /\ Float.is_finite x = false)
  /\ (forall mapa lin reg,
       carregar_linha mapa lin = Some reg ->
       Forall (fun fc =>
                 forall x, fc.1 reg = Some x ->
                   exists txt,
                     lin !! fc.2 mapa = Some (Some txt)
                     /\ _to_float (Some txt) = Some x
                     /\ (Float.is_finite x = true
                         \/ nao_finito (texto_limpo txt) x))
         numericos).
Proof.
  split; [split; [apply _to_float_nan_texto|apply texto_nan__to_float]|].
  assert (Hcell : forall (lin : Linha) col x,
            _to_float (lin_get lin col) = Some x ->
            exists txt, lin !! col = Some (Some txt)
                        /\ _to_float (Some txt) = Some x).
  { intros lin col x. unfold lin_get.
    destruct (lin !! col) as [[txt|]|]; simpl.
    - intros Hn. exists txt. split; [reflexivity|exact Hn].
    - discriminate.
    - intros Hn. vm_compute in Hn. discriminate Hn. }
  assert (Hopt : forall (lin : Linha) col x,
            campo_opcional lin col = Some x ->
            exists txt, lin !! col = Some (Some txt)
                        /\ _to_float (Some txt) = Some x).
  { intros lin col x. unfold campo_opcional.
    destruct col; [discriminate|apply Hcell]. }
  assert (Hrows : forall (P : string -> Float.float -> Prop),
            (forall txt x, _to_float (Some txt) = Some x -> P txt x) ->
            forall mapa lin reg,
              carregar_linha mapa lin = Some reg ->
              Forall (fun fc : (Registro -> option Float.float)
                                * (Mapa -> string) =>
                        forall x, fc.1 reg = Some x ->
                          exists txt, lin !! fc.2 mapa = Some (Some txt)
                                      /\ P txt x)
                numericos).
  { intros P HP mapa lin reg Hreg. unfold carregar_linha in Hreg.
    destruct (lin !! col_data mapa) as [[txt|]|]; try discriminate.
    destruct (parse_data_br txt) as [d|]; [|discriminate].
    injection Hreg as <-. unfold numericos.
    apply Forall_cons. split.
    { simpl. intros x Hx. apply Hcell in Hx as (t & Ht & Hv).
      exists t. split; [exact Ht|apply HP, Hv]. }
    repeat (apply Forall_cons; split;
            [simpl; intros x Hx; apply Hopt in Hx as (t & Ht & Hv);
             exists t; split; [exact Ht|apply HP, Hv]|]).
    apply Forall_nil. done. }
  split; [|split; [|split]].
  - intros mapa lin reg Hreg.
    assert (HF := Hrows (fun txt x => x = S754_nan ->
                                      texto_nan (Str.strip txt) = true)).
    specialize (HF ltac:(intros txt x Hv ->; apply _to_float_nan_texto, Hv)
                  mapa lin reg Hreg).
    eapply Forall_impl; [exact HF|]. simpl. intros fc Hfc Hnan.
    destruct (Hfc _ Hnan) as (txt & Ht & Hp). exists txt. auto.
  - apply _to_float_finito.
  - apply nao_finito__to_float.
  - intros mapa lin reg Hreg.
    apply (Hrows (fun txt x => _to_float (Some txt) = Some x
                               /\ (Float.is_finite x = true
                                   \/ nao_finito (texto_limpo txt) x)));
      [|exact Hreg].
    intros txt x Hv. split; [exact Hv|apply _to_float_finito, Hv].
Qed.

(** The row with the cells [nan], [inf] and [1e999]: its precipitation is
    NaN, and the cell of the precipitation column reads [nan]; its maximum
    is an infinity, and the cell of its column is not a finite number. *)
Lemma C4_finito_salvo_nan_inf_witness :
  precip <$> carregar_linha mapa_basico linha_nan = Some (Some S754_nan)
  /\ (exists txt, linha_nan !! col_precip mapa_basico = Some (Some txt)
                  /\ texto_nan (Str.strip txt) = true)
  /\ (exists txt, linha_nan !! col_maxima mapa_basico = Some (Some txt)
                  /\ nao_finito (texto_limpo txt) (S754_infinity false)).
Proof.
  split; [vm_compute; reflexivity|].
  destruct (carregar_linha mapa_basico linha_nan) as [reg|] eqn:Hreg;
    [|vm_compute in Hreg; discriminate].
  destruct (C4_finito_salvo_nan_inf "nan") as (_ & Hrows & _ & _ & Hfin).
  specialize (Hrows mapa_basico linha_nan reg Hreg).
  specialize (Hfin mapa_basico linha_nan reg Hreg).
  vm_compute in Hreg. injection Hreg as <-. split.
  - apply Forall_cons in Hrows as [Hprecip _]. apply Hprecip. reflexivity.
  - apply Forall_cons in Hfin as [_ Hfin].
    apply Forall_cons in Hfin as [Hmax _].
    destruct (Hmax (S754_infinity false) eq_refl) as (txt & Ht & _ & [Hf|Hnf]);
      [discriminate Hf|].
    exists txt. split; [exact Ht|exact Hnf].
Defined.

(** C4 as stated fails: the coercion gives NaN for the text [nan] and an
    infinity for the texts [inf] and [1e999], and a loaded record holds
    these values in its numeric fields. *)
Lemma C4_counterexample_nan_inf :
  _to_float (Some "nan") = Some S754_nan
  /\ _to_float (Some "inf") = Some (S754_infinity false)
  /\ _to_float (Some "1e999") = Some (S754_infinity false)
  /\ carregar_dados_csv (Some arquivo_nan)
     = inr [{| data := Date.Build 2000 1 2;
               precip := Some S754_nan;
               maxima := Some (S754_infinity false);
               minima := Some (S754_infinity false);
               temp_media := None; um_relativa := None;
               vel_vento := None |}].
Proof. repeat split; vm_compute; reflexivity. Qed.

(** ** Interval filter: further properties *)

Section SortMore.
Context {A K : Type} `{EqDecision K} (key : A -> K) (lt : K -> K -> bool).
Hypothesis lt_neq : forall a b, lt a b = true -> a <> b.

(** Inserting keeps, for each key, the items of that key in their order,
    the new one first. *)
Lemma sort_insert_filter (k : K) (x : A) (l : list A) :
  filter (fun a => key a = k) (sort_insert key lt x l)
  = filter (fun a => key a = k) (x :: l).
Proof.
  induction l as [|y l IH]; simpl; [reflexivity|].
  destruct (lt (key y) (key x)) eqn:Hlt; [|reflexivity].
  apply lt_neq in Hlt.
  rewrite (filter_cons _ y), IH, !filter_cons.
  destruct (decide (key y = k)), (decide (key x = k)); try reflexivity.
  congruence.
Qed.

Lemma sort_by_key_filter (k : K) (l : list A) :
  filter (fun a => key a = k) (sort_by_key key lt l)
  = filter (fun a => key a = k) l.
Proof.
  induction l as [|x l IH]; simpl; [reflexivity|].
  rewrite sort_insert_filter, !filter_cons, IH. reflexivity.
Qed.

(** A list in which no item has a smaller key than an item before it is
    left as it is. *)
Lemma sort_by_key_id (l : list A) :
  StronglySorted (fun a b => lt (key b) (key a) = false) l ->
  sort_by_key key lt l = l.
Proof.
  induction l as [|x l IH]; intros Hs; simpl; [reflexivity|].
  apply StronglySorted_inv in Hs as [Hl Hx]. rewrite (IH Hl).
  destruct l as [|y l]; simpl; [reflexivity|].
  apply Forall_cons in Hx as [Hy _]. rewrite Hy. reflexivity.
Qed.
End SortMore.

Lemma date_lt_neq (a b : Date.date) : Date.lt a b = true -> a <> b.
Proof.
  unfold Date.lt. intros Hlt ->.
  rewrite !Z.eqb_refl in Hlt. simpl in Hlt. apply Z.ltb_lt in Hlt. lia.
Qed.

Lemma data_le_lt_false (a b : Date.date) : data_le a b -> Date.lt b a = false.
Proof.
  unfold Date.lt, data_le.
  destruct (Z.eqb_spec (Date.year b) (Date.year a)),
    (Z.eqb_spec (Date.month b) (Date.month a)); simpl;
    rewrite Z.ltb_ge; lia.
Qed.

Lemma filtrar_perm (registros : list Registro)
    (mes_ini ano_ini mes_fim ano_fim : Z) :
  filtrar_por_intervalo registros mes_ini ano_ini mes_fim ano_fim
    ≡ₚ filter (no_periodo mes_ini ano_ini mes_fim ano_fim) registros.
Proof.
  unfold filtrar_por_intervalo. rewrite sort_by_key_perm.
  induction registros as [|r rs IH]; [reflexivity|].
  rewrite filter_cons. simpl.
  destruct (dentro_periodo (data r) mes_ini ano_ini mes_fim ano_fim) eqn:Hd.
  - apply dentro_periodo_spec in Hd.
    rewrite decide_True by exact Hd. rewrite IH. reflexivity.
  - rewrite decide_False; [exact IH|].
    intros Hn. apply dentro_periodo_spec in Hn. congruence.
Qed.

Lemma StronglySorted_weaken {A : Type} (R S : A -> A -> Prop) (l : list A) :
  (forall a b, R a b -> S a b) -> StronglySorted R l -> StronglySorted S l.
Proof.
  intros HRS Hs. induction Hs as [|a l Hs IH Ha]; [apply SSorted_nil|].
  apply SSorted_cons; [exact IH|].
  eapply Forall_impl; [exact Ha|]. intros b. apply HRS.
Qed.

Lemma list_filter_all {A : Type} (f : A -> bool) (l : list A) :
  Forall (fun x => f x = true) l -> List.filter f l = l.
Proof.
  induction l as [|x l IH]; intros Hl; simpl; [reflexivity|].
  apply Forall_cons in Hl as [Hx Hl]. rewrite Hx, (IH Hl). reflexivity.
Qed.

(** When the start of the period is after its end, the filter returns no
    record, whatever the records are. *)
Theorem X_filtrar_intervalo_invertido (registros : list Registro)
    (mes_ini ano_ini mes_fim ano_fim : Z) :
  ~ par_le (ano_ini, mes_ini) (ano_fim, mes_fim) ->
  filtrar_por_intervalo registros mes_ini ano_ini mes_fim ano_fim = [].
Proof.
  intros Hinv. apply Permutation_nil_r. rewrite filtrar_perm.
  induction registros as [|r rs IH]; [reflexivity|].
  rewrite filter_cons, decide_False; [exact IH|].
  unfold no_periodo, par_le in *. simpl in *. lia.
Qed.

Lemma X_filtrar_intervalo_invertido_witness :
  filtrar_por_intervalo chuvas_2010 3 2010 1 2010 = [].
Proof.
  apply (X_filtrar_intervalo_invertido chuvas_2010 3 2010 1 2010).
  unfold par_le. simpl. lia.
Defined.

(** A record of the list is in the output of the filter for the period that
    starts and ends at its own month and year. *)
Theorem X_filtrar_proprio_mes (registros : list Registro) (r : Registro) :
  r ∈ registros ->
  r ∈ filtrar_por_intervalo registros
        (Date.month (data r)) (Date.year (data r))
        (Date.month (data r)) (Date.year (data r)).
Proof.
  intros Hr. rewrite filtrar_perm. apply list_elem_of_filter.
  split; [|exact Hr]. unfold no_periodo, par_le. simpl. lia.
Qed.

Lemma X_filtrar_proprio_mes_witness :
  registro_chuva 2010 2 1 (Some (Float.of_int 3))
    ∈ filtrar_por_intervalo chuvas_2010 2 2010 2 2010.
Proof.
  apply (X_filtrar_proprio_mes chuvas_2010
           (registro_chuva 2010 2 1 (Some (Float.of_int 3)))).
  do 3 apply list_elem_of_further. apply list_elem_of_here.
Defined.

(** Filtering the output of the filter again, with the same period, changes
    nothing: the output is in the period and already in order. *)
Theorem X_filtrar_idempotente (registros : list Registro)
    (mes_ini ano_ini mes_fim ano_fim : Z) :
  filtrar_por_intervalo
    (filtrar_por_intervalo registros mes_ini ano_ini mes_fim ano_fim)
    mes_ini ano_ini mes_fim ano_fim
  = filtrar_por_intervalo registros mes_ini ano_ini mes_fim ano_fim.
Proof.
  set (out := filtrar_por_intervalo registros mes_ini ano_ini mes_fim ano_fim).
  unfold filtrar_por_intervalo at 1.
  rewrite list_filter_all.
  - apply sort_by_key_id. subst out. unfold filtrar_por_intervalo.
    eapply (StronglySorted_weaken (fun a b => data_le (data a) (data b)));
      [|apply (sort_by_key_sorted data Date.lt data_le);
        [apply data_le_trans|apply date_lt_false|apply date_lt_true]].
    intros a b Hab. apply data_le_lt_false, Hab.
  - apply Forall_forall. intros r Hr. subst out.
    rewrite filtrar_perm in Hr. apply list_elem_of_filter in Hr as [Hr _].
    apply dentro_periodo_spec, Hr.
Qed.

(** The sort is stable: the records of one date come out of the filter in
    the order in which they are in the input. *)
Theorem X_filtrar_estavel (registros : list Registro)
    (mes_ini ano_ini mes_fim ano_fim : Z) (d : Date.date) :
  filter (fun r => data r = d)
    (filtrar_por_intervalo registros mes_ini ano_ini mes_fim ano_fim)
  = filter (fun r => data r = d)
      (filter (no_periodo mes_ini ano_ini mes_fim ano_fim) registros).
Proof.
  unfold filtrar_por_intervalo.
  rewrite (sort_by_key_filter data Date.lt date_lt_neq). f_equal.
  induction registros as [|r rs IH]; [reflexivity|].
  rewrite filter_cons. simpl.
  destruct (dentro_periodo (data r) mes_ini ano_ini mes_fim ano_fim) eqn:Hd.
  - apply dentro_periodo_spec in Hd.
    rewrite decide_True by exact Hd. rewrite IH. reflexivity.
  - rewrite decide_False; [exact IH|].
    intros Hn. apply dentro_periodo_spec in Hn. congruence.
Qed.

(** ** Wettest month: further properties *)

Lemma foldl_acumular_presentes (d : Dict.t) (registros : list Registro) :
  foldl acumular d registros
  = foldl acumular d (filter (fun r => is_Some (precip r)) registros).
Proof.
  revert d. induction registros as [|r rs IH]; intros d; [reflexivity|].
  rewrite filter_cons. simpl.
  destruct (decide (is_Some (precip r))) as [Hs|Hn]; simpl.
  - apply IH.
  - rewrite <- IH. f_equal. unfold acumular.
    destruct (precip r) as [p|]; [|reflexivity].
    exfalso. apply Hn. eexists. reflexivity.
Qed.

Lemma mes_mais_chuvoso_None (registros : list Registro) :
  mes_mais_chuvoso registros = None <-> soma_por_mes registros = [].
Proof.
  unfold mes_mais_chuvoso, py_max.
  destruct (soma_por_mes registros) as [|kv d]; [done|].
  destruct (max_from snd kv d) as [[a m] t]. split; discriminate.
Qed.

(** [mes_mais_chuvoso] raises its [ValueError] exactly when no record has a
    precipitation value; the empty list is such a case. *)
Theorem X_mes_mais_chuvoso_sem_dados (registros : list Registro) :
  mes_mais_chuvoso registros = None
  <-> forall r, r ∈ registros -> precip r = None.
Proof.
  rewrite mes_mais_chuvoso_None. split.
  - intros Hnil r Hr. destruct (precip r) as [p|] eqn:Hp; [|reflexivity].
    exfalso. apply (soma_por_mes_nonempty registros r Hr); [|exact Hnil].
    rewrite Hp. eexists. reflexivity.
  - intros Hall. unfold soma_por_mes. rewrite foldl_acumular_presentes.
    replace (filter (fun r => is_Some (precip r)) registros)
      with (@nil Registro); [reflexivity|].
    symmetry. induction registros as [|r rs IH]; [reflexivity|].
    rewrite filter_cons, decide_False.
    + apply IH. intros r' Hr'. apply Hall, list_elem_of_further, Hr'.
    + rewrite (Hall r) by apply list_elem_of_here. intros [? ?]. discriminate.
Qed.

(** The records without precipitation value can be taken away: the result
    of [mes_mais_chuvoso] is the same. *)
Theorem X_mes_mais_chuvoso_ignora_ausentes (registros : list Registro) :
  mes_mais_chuvoso registros
  = mes_mais_chuvoso (filter (fun r => is_Some (precip r)) registros).
Proof.
  unfold mes_mais_chuvoso, soma_por_mes.
  rewrite (foldl_acumular_presentes [] registros). reflexivity.
Qed.

Lemma primeiras_ocorrencias_snoc {K : Type} `{EqDecision K}
    (ks : list K) (k : K) :
  primeiras_ocorrencias (ks ++ [k])
  = if decide (k ∈ primeiras_ocorrencias ks)
    then primeiras_ocorrencias ks else primeiras_ocorrencias ks ++ [k].
Proof.
  unfold primeiras_ocorrencias. rewrite reverse_app. simpl.
  destruct (decide_rel elem_of k (reverse ks)) as [Hin|Hnin].
  - rewrite decide_True; [reflexivity|].
    rewrite elem_of_reverse, elem_of_remove_dups. exact Hin.
  - rewrite decide_False.
    + rewrite reverse_cons. reflexivity.
    + intros Hin. apply Hnin.
      rewrite elem_of_reverse, elem_of_remove_dups in Hin. exact Hin.
Qed.

(** The grouping has one entry for each (year, month) with a precipitation
    value, and its iteration order is the order in which the (year, month)
    pairs first occur among the records with a value. *)
Theorem X_soma_por_mes_ordem (registros : list Registro) :
  (soma_por_mes registros).*1
  = primeiras_ocorrencias
      (chave_de <$> filter (fun r => is_Some (precip r)) registros).
Proof.
  induction registros as [|r rs IH] using rev_ind; [reflexivity|].
  rewrite soma_por_mes_snoc, filter_app, fmap_app, filter_cons, filter_nil.
  unfold acumular. destruct (precip r) as [p|] eqn:Hp.
  - rewrite decide_True by (eexists; reflexivity). simpl.
    rewrite primeiras_ocorrencias_snoc, DictFacts.keys_set, IH. reflexivity.
  - rewrite decide_False by (intros [? ?]; discriminate). simpl.
    rewrite app_nil_r. exact IH.
Qed.

(** ** Record loader: further properties *)

Lemma make_valida (y m d : Z) (x : Date.date) :
  Date.make y m d = Some x -> data_valida x.
Proof.
  unfold Date.make, data_valida.
  destruct (_ && _) eqn:Hb; [|discriminate]. intros [= <-]. simpl.
  repeat (apply andb_true_iff in Hb as [Hb ?]).
  rewrite !Z.leb_le in *. lia.
Qed.

Lemma parse_data_br_valida (txt : string) (d : Date.date) :
  parse_data_br txt = Some d -> data_valida d.
Proof.
  unfold parse_data_br, Date.strptime.
  destruct (Date.re_date (Str.strip txt)) as [|[[[dd mm] yy] r] l];
    [discriminate|].
  destruct r; [|discriminate]. apply make_valida.
Qed.

Lemma length_omap_le {A B : Type} (f : A -> option B) (l : list A) :
  (length (omap f l) <= length l)%nat.
Proof.
  induction l as [|x l IH]; csimpl; [lia|].
  destruct (f x); simpl; lia.
Qed.

(** Every record that the loader returns has a calendar date: a year from
    1 to 9999, a month from 1 to 12 and a day that this month has. There
    are at most as many records as rows. *)
Theorem X_carregar_datas_validas (leitor : Leitor) (regs : list Registro) :
  carregar_dados_csv (Some leitor) = inr regs ->
  (forall reg, reg ∈ regs -> data_valida (data reg))
  /\ (length regs <= length (linhas leitor))%nat.
Proof.
  unfold carregar_dados_csv.
  destruct (_mapear_colunas (default [] (fieldnames leitor))) as [e|mapa];
    [discriminate|].
  intros [= <-]. split; [|apply length_omap_le].
  intros reg Hreg. apply list_elem_of_omap in Hreg as (lin & _ & Hlin).
  apply carregar_linha_data in Hlin as (txt & _ & Hd).
  apply parse_data_br_valida in Hd. exact Hd.
Qed.

Lemma X_carregar_datas_validas_witness :
  exists regs,
    carregar_dados_csv (Some arquivo_basico) = inr regs
    /\ (forall reg, reg ∈ regs -> data_valida (data reg))
    /\ (length regs <= length (linhas arquivo_basico))%nat.
Proof.
  destruct (carregar_dados_csv (Some arquivo_basico)) as [e|regs] eqn:Hc;
    [vm_compute in Hc; discriminate|].
  exists regs. split; [reflexivity|].
  apply (X_carregar_datas_validas arquivo_basico regs Hc).
Defined.

(** ** Header resolution: further properties *)

(** Membership in a list that is written out. *)
Ltac na_lista :=
  first [apply list_elem_of_here | apply list_elem_of_further; na_lista].

Lemma achar_spec (header prefixos : list string) :
  match achar header prefixos with
  | Some h => h ∈ header /\ exists p, p ∈ prefixos /\ casa p h = true
  | None => forall p h, p ∈ prefixos -> h ∈ header -> casa p h = false
  end.
Proof.
  induction prefixos as [|p rest IH]; simpl.
  - intros p h Hp. inversion Hp.
  - destruct (List.find (casa p) header) as [h|] eqn:Hf.
    + apply find_some in Hf as [Hin Hc]. split.
      * apply list_elem_of_In, Hin.
      * exists p. split; [apply list_elem_of_here|exact Hc].
    + destruct (achar header rest) as [h|].
      * destruct IH as (Hin & q & Hq & Hc). split; [exact Hin|].
        exists q. split; [apply list_elem_of_further, Hq|exact Hc].
      * intros q h Hq Hh. apply elem_of_cons in Hq as [->|Hq].
        -- apply (find_none _ _ Hf). apply list_elem_of_In, Hh.
        -- apply IH; assumption.
Qed.

Lemma prefixos_de_nao_vazios (c : Campo) (p : string) :
  p ∈ prefixos_de c -> p <> EmptyString.
Proof.
  intros Hp ->. destruct c; simpl in Hp;
    repeat (apply elem_of_cons in Hp as [Hp|Hp]; [discriminate Hp|]);
    inversion Hp.
Qed.

(** What [achar] finds, as the column [or_else] gives. *)
Lemma achar_or_else (header prefixos : list string) (d : string) :
  (forall p, p ∈ prefixos -> p <> EmptyString) ->
  (or_else (achar header prefixos) d ∈ header
   /\ truthy (achar header prefixos) = true
   /\ exists p, p ∈ prefixos
                /\ casa p (or_else (achar header prefixos) d) = true)
  \/ (or_else (achar header prefixos) d = d
      /\ truthy (achar header prefixos) = false
      /\ forall p h, p ∈ prefixos -> h ∈ header -> casa p h = false).
Proof.
  intros Hne. pose proof (achar_spec header prefixos) as Hs.
  destruct (achar header prefixos) as [h|].
  - destruct Hs as (Hin & p & Hp & Hc).
    pose proof (casa_truthy p h (Hne p Hp) Hc) as Ht.
    destruct h as [|c h]; [discriminate|].
    left. split; [exact Hin|]. split; [reflexivity|]. exists p. done.
  - right. done.
Qed.

#[local] Opaque achar.

Lemma colunas_origem (header : list string) (mapa : Mapa) (c : Campo) :
  _mapear_colunas header = inr mapa ->
  ((coluna c mapa ∈ header
    /\ exists p, p ∈ prefixos_de c /\ casa p (coluna c mapa) = true)
   \/ (coluna c mapa = coluna_padrao c /\ sem_coluna c header))
  /\ (c = Cdata \/ c = Cprecip -> coluna c mapa ∈ header).
Proof.
  unfold _mapear_colunas, sem_coluna.
  pose proof (achar_or_else header ["data"] "") as Hdata.
  pose proof (achar_or_else header ["precip"; "precipit"] "") as Hprecip.
  pose proof (achar_or_else header ["maxima"; "tmax"; "temp_max"] "") as Hmax.
  pose proof (achar_or_else header ["max"] "maxima") as Hmax'.
  pose proof (achar_or_else header ["minima"; "tmin"; "temp_min"] "") as Hmin.
  pose proof (achar_or_else header ["min"] "minima") as Hmin'.
  pose proof (achar_or_else header prefixos_temp_media "") as Hmed.
  pose proof (achar_or_else header ["um_relativa"; "umidade"; "ur"] "") as Hum.
  pose proof (achar_or_else header
                ["vel"; "vento"; "vel_vento"; "velocidade"] "") as Hvel.
  assert (Hsub : forall c' (l : list string),
             (forall p, p ∈ l -> p ∈ prefixos_de c') ->
             forall p, p ∈ l -> p <> EmptyString).
  { intros c' l Hl p Hp. apply (prefixos_de_nao_vazios c'), Hl, Hp. }
  assert (Hin1 : forall (a : string) l, a ∈ a :: l)
    by (intros; apply list_elem_of_here).
  specialize (Hdata (Hsub Cdata _ (fun p H => H))).
  specialize (Hprecip (Hsub Cprecip _ (fun p H => H))).
  specialize (Hmed (Hsub Ctemp_media _ (fun p H => H))).
  specialize (Hum (Hsub Cum_relativa _ (fun p H => H))).
  specialize (Hvel (Hsub Cvel_vento _ (fun p H => H))).
  assert (Hmax3 : forall p, p ∈ ["maxima"; "tmax"; "temp_max"] ->
                            p ∈ prefixos_de Cmaxima).
  { intros p Hp. simpl.
    repeat (apply elem_of_cons in Hp as [->|Hp]; [na_lista|]). inversion Hp. }
  assert (Hmax1 : forall p, p ∈ ["max"] -> p ∈ prefixos_de Cmaxima).
  { intros p Hp. apply list_elem_of_singleton in Hp as ->. simpl. na_lista. }
  assert (Hmin3 : forall p, p ∈ ["minima"; "tmin"; "temp_min"] ->
                            p ∈ prefixos_de Cminima).
  { intros p Hp. simpl.
    repeat (apply elem_of_cons in Hp as [->|Hp]; [na_lista|]). inversion Hp. }
  assert (Hmin1 : forall p, p ∈ ["min"] -> p ∈ prefixos_de Cminima).
  { intros p Hp. apply list_elem_of_singleton in Hp as ->. simpl. na_lista. }
  specialize (Hmax (Hsub Cmaxima _ Hmax3)).
  specialize (Hmax' (Hsub Cmaxima _ Hmax1)).
  specialize (Hmin (Hsub Cminima _ Hmin3)).
  specialize (Hmin' (Hsub Cminima _ Hmin1)).
  destruct Hdata as [(Hd1 & Hd2 & Hd3)|(_ & Hd2 & _)]; rewrite Hd2;
    [|discriminate].
  destruct Hprecip as [(Hp1 & Hp2 & Hp3)|(_ & Hp2 & _)]; rewrite Hp2;
    [|discriminate].
  cbn [negb]. intros [= <-].
  split; [|intros [->| ->]; cbn [coluna col_data col_precip]; assumption].
  destruct c;
    cbn [coluna coluna_padrao col_data col_precip col_maxima col_minima
           col_temp_media col_um_relativa col_vel_vento].
  - left. done.
  - left. done.
  - destruct Hmax as [(H1 & H2 & p & Hp & Hc)|(_ & H2 & Hno)]; rewrite H2.
    + left. split; [exact H1|]. exists p. split; [apply Hmax3, Hp|exact Hc].
    + destruct Hmax' as [(H1 & _ & p & Hp & Hc)|(H1 & _ & Hno')].
      * left. split; [exact H1|]. exists p. split; [apply Hmax1, Hp|exact Hc].
      * right. split; [exact H1|]. intros p h Hp Hh.
        apply elem_of_cons in Hp as [->|Hp]; [apply Hno; [na_lista|done]|].
        apply elem_of_cons in Hp as [->|Hp]; [apply Hno; [na_lista|done]|].
        apply elem_of_cons in Hp as [->|Hp]; [apply Hno; [na_lista|done]|].
        apply Hno'; done.
  - destruct Hmin as [(H1 & H2 & p & Hp & Hc)|(_ & H2 & Hno)]; rewrite H2.
    + left. split; [exact H1|]. exists p. split; [apply Hmin3, Hp|exact Hc].
    + destruct Hmin' as [(H1 & _ & p & Hp & Hc)|(H1 & _ & Hno')].
      * left. split; [exact H1|]. exists p. split; [apply Hmin1, Hp|exact Hc].
      * right. split; [exact H1|]. intros p h Hp Hh.
        apply elem_of_cons in Hp as [->|Hp]; [apply Hno; [na_lista|done]|].
        apply elem_of_cons in Hp as [->|Hp]; [apply Hno; [na_lista|done]|].
        apply elem_of_cons in Hp as [->|Hp]; [apply Hno; [na_lista|done]|].
        apply Hno'; done.
  - destruct Hmed as [(H1 & _ & H3)|(H1 & _ & Hno)]; [left|right]; done.
  - destruct Hum as [(H1 & _ & H3)|(H1 & _ & Hno)]; [left|right]; done.
  - destruct Hvel as [(H1 & _ & H3)|(H1 & _ & Hno)]; [left|right]; done.
Qed.

#[local] Transparent achar.

(** A column of a resolved map is a header that starts, blanks and letter
    case apart, with one of the prefixes of its field, or it is the default
    of the field when no header starts with any of them. The date and the
    precipitation columns are always headers. *)
Theorem X_colunas_resolvidas (header : list string) (mapa : Mapa) (c : Campo) :
  _mapear_colunas header = inr mapa ->
  ((coluna c mapa ∈ header
    /\ exists p, p ∈ prefixos_de c /\ casa p (coluna c mapa) = true)
   \/ (coluna c mapa = coluna_padrao c /\ sem_coluna c header))
  /\ (c = Cdata \/ c = Cprecip -> coluna c mapa ∈ header).
Proof. apply colunas_origem. Qed.

Lemma X_colunas_resolvidas_witness :
  ((coluna Cmaxima mapa_basico ∈ cabecalho_basico
    /\ exists p, p ∈ prefixos_de Cmaxima
                 /\ casa p (coluna Cmaxima mapa_basico) = true)
   \/ (coluna Cmaxima mapa_basico = coluna_padrao Cmaxima
       /\ sem_coluna Cmaxima cabecalho_basico))
  /\ (Cmaxima = Cdata \/ Cmaxima = Cprecip ->
      coluna Cmaxima mapa_basico ∈ cabecalho_basico).
Proof.
  apply (X_colunas_resolvidas cabecalho_basico mapa_basico Cmaxima).
  vm_compute. reflexivity.
Defined.

Lemma startswith_comparaveis (t p q : string) :
  Str.startswith t p = true -> Str.startswith t q = true ->
  Str.startswith p q = true \/ Str.startswith q p = true.
Proof.
  revert p q. induction t as [|c t IH]; intros p q Hp Hq.
  - destruct p; [|discriminate]. right. destruct q; reflexivity.
  - destruct p as [|cp p]; [right; destruct q; reflexivity|].
    destruct q as [|cq q]; [left; reflexivity|].
    simpl in Hp, Hq.
    apply andb_true_iff in Hp as [Hcp Hp], Hq as [Hcq Hq].
    apply Ascii.eqb_eq in Hcp, Hcq. subst cp cq. simpl.
    rewrite Ascii.eqb_refl. simpl. apply IH; assumption.
Qed.

Lemma prefixos_incomparaveis (c1 c2 : Campo) (p q : string) :
  c1 <> c2 -> p ∈ prefixos_de c1 -> q ∈ prefixos_de c2 ->
  Str.startswith p q = false /\ Str.startswith q p = false.
Proof.
  intros Hne Hp Hq.
  destruct c1, c2; try congruence;
    unfold prefixos_de, prefixos_temp_media in Hp, Hq;
    repeat (apply elem_of_cons in Hp as [->|Hp]);
    try (inversion Hp; fail);
    repeat (apply elem_of_cons in Hq as [->|Hq]);
    try (inversion Hq; fail);
    vm_compute; split; reflexivity.
Qed.

Lemma coluna_padrao_casa (c : Campo) :
  coluna_padrao c <> EmptyString ->
  exists p, p ∈ prefixos_de c /\ casa p (coluna_padrao c) = true.
Proof.
  destruct c; simpl; try congruence; intros _.
  - exists "maxima". split; [na_lista|reflexivity].
  - exists "minima". split; [na_lista|reflexivity].
Qed.

Lemma coluna_padrao_inj (c1 c2 : Campo) :
  coluna_padrao c1 <> EmptyString ->
  coluna_padrao c1 = coluna_padrao c2 -> c1 = c2.
Proof. destruct c1, c2; simpl; congruence. Qed.

(** No column is read for two fields: in a resolved map, a field that has a
    column has a column that no other field has. *)
Theorem X_colunas_distintas (header : list string) (mapa : Mapa)
    (c1 c2 : Campo) :
  _mapear_colunas header = inr mapa ->
  c1 <> c2 ->
  coluna c1 mapa <> EmptyString ->
  coluna c1 mapa <> coluna c2 mapa.
Proof.
  intros Hm Hne Hcol Heq.
  destruct (colunas_origem header mapa c1 Hm) as [H1 _].
  destruct (colunas_origem header mapa c2 Hm) as [H2 _].
  destruct H1 as [(Hin1 & p & Hp & Hcp)|(Hd1 & Hno1)],
    H2 as [(Hin2 & q & Hq & Hcq)|(Hd2 & Hno2)].
  - rewrite <- Heq in Hcq. unfold casa in Hcp, Hcq.
    destruct (startswith_comparaveis _ _ _ Hcp Hcq) as [Hc|Hc];
      destruct (prefixos_incomparaveis c1 c2 p q Hne Hp Hq); congruence.
  - assert (Hpad : coluna_padrao c2 <> EmptyString)
      by (rewrite <- Hd2, <- Heq; exact Hcol).
    destruct (coluna_padrao_casa c2 Hpad) as (q & Hq & Hcq).
    rewrite <- Hd2, <- Heq in Hcq.
    rewrite (Hno2 q _ Hq Hin1) in Hcq. discriminate.
  - rewrite Hd1 in Hcol, Heq.
    destruct (coluna_padrao_casa c1 Hcol) as (p & Hp & Hcp).
    rewrite Heq in Hcp. rewrite (Hno1 p _ Hp Hin2) in Hcp. discriminate.
  - rewrite Hd1, Hd2 in Heq. rewrite Hd1 in Hcol.
    apply Hne, coluna_padrao_inj; assumption.
Qed.

Lemma X_colunas_distintas_witness :
  coluna Cmaxima mapa_basico <> coluna Cminima mapa_basico.
Proof.
  apply (X_colunas_distintas cabecalho_basico mapa_basico Cmaxima Cminima).
  - vm_compute. reflexivity.
  - discriminate.
  - discriminate.
Defined.

(** ** Fields without a column *)

Lemma carregar_linha_valor (mapa : Mapa) (lin : Linha) (reg : Registro)
    (c : Campo) :
  carregar_linha mapa lin = Some reg ->
  c ∈ [Cmaxima; Cminima; Ctemp_media; Cum_relativa; Cvel_vento] ->
  valor c reg = campo_opcional lin (coluna c mapa).
Proof.
  unfold carregar_linha.
  destruct (lin !! col_data mapa) as [[txt|]|]; try discriminate.
  destruct (parse_data_br txt) as [d|]; [|discriminate].
  intros [= <-] Hc.
  repeat (apply elem_of_cons in Hc as [->|Hc]; [reflexivity|]).
  inversion Hc.
Qed.

Lemma carregar_elem_of (leitor : Leitor) (regs : list Registro)
    (reg : Registro) :
  carregar_dados_csv (Some leitor) = inr regs -> reg ∈ regs ->
  exists mapa lin,
    _mapear_colunas (default [] (fieldnames leitor)) = inr mapa
    /\ lin ∈ linhas leitor /\ carregar_linha mapa lin = Some reg.
Proof.
  unfold carregar_dados_csv.
  destruct (_mapear_colunas (default [] (fieldnames leitor))) as [e|mapa];
    [discriminate|].
  intros [= <-] Hreg. apply list_elem_of_omap in Hreg as (lin & Hlin & Hr).
  exists mapa, lin. done.
Qed.

Lemma sem_coluna_padrao (header : list string) (mapa : Mapa) (c : Campo) :
  _mapear_colunas header = inr mapa -> sem_coluna c header ->
  coluna c mapa = coluna_padrao c.
Proof.
  intros Hm Hno.
  destruct (colunas_origem header mapa c Hm) as [[(Hin & p & Hp & Hc)|[Hd _]] _];
    [|exact Hd].
  rewrite (Hno p _ Hp Hin) in Hc. discriminate.
Qed.

(** When no header starts with a prefix of the mean temperature, of the
    humidity or of the wind speed, that field is absent in every record
    that the loader returns. *)
Theorem X_campo_sem_coluna (leitor : Leitor) (regs : list Registro)
    (c : Campo) :
  carregar_dados_csv (Some leitor) = inr regs ->
  c ∈ [Ctemp_media; Cum_relativa; Cvel_vento] ->
  sem_coluna c (default [] (fieldnames leitor)) ->
  forall reg, reg ∈ regs -> valor c reg = None.
Proof.
  intros Hload Hc Hno reg Hreg.
  destruct (carregar_elem_of leitor regs reg Hload Hreg)
    as (mapa & lin & Hm & _ & Hlin).
  rewrite (carregar_linha_valor mapa lin reg c Hlin)
    by (do 2 apply list_elem_of_further; exact Hc).
  rewrite (sem_coluna_padrao _ mapa c Hm Hno).
  repeat (apply elem_of_cons in Hc as [->|Hc]; [reflexivity|]).
  inversion Hc.
Qed.

Lemma X_campo_sem_coluna_witness :
  exists regs,
    carregar_dados_csv (Some arquivo_basico) = inr regs
    /\ forall reg, reg ∈ regs -> valor Cvel_vento reg = None.
Proof.
  destruct (carregar_dados_csv (Some arquivo_basico)) as [e|regs] eqn:Hc;
    [vm_compute in Hc; discriminate|].
  exists regs. split; [reflexivity|].
  apply (X_campo_sem_coluna arquivo_basico regs Cvel_vento Hc).
  - na_lista.
  - intros p h Hp Hh. simpl in Hp, Hh. unfold cabecalho_basico in Hh.
    repeat (apply elem_of_cons in Hp as [->|Hp]);
      try (inversion Hp; fail);
      repeat (apply elem_of_cons in Hh as [->|Hh]);
      try (inversion Hh; fail); reflexivity.
Defined.

(** When no header starts with a prefix of the maximum (or of the minimum)
    temperature and the rows have no other keys than the headers, as the
    rows of the reader have, that field is absent in every record that the
    loader returns: the default column name is not a column of the file. *)
Theorem X_max_min_sem_coluna (leitor : Leitor) (regs : list Registro)
    (c : Campo) :
  carregar_dados_csv (Some leitor) = inr regs ->
  c ∈ [Cmaxima; Cminima] ->
  sem_coluna c (default [] (fieldnames leitor)) ->
  (forall lin k, lin ∈ linhas leitor -> is_Some (lin !! k) ->
                 k ∈ default [] (fieldnames leitor)) ->
  forall reg, reg ∈ regs -> valor c reg = None.
Proof.
  intros Hload Hc Hno Hkeys reg Hreg.
  destruct (carregar_elem_of leitor regs reg Hload Hreg)
    as (mapa & lin & Hm & Hlin & Hr).
  rewrite (carregar_linha_valor mapa lin reg c Hr)
    by (repeat (apply elem_of_cons in Hc as [->|Hc]; [na_lista|]);
        inversion Hc).
  rewrite (sem_coluna_padrao _ mapa c Hm Hno).
  assert (Hpad : coluna_padrao c <> EmptyString)
    by (repeat (apply elem_of_cons in Hc as [->|Hc]; [discriminate|]);
        inversion Hc).
  destruct (coluna_padrao_casa c Hpad) as (p & Hp & Hcp).
  assert (Hnone : lin !! coluna_padrao c = None).
  { destruct (lin !! coluna_padrao c) as [cell|] eqn:Hl; [|reflexivity].
    exfalso.
    assert (Hin : coluna_padrao c ∈ default [] (fieldnames leitor))
      by (apply (Hkeys lin); [exact Hlin|rewrite Hl; eexists; reflexivity]).
    rewrite (Hno p _ Hp Hin) in Hcp. discriminate. }
  unfold campo_opcional, lin_get. rewrite Hnone.
  destruct (coluna_padrao c); reflexivity.
Qed.

Lemma DictReader_linha_chaves (header cells : list string) (k : string) :
  is_Some (DictReader_linha header cells !! k) -> k ∈ header.
Proof.
  revert cells. induction header as [|h header IH]; intros cells;
    cbn [DictReader_linha]; unfold Linha in *.
  - rewrite lookup_empty. intros [? ?]. discriminate.
  - case_match.
    + intros Hk. apply list_elem_of_further, (IH (tail cells)), Hk.
    + destruct (decide (h = k)) as [->|Hne]; [intros _; apply list_elem_of_here|].
      rewrite lookup_insert_ne by exact Hne.
      intros Hk. apply list_elem_of_further, (IH (tail cells)), Hk.
Qed.

Lemma X_max_min_sem_coluna_witness :
  exists regs,
    carregar_dados_csv (Some arquivo_minimo) = inr regs
    /\ forall reg, reg ∈ regs -> valor Cmaxima reg = None.
Proof.
  destruct (carregar_dados_csv (Some arquivo_minimo)) as [e|regs] eqn:Hc;
    [vm_compute in Hc; discriminate|].
  exists regs. split; [reflexivity|].
  apply (X_max_min_sem_coluna arquivo_minimo regs Cmaxima Hc).
  - na_lista.
  - intros p h Hp Hh. simpl in Hp, Hh.
    repeat (apply elem_of_cons in Hp as [->|Hp]);
      try (inversion Hp; fail);
      repeat (apply elem_of_cons in Hh as [->|Hh]);
      try (inversion Hh; fail); reflexivity.
  - intros lin k Hlin Hk. cbn [arquivo_minimo linhas] in Hlin.
    apply list_elem_of_singleton in Hlin. subst lin.
    apply (DictReader_linha_chaves ["data"; "precip"] ["01/01/2000"; "1,5"]).
    exact Hk.
Defined.

(** ** Overall mean: properties *)

Lemma medias_lookup (registros : list Registro) (mes : Z)
    (medias : gmap Z Float.float) (y : Z) :
  medias_minimas_mes_2006_2016 registros mes = Some medias ->
  medias !! y =
  if decide (2006 <= y <= 2016) then
    match minimas_de registros y mes with
    | [] => None
    | l => Some (media l)
    end
  else None.
Proof.
  unfold medias_minimas_mes_2006_2016.
  destruct (negb _); [discriminate|]. intros [= <-].
  rewrite lookup_omap, vals_lookup.
  destruct (decide (2006 <= y <= 2016)); simpl; [|reflexivity].
  destruct (minimas_de registros y mes); reflexivity.
Qed.

Lemma itens_lookup (m : gmap Z Float.float) (l : list Z) (y : Z) :
  NoDup l ->
  (list_to_map (omap (fun a => (fun v => (a, v)) <$> m !! a) l)
     : gmap Z Float.float) !! y
  = if decide (y ∈ l) then m !! y else None.
Proof.
  induction l as [|x l IH]; intros Hnd; csimpl.
  - rewrite lookup_empty. reflexivity.
  - apply NoDup_cons in Hnd as [Hx Hnd]. specialize (IH Hnd).
    destruct (m !! x) as [v|] eqn:Hmx; csimpl.
    + destruct (decide (x = y)) as [->|Hne].
      * rewrite lookup_insert_eq, decide_True by apply list_elem_of_here.
        symmetry. exact Hmx.
      * rewrite lookup_insert_ne by exact Hne. rewrite IH.
        destruct (decide (y ∈ l)) as [Hin|Hnin].
        -- rewrite decide_True by (apply list_elem_of_further, Hin). reflexivity.
        -- rewrite decide_False; [reflexivity|].
           rewrite elem_of_cons. intros [?|?]; [congruence|contradiction].
    + rewrite IH. destruct (decide (y ∈ l)) as [Hin|Hnin].
      * rewrite decide_True by (apply list_elem_of_further, Hin). reflexivity.
      * destruct (decide (y = x)) as [->|Hne].
        -- rewrite decide_True by apply list_elem_of_here. symmetry. exact Hmx.
        -- rewrite decide_False; [reflexivity|].
           rewrite elem_of_cons. intros [?|?]; [congruence|contradiction].
Qed.

Lemma omap_nil_iff {A B : Type} (f : A -> option B) (l : list A) :
  omap f l = [] <-> forall x, x ∈ l -> f x = None.
Proof.
  induction l as [|a l IH]; csimpl.
  - split; [intros _ x Hx; inversion Hx|reflexivity].
  - destruct (f a) eqn:Ha; csimpl.
    + split; [discriminate|]. intros Hall.
      rewrite (Hall a) in Ha by apply list_elem_of_here. discriminate.
    + rewrite IH. split.
      * intros Hall x Hx. apply elem_of_cons in Hx as [->|Hx]; [exact Ha|].
        apply Hall, Hx.
      * intros Hall x Hx. apply Hall, list_elem_of_further, Hx.
Qed.

(** For a month in 1..12, the items of the dictionary of yearly means, in
    its iteration order, are the entries of the map by ascending year; and
    [media_geral] of it is [None] exactly when no record of 2006..2016 in
    that month has a minimum temperature. *)
Theorem X_media_geral (registros : list Registro) (mes : Z) :
  1 <= mes <= 12 ->
  exists medias,
    medias_minimas_mes_2006_2016 registros mes = Some medias
    /\ list_to_map (medias_em_ordem medias) = medias
    /\ (medias_em_ordem medias).*1
       = filter (fun y => is_Some (medias !! y)) anos_2006_2016
    /\ (media_geral (medias_em_ordem medias) = None <->
        forall r, r ∈ registros ->
                  ~ (2006 <= Date.year (data r) <= 2016
                     /\ Date.month (data r) = mes /\ is_Some (minima r))).
Proof.
  intros Hmes.
  destruct (medias_minimas_mes_2006_2016 registros mes) as [medias|] eqn:Hm.
  2: { unfold medias_minimas_mes_2006_2016 in Hm.
       assert (Hb : negb ((1 <=? mes) && (mes <=? 12)) = false)
         by (apply negb_false_iff, andb_true_iff; rewrite !Z.leb_le; lia).
       rewrite Hb in Hm. discriminate. }
  exists medias. split; [reflexivity|].
  pose proof (fun y => medias_lookup registros mes medias y Hm) as Hlook.
  assert (Hnd : NoDup anos_2006_2016) by apply NoDup_seqZ.
  split; [|split].
  - apply map_eq. intros y. unfold medias_em_ordem.
    rewrite (itens_lookup medias _ y Hnd).
    destruct (decide (y ∈ anos_2006_2016)) as [Hin|Hnin]; [reflexivity|].
    rewrite Hlook. rewrite decide_False; [reflexivity|].
    intros Hy. apply Hnin, elem_of_seqZ. lia.
  - unfold medias_em_ordem. clear Hnd.
    induction anos_2006_2016 as [|a l IH]; [reflexivity|].
    rewrite filter_cons. csimpl.
    destruct (medias !! a) as [v|]; csimpl.
    + rewrite IH. reflexivity.
    + exact IH.
  - assert (Hnil : media_geral (medias_em_ordem medias) = None
                   <-> medias_em_ordem medias = []).
    { unfold media_geral. destruct (medias_em_ordem medias);
        split; intros; congruence. }
    rewrite Hnil. unfold medias_em_ordem.
    etransitivity; [apply omap_nil_iff|]. split.
    + intros Hall r Hr (Hy & Hmo & Hv).
      specialize (Hall (Date.year (data r))).
      rewrite Hlook, decide_True in Hall by exact Hy.
      assert (Hne : minimas_de registros (Date.year (data r)) mes <> []).
      { apply minimas_de_nonempty. exists r. done. }
      destruct (minimas_de registros (Date.year (data r)) mes); [done|].
      assert (Hin : Date.year (data r) ∈ anos_2006_2016)
        by (apply elem_of_seqZ; lia).
      specialize (Hall Hin). discriminate.
    + intros Hall y Hy. rewrite Hlook.
      destruct (decide (2006 <= y <= 2016)) as [Hw|]; [|reflexivity].
      destruct (minimas_de registros y mes) as [|v l] eqn:Hl; [reflexivity|].
      exfalso.
      assert (Hne : minimas_de registros y mes <> []) by (rewrite Hl; done).
      apply minimas_de_nonempty in Hne as (r & Hr & Hyr & Hmo & Hv).
      apply (Hall r Hr). rewrite Hyr. done.
Qed.

(** The minima 10.0 and 12.0 of July 2006 are the only ones of the window:
    the overall mean of July is their mean, 11.0. *)
Lemma X_media_geral_witness :
  (media_geral <$> (medias_em_ordem
                      <$> medias_minimas_mes_2006_2016 minimas_julho 7))
    = Some (Some (Float.of_int 11))
  /\ exists medias,
      medias_minimas_mes_2006_2016 minimas_julho 7 = Some medias
      /\ list_to_map (medias_em_ordem medias) = medias.
Proof.
  split; [vm_compute; reflexivity|].
  destruct (X_media_geral minimas_julho 7) as (medias & Hm & Hmap & _);
    [lia|].
  exists medias. split; [exact Hm|exact Hmap].
Defined.

(** ** Reading an integer: properties *)

Lemma abaixo_false (minimo : option Z) (v : Z) :
  abaixo minimo v = false <-> forall m, minimo = Some m -> m <= v.
Proof.
  destruct minimo as [m|]; simpl.
  - rewrite Z.ltb_ge. split; [intros Hm ? [= <-]; exact Hm|auto].
  - split; [discriminate|reflexivity].
Qed.

Lemma acima_false (maximo : option Z) (v : Z) :
  acima maximo v = false <-> forall m, maximo = Some m -> v <= m.
Proof.
  destruct maximo as [m|]; simpl.
  - rewrite Z.ltb_ge. split; [intros Hm ? [= <-]; exact Hm|auto].
  - split; [discriminate|reflexivity].
Qed.

Lemma ler_int_spec (minimo maximo : option Z) (entradas : list string)
    (avisos : list Aviso) (v : Z) (resto : list string) :
  ler_int minimo maximo entradas = (avisos, Some (v, resto)) ->
  exists antes linha,
    entradas = antes ++ linha :: resto
    /\ py_int (Str.strip linha) = Some v
    /\ abaixo minimo v = false /\ acima maximo v = false
    /\ length avisos = length antes
    /\ forall l, l ∈ antes -> ~ aceita minimo maximo l.
Proof.
  revert avisos. induction entradas as [|linha rest IH]; intros avisos;
    simpl; [discriminate|].
  assert (Hstep : forall a avs,
            (let '(avisos0, r) := ler_int minimo maximo rest in
             (a :: avisos0, r)) = (avs, Some (v, resto)) ->
            ~ aceita minimo maximo linha ->
            exists antes linha0,
              linha :: rest = antes ++ linha0 :: resto
              /\ py_int (Str.strip linha0) = Some v
              /\ abaixo minimo v = false /\ acima maximo v = false
              /\ length avs = length antes
              /\ forall l, l ∈ antes -> ~ aceita minimo maximo l).
  { intros a avs Heq Hrej.
    destruct (ler_int minimo maximo rest) as [avisos0 r].
    injection Heq as <- ->.
    destruct (IH avisos0 eq_refl) as (antes & l0 & -> & Hp & Hlo & Hhi & Hlen & Hall).
    exists (linha :: antes), l0. repeat split; try assumption.
    - simpl. rewrite Hlen. reflexivity.
    - intros l Hl. apply elem_of_cons in Hl as [->|Hl]; [exact Hrej|].
      apply Hall, Hl. }
  destruct (py_int (Str.strip linha)) as [w|] eqn:Hw.
  - destruct (abaixo minimo w) eqn:Hlo.
    + intros Heq. apply (Hstep _ _ Heq).
      intros (w' & Hw' & Hlo' & _). congruence.
    + destruct (acima maximo w) eqn:Hhi.
      * intros Heq. apply (Hstep _ _ Heq).
        intros (w' & Hw' & _ & Hhi'). congruence.
      * intros [= <- <- <-]. exists [], linha. repeat split; try assumption.
        intros l Hl. inversion Hl.
  - intros Heq. apply (Hstep _ _ Heq).
    intros (w' & Hw' & _). congruence.
Qed.

(** The integer that [ler_int] returns is within the bounds that were
    given; it is the value of the first line that is an integer within the
    bounds, each line before it was refused with one message, and the
    lines after it are left unread. *)
Theorem X_ler_int_resultado (minimo maximo : option Z)
    (entradas : list string) (avisos : list Aviso) (v : Z)
    (resto : list string) :
  ler_int minimo maximo entradas = (avisos, Some (v, resto)) ->
  (forall m, minimo = Some m -> m <= v)
  /\ (forall m, maximo = Some m -> v <= m)
  /\ exists antes linha,
       entradas = antes ++ linha :: resto
       /\ py_int (Str.strip linha) = Some v
       /\ length avisos = length antes
       /\ forall l, l ∈ antes -> ~ aceita minimo maximo l.
Proof.
  intros Hres.
  destruct (ler_int_spec _ _ _ _ _ _ Hres)
    as (antes & linha & He & Hp & Hlo & Hhi & Hlen & Hall).
  split; [apply abaixo_false, Hlo|]. split; [apply acima_false, Hhi|].
  exists antes, linha. done.
Qed.

Lemma X_ler_int_resultado_witness :
  ler_int (Some 1) (Some 12) ["abc"; "0"; "13"; " 7 "; "9"]
    = ([EntradaInvalida; ValorMinimo 1; ValorMaximo 12], Some (7, ["9"]))
  /\ (forall m, Some 1 = Some m -> m <= 7)
  /\ (forall m, Some 12 = Some m -> 7 <= m).
Proof.
  assert (Hr : ler_int (Some 1) (Some 12) ["abc"; "0"; "13"; " 7 "; "9"]
               = ([EntradaInvalida; ValorMinimo 1; ValorMaximo 12],
                  Some (7, ["9"]))) by (vm_compute; reflexivity).
  split; [exact Hr|].
  destruct (X_ler_int_resultado _ _ _ _ _ _ Hr) as (Hlo & Hhi & _).
  split; [exact Hlo|exact Hhi].
Defined.

(** [ler_int] returns as soon as a line is an integer within the bounds:
    it returns a value when there is such a line. When there is none, it
    refuses every line with one message and ends with the end of the
    input. *)
Theorem X_ler_int_termina (minimo maximo : option Z) (entradas : list string) :
  ((exists l, l ∈ entradas /\ aceita minimo maximo l) ->
   exists avisos v resto,
     ler_int minimo maximo entradas = (avisos, Some (v, resto)))
  /\ ((forall l, l ∈ entradas -> ~ aceita minimo maximo l) ->
      exists avisos,
        ler_int minimo maximo entradas = (avisos, None)
        /\ length avisos = length entradas).
Proof.
  induction entradas as [|linha rest [IH1 IH2]]; simpl.
  - split; [intros (l & Hl & _); inversion Hl|].
    intros _. exists []. done.
  - assert (Hdec : aceita minimo maximo linha \/ ~ aceita minimo maximo linha).
    { unfold aceita. destruct (py_int (Str.strip linha)) as [w|].
      - destruct (abaixo minimo w) eqn:Hlo, (acima maximo w) eqn:Hhi;
          try (right; intros (w' & [= <-] & ? & ?); congruence).
        left. exists w. done.
      - right. intros (w' & Hw' & _). discriminate. }
    split.
    + intros (l & Hl & Hac).
      destruct (py_int (Str.strip linha)) as [w|] eqn:Hw.
      * destruct (abaixo minimo w) eqn:Hlo;
          [|destruct (acima maximo w) eqn:Hhi; [|eauto]].
        -- apply elem_of_cons in Hl as [->|Hl];
             [destruct Hac as (w' & Hw' & Hlo' & _); congruence|].
           destruct (IH1 (ex_intro _ l (conj Hl Hac))) as (a & v & r & ->).
           eauto.
        -- apply elem_of_cons in Hl as [->|Hl];
             [destruct Hac as (w' & Hw' & _ & Hhi'); congruence|].
           destruct (IH1 (ex_intro _ l (conj Hl Hac))) as (a & v & r & ->).
           eauto.
      * apply elem_of_cons in Hl as [->|Hl];
          [destruct Hac as (w' & Hw' & _); congruence|].
        destruct (IH1 (ex_intro _ l (conj Hl Hac))) as (a & v & r & ->).
        eauto.
    + intros Hall.
      destruct (IH2 (fun l Hl => Hall l (list_elem_of_further _ _ _ Hl)))
        as (a & -> & Hlen).
      assert (Hrej : ~ aceita minimo maximo linha)
        by apply Hall, list_elem_of_here.
      destruct (py_int (Str.strip linha)) as [w|] eqn:Hw.
      * destruct (abaixo minimo w) eqn:Hlo;
          [eexists; split; [reflexivity|simpl; lia]|].
        destruct (acima maximo w) eqn:Hhi;
          [eexists; split; [reflexivity|simpl; lia]|].
        exfalso. apply Hrej. exists w. unfold aceita. rewrite Hw. done.
      * eexists; split; [reflexivity|simpl; lia].
Qed.

Lemma X_ler_int_termina_witness :
  (exists avisos v resto,
     ler_int (Some 0) (Some 5) ["x"; "3"] = (avisos, Some (v, resto)))
  /\ exists avisos,
      ler_int (Some 0) (Some 5) ["x"; "9"] = (avisos, None)
      /\ length avisos = length ["x"; "9"].
Proof.
  split.
  - apply (X_ler_int_termina (Some 0) (Some 5) ["x"; "3"]).
    exists "3". split; [na_lista|]. exists 3. vm_compute. done.
  - apply (X_ler_int_termina (Some 0) (Some 5) ["x"; "9"]).
    intros l Hl (w & Hw & Hlo & Hhi).
    repeat (apply elem_of_cons in Hl as [->|Hl];
            [vm_compute in Hw; try discriminate Hw;
             injection Hw as <-; vm_compute in Hhi; discriminate|]).
    inversion Hl.
Defined.

(** A line of more than 4300 digits is refused as any text that is not an
    integer, leading zeros counted: after it the entry [5] is read. A line
    of 4300 digits is read. *)
Lemma ler_int_limite_de_digitos :
  ler_int (Some 1) (Some 12) [repetir 4300 "0" +:+ "7"; "5"]
  = ([EntradaInvalida], Some (5, []))
  /\ ler_int (Some 1) (Some 12) [repetir 4299 "0" +:+ "7"; "5"]
     = ([], Some (7, ["5"])).
Proof. split; vm_compute; reflexivity. Qed.

(** The month that the menu reads with the bounds 1 and 12 is a month that
    [medias_minimas_mes_2006_2016] accepts: its [ValueError] cannot be
    raised from the menu. *)
Theorem X_menu_mes_valido (entradas : list string) (avisos : list Aviso)
    (mes : Z) (resto : list string) (registros : list Registro) :
  ler_int (Some 1) (Some 12) entradas = (avisos, Some (mes, resto)) ->
  is_Some (medias_minimas_mes_2006_2016 registros mes).
Proof.
  intros Hres.
  destruct (ler_int_spec _ _ _ _ _ _ Hres)
    as (_ & _ & _ & _ & Hlo & Hhi & _).
  simpl in Hlo, Hhi. apply Z.ltb_ge in Hlo, Hhi.
  unfold medias_minimas_mes_2006_2016.
  assert (Hb : negb ((1 <=? mes) && (mes <=? 12)) = false)
    by (apply negb_false_iff, andb_true_iff; rewrite !Z.leb_le; lia).
  rewrite Hb. eexists. reflexivity.
Qed.

Lemma X_menu_mes_valido_witness :
  is_Some (medias_minimas_mes_2006_2016 minimas_julho 7).
Proof.
  apply (X_menu_mes_valido ["13"; "7"] [ValorMaximo 12] 7 [] minimas_julho).
  vm_compute. reflexivity.
Defined.

(** ** Dates: printing and reading back *)

Module DateTextFacts.
Import DateText.

Lemma digit_cases (n : Z) :
  0 <= n <= 9 ->
  n ∈ [0; 1; 2; 3; 4; 5; 6; 7; 8; 9].
Proof.
  intros Hn. replace [0; 1; 2; 3; 4; 5; 6; 7; 8; 9] with (seqZ 0 10)
    by reflexivity.
  apply elem_of_seqZ. lia.
Qed.

Lemma digit_char_facts (n : Z) :
  0 <= n <= 9 ->
  Str.is_digit (digit_char n) = true
  /\ Str.digit_val (digit_char n) = n
  /\ Str.is_space (digit_char n) = false.
Proof.
  intros Hn. apply digit_cases in Hn.
  repeat (apply elem_of_cons in Hn as [->|Hn]; [vm_compute; done|]).
  inversion Hn.
Qed.

Lemma decimal_four (y : Z) :
  1000 <= y <= 9999 ->
  decimal y = four (y / 1000) (y / 100 mod 10) (y / 10 mod 10) (y mod 10).
Proof.
  intros Hy. unfold decimal.
  assert (Hlog : 9 <= Z.log2 y).
  { change 9 with (Z.log2 1000). apply Z.log2_le_mono. lia. }
  destruct (Z.to_nat (Z.log2 y)) as [|[|[|n]]] eqn:Hn; try lia.
  cbn [decimal_aux].
  assert (H1 : (y <? 10) = false) by (apply Z.ltb_ge; lia).
  assert (H2 : (y / 10 <? 10) = false)
    by (apply Z.ltb_ge; Z.to_euclidean_division_equations; lia).
  assert (H3 : (y / 10 / 10 <? 10) = false)
    by (apply Z.ltb_ge; Z.to_euclidean_division_equations; lia).
  assert (H4 : (y / 10 / 10 / 10 <? 10) = true)
    by (apply Z.ltb_lt; Z.to_euclidean_division_equations; lia).
  rewrite H1, H2, H3, H4. unfold four.
  replace (y / 10 / 10 / 10 mod 10) with (y / 1000)
    by (Z.to_euclidean_division_equations; lia).
  replace (y / 10 / 10 mod 10) with (y / 100 mod 10)
    by (Z.to_euclidean_division_equations; lia).
  reflexivity.
Qed.

Lemma re_Y_four (a b c e : Z) :
  0 <= a <= 9 -> 0 <= b <= 9 -> 0 <= c <= 9 -> 0 <= e <= 9 ->
  Date.re_Y (four a b c e) = [(four a b c e, EmptyString)]
  /\ Date.int (four a b c e) = 1000 * a + 100 * b + 10 * c + e.
Proof.
  intros Ha Hb Hc He.
  destruct (digit_char_facts a Ha) as (Ha1 & Ha2 & Ha3).
  destruct (digit_char_facts b Hb) as (Hb1 & Hb2 & Hb3).
  destruct (digit_char_facts c Hc) as (Hc1 & Hc2 & Hc3).
  destruct (digit_char_facts e He) as (He1 & He2 & He3).
  split.
  - unfold Date.re_Y, Date.two, four. rewrite Ha1, Hb1. csimpl.
    rewrite Hc1, He1. reflexivity.
  - unfold Date.int, Str.strip, four. cbn [Str.lstrip]. rewrite Ha3.
    cbn [Str.rstrip]. rewrite He3. cbn [Float.digits].
    rewrite Ha1, Hb1, Hc1, He1, Ha2, Hb2, Hc2, He2. simpl. lia.
Qed.

Lemma int_two_digits (n : Z) :
  0 <= n <= 99 -> Date.int (two_digits n) = n.
Proof.
  intros Hn.
  destruct (digit_char_facts (n / 10)) as (Ha1 & Ha2 & Ha3);
    [Z.to_euclidean_division_equations; lia|].
  destruct (digit_char_facts (n mod 10)) as (Hb1 & Hb2 & Hb3);
    [Z.to_euclidean_division_equations; lia|].
  unfold Date.int, Str.strip, two_digits. cbn [Str.lstrip]. rewrite Ha3.
  cbn [Str.rstrip]. rewrite Hb3. cbn [Float.digits].
  rewrite Ha1, Hb1, Ha2, Hb2. simpl.
  Z.to_euclidean_division_equations; lia.
Qed.

(** A match followed by the slash, with any continuation. *)
Lemma bind_slash {B : Type} (l : list (string * string))
    (K : string -> string -> list B) :
  (l ≫= fun '(x, s1) => Date.slash s1 ≫= fun s2 => K x s2)
  = ((l ≫= fun '(x, s1) => Date.slash s1 ≫= fun s2 => [(x, s2)])
       ≫= fun '(x, s2) => K x s2).
Proof.
  induction l as [|[x s1] l IH]; [reflexivity|].
  rewrite !bind_cons, bind_app, IH. f_equal.
  unfold Date.slash. destruct s1 as [|c s1]; [reflexivity|].
  destruct (Ascii.eqb c "/"); csimpl; rewrite ?app_nil_r; reflexivity.
Qed.

Lemma re_d_two_digits (d : Z) (rest : string) :
  1 <= d <= 31 ->
  (Date.re_d (String.append (two_digits d) (String "/" rest))
     ≫= fun '(x, s1) => Date.slash s1 ≫= fun s2 => [(x, s2)])
  = [(two_digits d, rest)].
Proof.
  intros Hd.
  assert (Hd' : d ∈ seqZ 1 31) by (apply elem_of_seqZ; lia).
  vm_compute in Hd'.
  repeat (apply elem_of_cons in Hd' as [->|Hd']; [vm_compute; reflexivity|]).
  inversion Hd'.
Qed.

Lemma re_m_two_digits (m : Z) (rest : string) :
  1 <= m <= 12 ->
  (Date.re_m (String.append (two_digits m) (String "/" rest))
     ≫= fun '(x, s1) => Date.slash s1 ≫= fun s2 => [(x, s2)])
  = [(two_digits m, rest)].
Proof.
  intros Hm.
  assert (Hm' : m ∈ seqZ 1 12) by (apply elem_of_seqZ; lia).
  vm_compute in Hm'.
  repeat (apply elem_of_cons in Hm' as [->|Hm']; [vm_compute; reflexivity|]).
  inversion Hm'.
Qed.

Lemma re_date_two_digits (d m : Z) (ys : string) :
  1 <= d <= 31 -> 1 <= m <= 12 ->
  Date.re_date
    (String.append (two_digits d)
       (String "/" (String.append (two_digits m) (String "/" ys))))
  = (Date.re_Y ys ≫= fun '(y, s5) => [(two_digits d, two_digits m, y, s5)]).
Proof.
  intros Hd Hm. unfold Date.re_date.
  etransitivity.
  { apply (bind_slash _ (fun d s2 =>
      '(m, s3) ← Date.re_m s2; s4 ← Date.slash s3;
      '(y, s5) ← Date.re_Y s4; [(d, m, y, s5)])). }
  rewrite (re_d_two_digits d _ Hd). csimpl; rewrite app_nil_r.
  etransitivity.
  { apply (bind_slash _ (fun m s4 =>
      '(y, s5) ← Date.re_Y s4; [(two_digits d, m, y, s5)])). }
  rewrite (re_m_two_digits m _ Hm). csimpl; rewrite app_nil_r.
  reflexivity.
Qed.

End DateTextFacts.

(** A calendar date of the year 1000 or later, printed with the format
    [%d/%m/%Y] as the program prints dates, is read back by
    [parse_data_br] as the same date. *)
Theorem X_data_ida_e_volta (d : Date.date) :
  data_valida d -> 1000 <= Date.year d ->
  parse_data_br (DateText.strftime d) = Some d.
Proof.
  destruct d as [y m dd]. unfold data_valida. simpl.
  intros (Hy & Hm & Hd) Hy'.
  assert (Hd31 : dd <= 31).
  { unfold Date.days_in_month in Hd.
    destruct (m =? 2); [destruct (Date.is_leap y); lia|].
    destruct (_ || _); lia. }
  unfold DateText.strftime. simpl.
  rewrite (DateTextFacts.decimal_four y) by lia.
  set (ys := DateText.four _ _ _ _).
  assert (Hys : Date.re_Y ys = [(ys, EmptyString)] /\ Date.int ys = y).
  { subst ys.
    destruct (DateTextFacts.re_Y_four (y / 1000) (y / 100 mod 10)
                (y / 10 mod 10) (y mod 10)) as [H1 H2];
      try (Z.to_euclidean_division_equations; lia).
    split; [exact H1|]. rewrite H2.
    Z.to_euclidean_division_equations; lia. }
  destruct Hys as [HreY Hint].
  assert (Hstrip :
    Str.strip (String.append (DateText.two_digits dd)
                 (String "/" (String.append (DateText.two_digits m)
                                (String "/" ys))))
    = String.append (DateText.two_digits dd)
        (String "/" (String.append (DateText.two_digits m) (String "/" ys)))).
  { destruct (DateTextFacts.digit_char_facts (dd / 10)) as (_ & _ & Hs1);
      [Z.to_euclidean_division_equations; lia|].
    destruct (DateTextFacts.digit_char_facts (y mod 10)) as (_ & _ & Hs2);
      [Z.to_euclidean_division_equations; lia|].
    subst ys. unfold Str.strip, DateText.two_digits, DateText.four.
    cbv [String.append]. cbn [Str.lstrip]. rewrite Hs1.
    cbn [Str.rstrip]. rewrite Hs2. reflexivity. }
  unfold parse_data_br. rewrite Hstrip. unfold Date.strptime.
  rewrite (DateTextFacts.re_date_two_digits dd m ys) by lia.
  rewrite HreY. csimpl.
  rewrite Hint, !DateTextFacts.int_two_digits by lia.
  unfold Date.make.
  assert (Hb : (1 <=? y) && (y <=? 9999) && (1 <=? m) && (m <=? 12)
               && (1 <=? dd) && (dd <=? Date.days_in_month y m) = true).
  { repeat (apply andb_true_iff; split); apply Z.leb_le; lia. }
  rewrite Hb. reflexivity.
Qed.

Lemma X_data_ida_e_volta_witness :
  DateText.strftime (Date.Build 2016 2 29) = "29/02/2016"
  /\ parse_data_br (DateText.strftime (Date.Build 2016 2 29))
     = Some (Date.Build 2016 2 29).
Proof.
  split; [vm_compute; reflexivity|].
  apply (X_data_ida_e_volta (Date.Build 2016 2 29)).
  - unfold data_valida. vm_compute. intuition discriminate.
  - simpl. lia.
Defined.
